(** * Shein_API: the render-engine job protocol, embedded and verified

    A shallow embedding of [services/mask_service.py],
    [services/workflow_service.py] and [services/rename_service.py]:
    uploading assets, stamping a job graph, submitting it, polling the
    history endpoint, resolving the output node, downloading the variants,
    and the face-based renaming run; with them the parts of
    [routes/mask.py] and [routes/workflow.py] that prepare their input and
    shape their answer, and the retry and name-matching helpers of
    [services/promptmap_service.py].

    Conventions.
    - A Python [str] is the [string] of its UTF-8 bytes.  [PyStr.lower]
      folds the letters A to Z and is used where the result is tested
      against an ASCII extension, where it agrees with [str.lower]; where
      names are compared case apart, [str.lower] itself is the [str_lower]
      of the environment.
    - A parsed JSON document is a value of [json]; a [JObj] lists the items
      of the Python [dict] in insertion order.
    - Objects that the code mutates live in a store ([heap]) and are
      reached through references, so that aliasing is visible.
    - The engine, the clock, the log and the files written make up the
      [World]; the engine's answers are given by an oracle that sees every
      request made so far.
    - Time is counted in milliseconds as a [Z]. *)

From Stdlib Require Import ZArith Lia String Ascii List Permutation.
From stdpp Require Import base decidable list strings pretty gmap sorting.

Local Open Scope string_scope.
Local Open Scope Z_scope.

(** ** Python strings *)

Module PyStr.

Definition chars (s : string) : list ascii := list_ascii_of_string s.
Definition of_chars (l : list ascii) : string := string_of_list_ascii l.

  (** [c.lower()] on a character of one byte. *)
Definition lower_char (c : ascii) : ascii :=
    let n := nat_of_ascii c in
    if ((65 <=? n) && (n <=? 90))%nat then ascii_of_nat (n + 32) else c.

  (** [s.lower()] as far as the letters A to Z go. *)
Definition lower (s : string) : string := of_chars (map lower_char (chars s)).

  (** [s.endswith(suf)] *)
Definition endswith (s suf : string) : bool :=
    bool_decide (chars suf `suffix_of` chars s).

  (** [s.endswith((a, b, ...))] *)
Definition endswith_any (s : string) (sufs : list string) : bool :=
    existsb (endswith s) sufs.

  (** [s.startswith(pre)] *)
Definition startswith (s pre : string) : bool :=
    bool_decide (chars pre `prefix_of` chars s).

  (** [needle in hay] on two strings. *)
Fixpoint infix_chars (needle hay : list ascii) : bool :=
    bool_decide (needle `prefix_of` hay)
    || match hay with
       | [] => false
       | _ :: rest => infix_chars needle rest
       end.

Definition contains (hay needle : string) : bool :=
    infix_chars (chars needle) (chars hay).

  (** [p.rfind(c) + 1]: the position just after the last [c], 0 if none. *)
Fixpoint after_last (c : ascii) (l : list ascii) : nat :=
    match l with
    | [] => 0%nat
    | x :: rest =>
        match after_last c rest with
        | O => if decide (x = c) then 1%nat else 0%nat
        | S k => S (S k)
        end
    end.

Definition slash : ascii := "/"%char.
Definition dot : ascii := "."%char.

  (** [os.path.basename] *)
Definition basename (p : string) : string :=
    of_chars (drop (after_last slash (chars p)) (chars p)).

  (** [s.rstrip('/')] *)
Fixpoint lstrip_slash (l : list ascii) : list ascii :=
    match l with
    | [] => []
    | x :: rest => if decide (x = slash) then lstrip_slash rest else l
    end.

Definition rstrip_slash (l : list ascii) : list ascii :=
    rev (lstrip_slash (rev l)).

  (** [os.path.dirname] *)
Definition dirname (p : string) : string :=
    let l := chars p in
    let head := take (after_last slash l) l in
    if forallb (fun x => bool_decide (x = slash)) head
    then of_chars head
    else of_chars (rstrip_slash head).

  (** [os.path.join(a, b)] *)
Definition join (a b : string) : string :=
    if startswith b "/" then b
    else if (bool_decide (a = "") || endswith a "/") then a ++ b
    else a ++ "/" ++ b.

  (** [os.path.splitext]: the extension starts at the last dot of the last
      path component, unless only dots precede it there. *)
Definition splitext (p : string) : string * string :=
    let l := chars p in
    let sep1 := after_last slash l in       (* sepIndex + 1 *)
    let dot1 := after_last dot l in         (* dotIndex + 1 *)
    if (sep1 <? dot1)%nat then
      let dotIndex := (dot1 - 1)%nat in
      let lead := take (dotIndex - sep1) (drop sep1 l) in
      if forallb (fun x => bool_decide (x = dot)) lead
      then (p, "")
      else (of_chars (take dotIndex l), of_chars (drop dotIndex l))
    else (p, "").

  (** The white space of [str.strip] and [str.isspace], in UTF-8: the code
      points U+0009 to U+000D and U+001C to U+0020 take one byte, U+0085
      and U+00A0 two, and U+1680, U+2000 to U+200A, U+2028, U+2029, U+202F,
      U+205F and U+3000 three. *)
Definition is_space1 (a : ascii) : bool :=
    let n := nat_of_ascii a in
    (((9 <=? n) && (n <=? 13)) || ((28 <=? n) && (n <=? 32)))%nat.

Definition is_space2 (a b : ascii) : bool :=
    let m := nat_of_ascii b in
    ((nat_of_ascii a =? 194) && ((m =? 133) || (m =? 160)))%nat.

Definition is_space3 (a b c : ascii) : bool :=
    let k := nat_of_ascii a in
    let m := nat_of_ascii b in
    let n := nat_of_ascii c in
    (((k =? 225) && (m =? 154) && (n =? 128))
     || ((k =? 226) && (m =? 128)
         && (((128 <=? n) && (n <=? 138)) || (n =? 168) || (n =? 169) || (n =? 175)))
     || ((k =? 226) && (m =? 129) && (n =? 159))
     || ((k =? 227) && (m =? 128) && (n =? 128)))%nat.

  (** Whether a string is made of white space only. *)
Fixpoint blank_chars (l : list ascii) : bool :=
    match l with
    | [] => true
    | a :: rest =>
        if is_space1 a then blank_chars rest
        else
          match rest with
          | [] => false
          | b :: rest2 =>
              if is_space2 a b then blank_chars rest2
              else
                match rest2 with
                | [] => false
                | c :: rest3 => is_space3 a b c && blank_chars rest3
                end
          end
    end.

  (** Whether [s.strip()] is empty. *)
Definition blank (s : string) : bool := blank_chars (chars s).

  (** A byte that continues a character of several bytes. *)
Definition is_cont (c : ascii) : bool :=
    let n := nat_of_ascii c in ((128 <=? n) && (n <? 192))%nat.

  (** A string read backwards, without its last character: the bytes that
      continue it and the byte that starts it. *)
Fixpoint drop_point (l : list ascii) : list ascii :=
    match l with
    | [] => []
    | c :: rest => if is_cont c then drop_point rest else rest
    end.

Fixpoint drop_points (n : nat) (l : list ascii) : list ascii :=
    match n with
    | O => l
    | S k => drop_points k (drop_point l)
    end.

  (** [s[:-n]] for a positive [n]: the last [n] characters are cut, all of
      them when there are no more. *)
Definition drop_last (n : nat) (s : string) : string :=
    of_chars (rev (drop_points n (rev (chars s)))).

  (** [s.replace(old, new)] on characters, for a non-empty [old]: the
      occurrences of [old] are found from the left and do not overlap;
      [skip] characters of an occurrence are still to be passed. *)
Fixpoint replace_chars (old new : list ascii) (skip : nat) (l : list ascii)
      : list ascii :=
    match l with
    | [] => []
    | c :: rest =>
        match skip with
        | S k => replace_chars old new k rest
        | O =>
            if bool_decide (old `prefix_of` l)
            then (new ++ replace_chars old new (length old - 1) rest)%list
            else c :: replace_chars old new 0 rest
        end
    end.

Definition replace (s old new : string) : string :=
    of_chars (replace_chars (chars old) (chars new) 0 (chars s)).

End PyStr.

(** ** rename_service.py: the face-based renaming run *)

Module Rename.

  (** [f"closeup({index}){ext}"] *)
Definition closeup_name (index : nat) (ext : string) : string :=
    "closeup(" ++ pretty index ++ ")" ++ ext.

  (** [FaceDetectionProcessor.next_closeup_name]: the [while True] loop,
      run for at most [fuel] indices starting at [index]. *)
Fixpoint next_closeup_from (fuel : nat) (existing_names : gset string)
      (ext : string) (index : nat) : option string :=
    match fuel with
    | O => None
    | S fuel' =>
        let new_name := closeup_name index ext in
        if decide (new_name ∈ existing_names)
        then next_closeup_from fuel' existing_names ext (S index)
        else Some new_name
    end.

  (** One more index than there are names in the set always suffices
      (see [next_closeup_name_total]). *)
Definition next_closeup_name (existing_names : gset string) (ext : string)
      : option string :=
    next_closeup_from (S (size existing_names)) existing_names ext 1.

  (** The image extensions accepted by [process_images]. *)
Definition image_exts : list string :=
    [".png"; ".jpg"; ".jpeg"; ".bmp"; ".tiff"; ".webp"].

  (** [os.walk(input_dir)] as the list of [(root, files)] it yields;
      [image_files] is the list comprehension over it. *)
Definition collect_images (walk : list (string * list string)) : list string :=
    flat_map (fun '(root, files) =>
                map (PyStr.join root)
                    (filter (fun file =>
                       Is_true (PyStr.endswith_any (PyStr.lower file) image_exts))
                       files))
             walk.

  (** One call of [shutil.copy2(img_path, output_path)]. *)
Record copy_call := CopyCall {
    cc_src : string;          (* img_path *)
    cc_new_filename : string; (* new_filename *)
    cc_dst : string;          (* output_path *)
    cc_renamed : bool;        (* renamed *)
    cc_ok : bool              (* the copy did not raise *)
  }.

  (** An entry of [processing_details]. *)
Record detail := Detail {
    d_original_file : string; (* rel_path *)
    d_new_filename : string;
    d_renamed : bool;
    d_face_detected : bool
  }.

  (** The local variables of [process_images], and the copies it made. *)
Record state := State {
    processed_count : nat;
    renamed_count : nat;
    skipped_count : nat;
    errors : list string;
    processing_details : list detail;
    existing_names : gset string;
    copy_calls : list copy_call
  }.

Definition initial : state :=
    {| processed_count := 0; renamed_count := 0; skipped_count := 0;
       errors := []; processing_details := [];
       existing_names := ∅; copy_calls := [] |}.

Section Run.
    (** [is_face_visible_mediapipe]: [None] when it raises. *)
Variable has_valid_face : string -> option bool.
    (** Whether [shutil.copy2 src dst] succeeds. *)
Variable copy2 : string -> string -> bool.
    (** [os.path.relpath(img_path, input_dir)] *)
Variable relpath : string -> string.
    (** [str(e)] of the exception that processing [img_path] raises. *)
Variable failure : string -> string.
Variable output_dir : string.

    (** [f"Error processing {img_path}: {str(e)}"] *)
Definition error_msg (img_path : string) : string :=
      "Error processing " ++ img_path ++ ": " ++ failure img_path.

    (** The body of the [for img_path in image_files] loop. *)
Definition process_one (st : state) (img_path : string) : state :=
      let rel_path := relpath img_path in
      let filename := PyStr.basename img_path in
      let ext := snd (PyStr.splitext filename) in
      match has_valid_face img_path with
      | None =>
          (* except Exception: errors.append(...); continue *)
          {| processed_count := processed_count st;
             renamed_count := renamed_count st;
             skipped_count := skipped_count st;
             errors := errors st ++ [error_msg img_path];
             processing_details := processing_details st;
             existing_names := existing_names st;
             copy_calls := copy_calls st |}
      | Some has_face =>
          let chosen :=
            if has_face then Some (filename, existing_names st)
            else match next_closeup_name (existing_names st) ext with
                 | Some n => Some (n, {[ n ]} ∪ existing_names st)
                 | None => None
                 end in
          match chosen with
          | None => st (* unreachable: see [next_closeup_name_total] *)
          | Some (new_filename, names) =>
              let renamed := negb has_face in
              let output_path := PyStr.join output_dir new_filename in
              let ok := copy2 img_path output_path in
              let call := CopyCall img_path new_filename output_path renamed ok in
              if ok then
                {| processed_count := S (processed_count st);
                   renamed_count :=
                     if renamed then S (renamed_count st) else renamed_count st;
                   skipped_count :=
                     if renamed then skipped_count st else S (skipped_count st);
                   errors := errors st;
                   processing_details :=
                     processing_details st
                       ++ [Detail rel_path new_filename renamed has_face];
                   existing_names := names;
                   copy_calls := copy_calls st ++ [call] |}
              else
                {| processed_count := processed_count st;
                   renamed_count := renamed_count st;
                   skipped_count := skipped_count st;
                   errors := errors st ++ [error_msg img_path];
                   processing_details := processing_details st;
                   existing_names := names;
                   copy_calls := copy_calls st ++ [call] |}
          end
      end.

Definition process_from (st : state) (image_files : list string) : state :=
      fold_left process_one image_files st.

    (** [FaceDetectionProcessor.process_images] *)
Definition process_images (walk : list (string * list string)) : state :=
      process_from initial (collect_images walk).
End Run.

  (** The closeup names handed out by a sequence of copies, in order. *)
Definition generated (calls : list copy_call) : list string :=
    map cc_new_filename (filter (fun c => Is_true (cc_renamed c)) calls).

  (** The names kept for images with a face. *)
Definition kept (calls : list copy_call) : list string :=
    map cc_new_filename (filter (fun c => ¬ Is_true (cc_renamed c)) calls).

End Rename.

(** ** Python values *)

(** A parsed JSON document, as [json.load] / [response.json()] return it.
    [JObj] lists the items of the dict in insertion order; numbers are
    integers. *)
#[local] Unset Elimination Schemes.
Inductive json :=
| JNull
| JBool (b : bool)
| JNum (z : Z)
| JStr (s : string)
| JArr (xs : list json)
| JObj (items : list (string * json)).
#[local] Set Elimination Schemes.

(** The exceptions the modelled code can raise. *)
Inductive batch_failure :=
| BackgroundUploadFailed
| NoStyleReferenced
| MissingStyles (names : list string)
| StyleUploadsFailed (names : list string)
| NoMatchingPairs
| NoImageProcessed.

Inductive exn :=
| HTTPException (status_code : Z)
| RequestException        (* requests: connection error, timeout, HTTPError, bad JSON *)
| KeyError
| IndexError
| TypeError
| AttributeError
| ValueError
| OSError
| BatchError (why : batch_failure).   (* [raise Exception(error_msg)] *)

Inductive result (A : Type) :=
| Ok (a : A)
| Raise (e : exn).
Arguments Ok {A} a.
Arguments Raise {A} e.

Definition rbind {A B} (r : result A) (k : A -> result B) : result B :=
  match r with
  | Ok a => k a
  | Raise e => Raise e
  end.

Module Py.

(** [bool(v)] *)
Definition truthy (v : json) : bool :=
  match v with
  | JNull => false
  | JBool b => b
  | JNum z => negb (z =? 0)
  | JStr s => negb (String.eqb s "")
  | JArr xs => match xs with [] => false | _ => true end
  | JObj items => match items with [] => false | _ => true end
  end.

(** [d.get(k)] on the items of a dict: [None] when the key is missing. *)
Fixpoint dict_get {V} (k : string) (items : list (string * V)) : option V :=
  match items with
  | [] => None
  | (k', v) :: rest => if String.eqb k k' then Some v else dict_get k rest
  end.

(** [d[k] = v] on the items of a dict: an existing key keeps its place,
    a new key goes last. *)
Fixpoint dict_set {V} (k : string) (v : V) (items : list (string * V))
    : list (string * V) :=
  match items with
  | [] => [(k, v)]
  | (k', v') :: rest =>
      if String.eqb k k' then (k', v) :: rest else (k', v') :: dict_set k v rest
  end.

(** [a == b] on parsed JSON ([True == 1] and [False == 0] as in Python). *)
Fixpoint eqb (a b : json) {struct a} : bool :=
  match a, b with
  | JNull, JNull => true
  | JBool x, JBool y => Bool.eqb x y
  | JBool x, JNum z | JNum z, JBool x => z =? (if x then 1 else 0)
  | JNum x, JNum y => x =? y
  | JStr x, JStr y => String.eqb x y
  | JArr xs, JArr ys =>
      (fix go (xs ys : list json) : bool :=
         match xs, ys with
         | [], [] => true
         | x :: xs', y :: ys' => eqb x y && go xs' ys'
         | _, _ => false
         end) xs ys
  | JObj xs, JObj ys =>
      (Nat.eqb (length xs) (length ys)) &&
      (fix go (xs : list (string * json)) : bool :=
         match xs with
         | [] => true
         | (k, x) :: xs' =>
             match dict_get k ys with
             | Some y => eqb x y && go xs'
             | None => false
             end
         end) xs
  | _, _ => false
  end.

(** [x in c] *)
Definition contains (c x : json) : result bool :=
  match c with
  | JObj items =>
      match x with
      | JStr k => Ok (match dict_get k items with Some _ => true | None => false end)
      | JArr _ | JObj _ => Raise TypeError          (* unhashable *)
      | _ => Ok false                               (* the keys are strings *)
      end
  | JArr xs => Ok (existsb (eqb x) xs)
  | JStr s =>
      match x with
      | JStr n => Ok (PyStr.contains s n)
      | _ => Raise TypeError
      end
  | _ => Raise TypeError                            (* not iterable *)
  end.

(** The position an index value denotes in a sequence of length [n]. *)
Definition seq_index (k : json) (n : nat) : result nat :=
  match k with
  | JNum _ | JBool _ =>
      let z := match k with JNum z => z | JBool true => 1 | _ => 0 end in
      let i := if z <? 0 then z + Z.of_nat n else z in
      if (0 <=? i) && (i <? Z.of_nat n) then Ok (Z.to_nat i) else Raise IndexError
  | _ => Raise TypeError
  end.

(** [c[k]] *)
Definition getitem (c k : json) : result json :=
  match c with
  | JObj items =>
      match k with
      | JStr s => match dict_get s items with Some v => Ok v | None => Raise KeyError end
      | JArr _ | JObj _ => Raise TypeError
      | _ => Raise KeyError
      end
  | JArr xs =>
      rbind (seq_index k (length xs)) (fun i =>
        match xs !! i with Some v => Ok v | None => Raise IndexError end)
  | JStr s =>
      rbind (seq_index k (length (PyStr.chars s))) (fun i =>
        match PyStr.chars s !! i with
        | Some ch => Ok (JStr (String ch ""))
        | None => Raise IndexError
        end)
  | _ => Raise TypeError                            (* not subscriptable *)
  end.

(** [c.get(k, default)]: only a dict has [get]. *)
Definition get (c : json) (k : string) (default : json) : result json :=
  match c with
  | JObj items => Ok (match dict_get k items with Some v => v | None => default end)
  | _ => Raise AttributeError
  end.

(** [c.items()] *)
Definition items (c : json) : result (list (string * json)) :=
  match c with
  | JObj items => Ok items
  | _ => Raise AttributeError
  end.

(** [c.values()] *)
Definition values (c : json) : result (list json) :=
  match c with
  | JObj items => Ok (map snd items)
  | _ => Raise AttributeError
  end.

(** [isinstance(v, dict)] *)
Definition is_dict (v : json) : bool :=
  match v with JObj _ => true | _ => false end.

(** [len(v)] *)
Definition len (v : json) : result nat :=
  match v with
  | JStr s => Ok (length (PyStr.chars s))
  | JArr xs => Ok (length xs)
  | JObj items => Ok (length items)
  | _ => Raise TypeError
  end.

(** The elements of [v[:n]] *)
Definition slice_to (n : nat) (v : json) : result (list json) :=
  match v with
  | JArr xs => Ok (take n xs)
  | JStr s => Ok (map (fun ch => JStr (String ch "")) (take n (PyStr.chars s)))
  | _ => Raise TypeError
  end.

(** Whether [hash(v)] is defined. *)
Definition hashable (v : json) : bool :=
  match v with JArr _ | JObj _ => false | _ => true end.

(** [s.add(x)] on a set kept in insertion order. *)
Definition set_add (x : json) (s : list json) : list json :=
  if existsb (eqb x) s then s else (s ++ [x])%list.

(** [d.get(k)] for a dict whose keys are hashable values. *)
Fixpoint assoc_get {V} (k : json) (d : list (json * V)) : option V :=
  match d with
  | [] => None
  | (k', v) :: rest => if eqb k k' then Some v else assoc_get k rest
  end.

(** [d[k] = v] for such a dict. *)
Fixpoint assoc_set {V} (k : json) (v : V) (d : list (json * V)) : list (json * V) :=
  match d with
  | [] => [(k, v)]
  | (k', v') :: rest =>
      if eqb k k' then (k', v) :: rest else (k', v') :: assoc_set k v rest
  end.

End Py.

(** ** Mutable Python objects *)

(** A Python value that may be shared: containers are held by reference. *)
Inductive pval :=
| PNone
| PBool (b : bool)
| PInt (z : Z)
| PStr (s : string)
| PRef (l : nat).

(** A container object in the store. *)
Inductive pobj :=
| PDict (items : list (string * pval))
| PList (xs : list pval).

Module Obj.

(** [json.loads]: builds fresh objects at the end of the store, the children
    of a container before the container itself. *)
Fixpoint loads (j : json) (h : list pobj) {struct j} : list pobj * pval :=
  match j with
  | JNull => (h, PNone)
  | JBool b => (h, PBool b)
  | JNum z => (h, PInt z)
  | JStr s => (h, PStr s)
  | JArr xs =>
      let '(h1, vs) :=
        (fix go (xs : list json) (h : list pobj) : list pobj * list pval :=
           match xs with
           | [] => (h, [])
           | x :: xs' =>
               let '(h1, v) := loads x h in
               let '(h2, vs) := go xs' h1 in
               (h2, v :: vs)
           end) xs h in
      ((h1 ++ [PList vs])%list, PRef (length h1))
  | JObj items =>
      let '(h1, kvs) :=
        (fix go (items : list (string * json)) (h : list pobj)
             : list pobj * list (string * pval) :=
           match items with
           | [] => (h, [])
           | (k, x) :: items' =>
               let '(h1, v) := loads x h in
               let '(h2, kvs) := go items' h1 in
               (h2, (k, v) :: kvs)
           end) items h in
      ((h1 ++ [PDict kvs])%list, PRef (length h1))
  end.

(** [json.dumps] followed by parsing: the document a value stands for.
    [fuel] bounds the nesting depth. *)
Fixpoint dumps_fuel (fuel : nat) (h : list pobj) (v : pval) : option json :=
  match v with
  | PNone => Some JNull
  | PBool b => Some (JBool b)
  | PInt z => Some (JNum z)
  | PStr s => Some (JStr s)
  | PRef l =>
      match fuel with
      | O => None
      | S fuel' =>
          match h !! l with
          | Some (PList xs) => JArr <$> mapM (dumps_fuel fuel' h) xs
          | Some (PDict items) =>
              JObj <$> mapM (fun kv => pair (fst kv) <$> dumps_fuel fuel' h (snd kv))
                            items
          | None => None
          end
      end
  end.

(** A chain of references longer than the store revisits an object:
    [json.dumps] raises [ValueError] (circular reference) exactly when the
    fuel below runs out. *)
Definition dumps (h : list pobj) (v : pval) : result json :=
  match dumps_fuel (S (length h)) h v with
  | Some j => Ok j
  | None => Raise ValueError
  end.

(** [bool(v)] *)
Definition truthy (h : list pobj) (v : pval) : bool :=
  match v with
  | PNone => false
  | PBool b => b
  | PInt z => negb (z =? 0)
  | PStr s => negb (String.eqb s "")
  | PRef l =>
      match h !! l with
      | Some (PDict []) | Some (PList []) | None => false
      | Some _ => true
      end
  end.

(** [k in c] for a string [k] *)
Definition contains (h : list pobj) (c : pval) (k : string) : result bool :=
  match c with
  | PStr s => Ok (PyStr.contains s k)
  | PRef l =>
      match h !! l with
      | Some (PDict items) =>
          Ok (match Py.dict_get k items with Some _ => true | None => false end)
      | Some (PList xs) =>
          Ok (existsb (fun x => match x with PStr s => String.eqb s k | _ => false end) xs)
      | None => Raise TypeError
      end
  | _ => Raise TypeError
  end.

(** [c[k]] for a string [k] *)
Definition getitem (h : list pobj) (c : pval) (k : string) : result pval :=
  match c with
  | PRef l =>
      match h !! l with
      | Some (PDict items) =>
          match Py.dict_get k items with
          | Some v => Ok v
          | None => Raise KeyError
          end
      | _ => Raise TypeError     (* list indices must be integers *)
      end
  | _ => Raise TypeError         (* str indices, None, numbers *)
  end.

(** [c[k] = v] for a string [k] *)
Definition setitem (h : list pobj) (c : pval) (k : string) (v : pval)
    : result (list pobj) :=
  match c with
  | PRef l =>
      match h !! l with
      | Some (PDict items) => Ok (<[l := PDict (Py.dict_set k v items)]> h)
      | _ => Raise TypeError
      end
  | _ => Raise TypeError
  end.

(** [c.get(k)]: only a dict has [get]. *)
Definition get (h : list pobj) (c : pval) (k : string) : result pval :=
  match c with
  | PRef l =>
      match h !! l with
      | Some (PDict items) =>
          Ok (match Py.dict_get k items with Some v => v | None => PNone end)
      | _ => Raise AttributeError
      end
  | _ => Raise AttributeError
  end.

(** [c.setdefault(k, {})]: the value under [k], after binding a new empty
    dict to it when the key is missing. *)
Definition setdefault_dict (h : list pobj) (c : pval) (k : string)
    : result (list pobj * pval) :=
  match c with
  | PRef l =>
      match h !! l with
      | Some (PDict items) =>
          match Py.dict_get k items with
          | Some v => Ok (h, v)
          | None =>
              let fresh := length h in
              Ok (<[l := PDict (Py.dict_set k (PRef fresh) items)]> (h ++ [PDict []])%list,
                  PRef fresh)
          end
      | _ => Raise AttributeError
      end
  | _ => Raise AttributeError
  end.

End Obj.

(** ** The world: engine, clock, log, files *)

(** A request sent to the render engine. *)
Inductive request :=
| PostUpload (filename : string) (content : string)  (* POST /upload/image *)
| PostPrompt (graph : json)                          (* POST /prompt *)
| GetHistory (prompt_id : json)                      (* GET /history/{id} *)
| GetView (filename subfolder type_ : json).         (* GET /view *)

(** What [requests] hands back. *)
Inductive response :=
| NoResponse                          (* connection error or timeout *)
| Response (status_code : Z) (body : option json) (content : string).

Inductive level := DEBUG | INFO | WARNING | ERROR.

(** The logger calls that name a failure or an item; purely informative
    messages are not recorded. *)
Inductive event :=
(* uploads *)
| UploadAttemptFailed (attempt : nat)
| AllUploadAttemptsFailed (name : string)
| ImageFileNotFound (path : string)
| Uploaded (path : string) (uploaded_filename : json)
(* submission and polling *)
| NoPromptId
| SubmitFailed
| PollReturnedStatus (poll_count : nat) (status : Z)
| ResultsReceived (poll_count : nat)
| TimedOut (poll_count : nat)
| PromptCompleted (prompt_id : json)
| HistoryFailed (attempt : nat)
| PollingTimeout (prompt_id : json)
| NoCompletionStatus (prompt_id : json)
(* output resolution and download *)
| NoOutputImages
| NoImagesInNode15 (prompt_id : json)
| UsingFallbackNode (node_id : string)
| NoImagesInAnyNode (prompt_id : json)
| DownloadedVariant (n : nat) (variant_path : string)
| VariantFailed (n : nat)
| DownloadedVariants (downloaded_count : nat)
| NoVariantDownloaded
| DownloadFailed
(* the job graph *)
| InputNodeNotFound (node_id : string)
| UpdatedNode (node_id : string) (value : json)
| UpdateWorkflowFailed
(* the masking batch *)
| WorkflowJsonUnreadable
| InvalidZip
| NoImagesInZip
| ZipEntryUnreadable (filename : string)
| ProcessingImage (i : nat) (filename : string)
| ImageProcessed (i : nat) (filename : string)
| ImageFailed (filename : string)
| NoImageProcessedFromZip
(* the background-replace batch *)
| StyleFolderNotFound
| StyleMatched (style : string) (file : string)
| StyleNotMatched (style : json)
| StyleUploaded (style : json)
| StyleUploadFailed (style : json)
| BatchAborted (why : exn)
| FoundMatchingPair (image_file mask_file : string)
| NoMaskFound (image_file : string)
| StyleNotFoundUsingFirst (style : json)
| ProcessingPair (n : nat) (image_file mask_file : string)
| PairUploadFailed (input_path : string)
| PairUpdateFailed (image_file : string)
| PairSubmitFailed (image_file : string)
| PairProcessed (image_file : string)
| PairDownloadFailed (image_file : string)
| PairError (image_file : string)
| ProcessingCompleted (successful_images failed_images : nat).

(** One entry of a zip archive, as the directory of the archive lists it. *)
Record zip_entry := ZipEntry {
  ze_orig_filename : string;  (* the name the archive gives *)
  ze_data : option string     (* the bytes of the entry; [None]: reading it raises *)
}.

(** [ZipInfo.__init__]: a file name ends before its first null byte. *)
Fixpoint before_nul (l : list ascii) : list ascii :=
  match l with
  | [] => []
  | c :: rest => if decide (c = Ascii.zero) then [] else c :: before_nul rest
  end.

Definition zipinfo_name (filename : string) : string :=
  PyStr.of_chars (before_nul (PyStr.chars filename)).

(** [file_info.filename] *)
Definition ze_filename (e : zip_entry) : string :=
  zipinfo_name (ze_orig_filename e).

(** Everything outside the program.  The engine answers a request knowing
    all the requests made before it. *)
Record Env := {
  engine : list request -> request -> response;
  latency : list request -> request -> N;          (* ms taken by a request *)
  path_exists : string -> bool;                    (* os.path.exists *)
  read_file : string -> option string;             (* open(p, 'rb').read() *)
  load_json : string -> option json;               (* json.load(open(p)) *)
  listdir : string -> option (list string);        (* os.listdir *)
  walk : string -> list (string * list string);    (* os.walk: (root, files) *)
  can_write : string -> bool;                      (* open(p, 'wb') succeeds *)
  unzip : string -> option (list zip_entry);       (* zipfile.ZipFile(bytes) *)
  hash_order : json -> nat;                        (* iteration order of a set *)
  str_lower : string -> string                     (* str.lower *)
}.

Record World := {
  now : Z;                            (* time.time(), in ms *)
  heap : list pobj;                   (* the mutable objects *)
  trace : list request;               (* requests made, oldest first *)
  log : list (level * event);         (* logger calls, oldest first *)
  files : list (string * string)      (* files written, oldest first *)
}.

(** Computations that read and change the world and may raise. *)
Definition M (A : Type) : Type := World -> result A * World.

Definition ret {A} (a : A) : M A := fun w => (Ok a, w).
Definition raise {A} (e : exn) : M A := fun w => (Raise e, w).
Definition bind {A B} (m : M A) (k : A -> M B) : M B :=
  fun w => match m w with
           | (Ok a, w') => k a w'
           | (Raise e, w') => (Raise e, w')
           end.
(** [try: m except Exception as e: handler e] *)
Definition try_except {A} (m : M A) (handler : exn -> M A) : M A :=
  fun w => match m w with
           | (Ok a, w') => (Ok a, w')
           | (Raise e, w') => handler e w'
           end.
(** A pure computation that may raise. *)
Definition lift {A} (r : result A) : M A := fun w => (r, w).

Declare Scope m_scope.
Delimit Scope m_scope with M.
Notation "x <- m ;; k" := (bind m (fun x => k))
  (at level 100, m at next level, right associativity) : m_scope.
Notation "m ;;; k" := (bind m (fun _ => k))
  (at level 100, right associativity) : m_scope.
Local Open Scope m_scope.

(** [logger.<lvl>(...)] *)
Definition logm (lvl : level) (ev : event) : M unit :=
  fun w => (Ok tt, {| now := now w; heap := heap w; trace := trace w;
                      log := (log w ++ [(lvl, ev)])%list; files := files w |}).

(** [time.time()] *)
Definition time : M Z := fun w => (Ok (now w), w).

(** [time.sleep(d)] *)
Definition sleep (d : Z) : M unit :=
  fun w => if d <? 0 then (Raise ValueError, w)
           else (Ok tt, {| now := now w + d; heap := heap w; trace := trace w;
                           log := log w; files := files w |}).

(** An HTTP round trip. *)
Definition http (env : Env) (rq : request) : M response :=
  fun w => (Ok (engine env (trace w) rq),
            {| now := now w + Z.of_N (latency env (trace w) rq);
               heap := heap w; trace := (trace w ++ [rq])%list;
               log := log w; files := files w |}).

(** [response.raise_for_status()] *)
Definition raise_for_status (status_code : Z) : result unit :=
  if (400 <=? status_code) && (status_code <? 600)
  then Raise RequestException else Ok tt.

(** [with open(path, 'wb') as f: f.write(content)] *)
Definition write_file (env : Env) (path content : string) : M unit :=
  fun w => if can_write env path
           then (Ok tt, {| now := now w; heap := heap w; trace := trace w;
                           log := log w; files := (files w ++ [(path, content)])%list |})
           else (Raise OSError, w).

(** Reading and replacing the store. *)
Definition get_heap : M (list pobj) := fun w => (Ok (heap w), w).
Definition put_heap (h : list pobj) : M unit :=
  fun w => (Ok tt, {| now := now w; heap := h; trace := trace w;
                      log := log w; files := files w |}).

(** [json.loads(text)] of a document already parsed: fresh objects. *)
Definition alloc (j : json) : M pval :=
  fun w => let '(h, v) := Obj.loads j (heap w) in
           (Ok v, {| now := now w; heap := h; trace := trace w;
                     log := log w; files := files w |}).

(** [json.dumps(v)], parsed. *)
Definition serialise (v : pval) : M json :=
  fun w => (Obj.dumps (heap w) v, w).

(** Computations that may also fail to terminate within their fuel. *)
Definition MF (A : Type) : Type := World -> option (result A * World).

Definition total {A} (m : M A) : MF A := fun w => Some (m w).
Definition bindF {A B} (m : MF A) (k : A -> MF B) : MF B :=
  fun w => match m w with
           | Some (Ok a, w') => k a w'
           | Some (Raise e, w') => Some (Raise e, w')
           | None => None
           end.
Definition try_exceptF {A} (m : MF A) (handler : exn -> MF A) : MF A :=
  fun w => match m w with
           | Some (Ok a, w') => Some (Ok a, w')
           | Some (Raise e, w') => handler e w'
           | None => None
           end.

(** ** mask_service.py *)

Module Mask.

(** The configuration read from the process environment.  Durations are
    in milliseconds. *)
Record Config := {
  WORKFLOW_JSON : string;
  INPUT_NODE_ID : string;
  INPUT_NODE_ID_is_int : bool;     (* whether [int(INPUT_NODE_ID)] succeeds *)
  OUTPUT_NODE_ID : string;
  POLL_INTERVAL_S : Z;
  POLL_TIMEOUT_S : Z;
  MAX_RETRIES : Z
}.

(** What [process_image] returns next to the file name. *)
Inductive payload :=
| ImageBytes (content : string)
| ZipOf (entries : list (string * string)).

(** The loop of [_pick_comfy_url] over the three candidates: the first one
    that is given and not blank. *)
Fixpoint first_url (urls : list (option string)) : option string :=
  match urls with
  | [] => None
  | Some url :: rest =>
      if negb (String.eqb url "") && negb (PyStr.blank url) then Some url
      else first_url rest
  | None :: rest => first_url rest
  end.

(** [_pick_comfy_url]: the form field, then the header, then the query
    parameter; the one picked gets exactly one trailing slash.  The log
    lines are left out. *)
Definition _pick_comfy_url (form_url header_url query_url : option string)
    : result string :=
  match first_url [form_url; header_url; query_url] with
  | Some url => Ok (PyStr.of_chars (PyStr.rstrip_slash (PyStr.chars url)) ++ "/")
  | None => Raise (HTTPException 400)
  end.

Section WithEnv.
Variable env : Env.
Variable cfg : Config.

(** The retry loop of [_upload_to_comfy]. *)
Fixpoint upload_attempts (stamped content original_name : string)
    (attempts : list nat) : M string :=
  match attempts with
  | [] =>
      logm ERROR (AllUploadAttemptsFailed original_name) ;;;
      raise (HTTPException 502)
  | attempt :: rest =>
      sent <- try_except
        (r <- http env (PostUpload stamped content) ;;
         match r with
         | NoResponse => raise RequestException
         | Response status_code _ _ =>
             lift (raise_for_status status_code) ;;; ret true
         end)
        (fun _ =>
           logm WARNING (UploadAttemptFailed (S attempt)) ;;;
           (if Z.of_nat attempt <? MAX_RETRIES cfg - 1 then sleep 2000 else ret tt) ;;;
           ret false) ;;
      if sent then ret stamped
      else upload_attempts stamped content original_name rest
  end.

(** [_upload_to_comfy] *)
Definition _upload_to_comfy (img_bytes original_name : string) : M string :=
  t <- time ;;
  let stamped := pretty t ++ "_" ++ original_name in
  upload_attempts stamped img_bytes original_name
    (seq 0 (Z.to_nat (MAX_RETRIES cfg))).

(** [_queue_prompt] *)
Definition _queue_prompt (graph : pval) : M json :=
  g <- serialise graph ;;
  r <- http env (PostPrompt g) ;;
  match r with
  | NoResponse => raise RequestException
  | Response status_code body _ =>
      lift (raise_for_status status_code) ;;;
      match body with
      | None => raise RequestException
      | Some b =>
          pid <- lift (Py.get b "prompt_id" JNull) ;;
          if Py.truthy pid then ret pid
          else logm ERROR NoPromptId ;;; raise (HTTPException 500)
      end
  end.

(** The search [for _, v in outputs.items(): if v.get("images"): ...]. *)
Fixpoint first_with_images (items : list (string * json)) (node : json)
    : result json :=
  match items with
  | [] => Ok node
  | (_, v) :: rest =>
      rbind (Py.get v "images" JNull) (fun imgs =>
        if Py.truthy imgs then Ok v else first_with_images rest node)
  end.

(** The output node both [_poll_history] and [_fetch_first_image] settle
    on: [outputs.get(OUTPUT_NODE_ID)], and when that is falsy the first
    node with images. *)
Definition resolve_node (outputs : json) : result json :=
  rbind (Py.get outputs (OUTPUT_NODE_ID cfg) JNull) (fun node =>
    if Py.truthy node then Ok node
    else rbind (Py.items outputs) (fun items => first_with_images items node)).

(** The test of one poll on a 200 answer: whether [hist] is returned. *)
Definition history_ready (prompt_id hist : json) : result bool :=
  if negb (Py.truthy hist) then Ok false
  else
    rbind (Py.contains hist prompt_id) (fun present =>
      if negb present then Ok false
      else
        rbind (Py.getitem hist prompt_id) (fun entry =>
        rbind (Py.get entry "outputs" (JObj [])) (fun outputs =>
        rbind (resolve_node outputs) (fun node =>
          if negb (Py.truthy node) then Ok false
          else rbind (Py.get node "images" JNull) (fun imgs =>
                 Ok (Py.truthy imgs)))))).

(** The [while time.time() < deadline] loop of [_poll_history]. *)
Fixpoint poll_loop (fuel : nat) (prompt_id : json) (deadline : Z)
    (poll_count : nat) : MF json :=
  match fuel with
  | O => fun _ => None
  | S fuel' =>
      bindF (total time) (fun t =>
      if t <? deadline then
        let poll_count := S poll_count in
        bindF (total (http env (GetHistory prompt_id))) (fun r =>
        bindF (total
          match r with
          | NoResponse => raise RequestException
          | Response status_code body _ =>
              if status_code =? 200 then
                match body with
                | None => raise RequestException
                | Some hist =>
                    ready <- lift (history_ready prompt_id hist) ;;
                    if ready
                    then logm INFO (ResultsReceived poll_count) ;;; ret (Some hist)
                    else ret None
                end
              else
                logm WARNING (PollReturnedStatus poll_count status_code) ;;;
                ret None
          end) (fun found =>
        match found with
        | Some hist => total (ret hist)
        | None =>
            bindF (total (sleep (POLL_INTERVAL_S cfg))) (fun _ =>
            poll_loop fuel' prompt_id deadline poll_count)
        end))
      else
        total (logm ERROR (TimedOut poll_count) ;;; raise (HTTPException 504)))
  end.

(** [_poll_history] *)
Definition _poll_history (fuel : nat) (prompt_id : json) : MF json :=
  bindF (total time) (fun t =>
  poll_loop fuel prompt_id (t + POLL_TIMEOUT_S cfg) 0).

(** [_fetch_first_image] *)
Definition _fetch_first_image (history prompt_id : json) : M string :=
  entry <- lift (Py.getitem history prompt_id) ;;
  outputs <- lift (Py.getitem entry (JStr "outputs")) ;;
  node <- lift (resolve_node outputs) ;;
  imgs <- (if Py.truthy node then lift (Py.get node "images" JNull) else ret JNull) ;;
  if negb (Py.truthy imgs) then
    logm ERROR NoOutputImages ;;; raise (HTTPException 500)
  else
    images <- lift (Py.getitem node (JStr "images")) ;;
    info <- lift (Py.getitem images (JNum 0)) ;;
    _ <- lift (Py.get info "filename" (JStr "unknown")) ;;
    filename <- lift (Py.getitem info (JStr "filename")) ;;
    subfolder <- lift (Py.get info "subfolder" (JStr "")) ;;
    type_ <- lift (Py.get info "type" (JStr "output")) ;;
    r <- http env (GetView filename subfolder type_) ;;
    match r with
    | NoResponse => raise RequestException
    | Response status_code _ content =>
        lift (raise_for_status status_code) ;;; ret content
    end.

(** The statements of [_process_single_image] that stamp the graph:
    [node = graph.get(ID) or graph.get(int(ID))], the check, and
    [node.setdefault("inputs", {})["image"] = comfy_name]. *)
Definition set_input_image (graph : pval) (comfy_name : string) : M unit :=
  h <- get_heap ;;
  first <- lift (Obj.get h graph (INPUT_NODE_ID cfg)) ;;
  node <- (if Obj.truthy h first then ret first
           else if INPUT_NODE_ID_is_int cfg
                then ret PNone       (* no integer key in a parsed document *)
                else raise ValueError) ;;
  if negb (Obj.truthy h node) then
    logm ERROR (InputNodeNotFound (INPUT_NODE_ID cfg)) ;;;
    raise (HTTPException 500)
  else
    hv <- lift (Obj.setdefault_dict h node "inputs") ;;
    h' <- lift (Obj.setitem (fst hv) (snd hv) "image" (PStr comfy_name)) ;;
    put_heap h'.

(** [_process_single_image] *)
Definition _process_single_image (fuel : nat) (img_bytes original_name : string)
    (graph : pval) : MF (string * string) :=
  bindF (total (_upload_to_comfy img_bytes original_name)) (fun comfy_name =>
  bindF (total (set_input_image graph comfy_name)) (fun _ =>
  bindF (total (_queue_prompt graph)) (fun pid =>
  bindF (_poll_history fuel pid) (fun history =>
  bindF (total (_fetch_first_image history pid)) (fun out_bytes =>
  total (ret (original_name, out_bytes))))))).

(** [_is_zip_file] *)
Definition _is_zip_file (filename : string) : bool :=
  PyStr.endswith (PyStr.lower filename) ".zip".

Definition image_exts : list string :=
  [".png"; ".jpg"; ".jpeg"; ".bmp"; ".tiff"; ".webp"].

(** [ZipInfo.is_dir] as Python 3.11 has it: [self.filename[-1] == '/'],
    which raises on an empty name. *)
Definition is_dir (filename : string) : result bool :=
  match rev (PyStr.chars filename) with
  | [] => Raise IndexError
  | c :: _ => Ok (bool_decide (c = PyStr.slash))
  end.

(** [zip_file.read(name)]: the archive files its entries by name, a later
    entry taking the place of an earlier one of the same name; [None] when
    reading that entry raises. *)
Definition zip_read (zip_file : list zip_entry) (name : string) : option string :=
  last (filter (fun e => ze_filename e = name) zip_file) ≫= ze_data.

(** The loop of [_extract_images_from_zip] over [zip_file.filelist]. *)
Fixpoint extract_entries (zip_file entries : list zip_entry)
    : M (list (string * string)) :=
  match entries with
  | [] => ret []
  | file_info :: rest =>
      let filename := ze_filename file_info in
      directory <- lift (is_dir filename) ;;
      if directory : bool then extract_entries zip_file rest
      else if PyStr.endswith_any (PyStr.lower filename) image_exts then
        match zip_read zip_file filename with
        | Some image_bytes =>
            images <- extract_entries zip_file rest ;;
            ret ((filename, image_bytes) :: images)
        | None =>
            logm WARNING (ZipEntryUnreadable filename) ;;;
            extract_entries zip_file rest
        end
      else extract_entries zip_file rest
  end.

(** [_extract_images_from_zip]: whatever is raised while the archive is
    opened or gone through comes out as HTTP 400. *)
Definition _extract_images_from_zip (zip_bytes : string)
    : M (list (string * string)) :=
  match unzip env zip_bytes with
  | None => logm ERROR InvalidZip ;;; raise (HTTPException 400)
  | Some entries =>
      images <- try_except (extract_entries entries entries)
                  (fun _ => logm ERROR InvalidZip ;;; raise (HTTPException 400)) ;;
      match images with
      | [] => logm ERROR NoImagesInZip ;;; raise (HTTPException 400)
      | _ => ret images
      end
  end.

(** [zip_file.writestr(name, data)] of Python 3.11: the entry is named by
    [ZipInfo(name)], and the test [zinfo.filename[-1] == '/'] raises on an
    empty name. *)
Definition writestr (name data : string) : result (string * string) :=
  let filename := zipinfo_name name in
  rbind (is_dir filename) (fun _ => Ok (filename, data)).

(** The loop of [_create_zip_response]: the entries written so far. *)
Fixpoint write_entries (processed_images : list (string * string))
    : result (list (string * string)) :=
  match processed_images with
  | [] => Ok []
  | (filename, image_bytes) :: rest =>
      let safe_filename := PyStr.basename filename in
      rbind (writestr safe_filename image_bytes) (fun entry =>
      rbind (write_entries rest) (fun entries => Ok (entry :: entries)))
  end.

(** [_create_zip_response]: the entries of the archive it returns. *)
Definition _create_zip_response (processed_images : list (string * string))
    : result payload :=
  rbind (write_entries processed_images) (fun entries => Ok (ZipOf entries)).

(** The loop of [process_image] over the images of an archive; every image
    gets its own copy of [graph]. *)
Fixpoint process_zip_images (fuel : nat) (graph : pval) (i : nat)
    (images : list (string * string)) : MF (list (string * string)) :=
  match images with
  | [] => total (ret [])
  | (filename, image_bytes) :: rest =>
      bindF (total (logm INFO (ProcessingImage i filename))) (fun _ =>
      bindF
        (try_exceptF
           (bindF (total (g <- serialise graph ;; alloc g)) (fun graph_copy =>
            bindF (_process_single_image fuel image_bytes filename graph_copy)
              (fun result =>
            bindF (total (logm INFO (ImageProcessed i filename))) (fun _ =>
            total (ret (Some result))))))
           (fun _ => total (logm ERROR (ImageFailed filename) ;;; ret None)))
        (fun result =>
      bindF (process_zip_images fuel graph (S i) rest) (fun processed =>
      total (ret (match result with
                  | Some r => r :: processed
                  | None => processed
                  end)))))
  end.

(** [process_image] *)
Definition process_image (fuel : nat) (file_bytes original_name : string)
    : MF (string * payload) :=
  match load_json env (WORKFLOW_JSON cfg) with
  | None =>
      total (logm ERROR WorkflowJsonUnreadable ;;; raise (HTTPException 500))
  | Some template =>
      bindF (total (alloc template)) (fun graph =>
      if _is_zip_file original_name then
        bindF (total (_extract_images_from_zip file_bytes)) (fun images =>
        bindF (process_zip_images fuel graph 1 images) (fun processed_images =>
        match processed_images with
        | [] =>
            total (logm ERROR NoImageProcessedFromZip ;;; raise (HTTPException 500))
        | _ =>
            bindF (total (lift (_create_zip_response processed_images)))
              (fun zip_bytes => total (ret ("zip", zip_bytes)))
        end))
      else
        bindF (_process_single_image fuel file_bytes original_name graph)
          (fun result => total (ret (fst result, ImageBytes (snd result)))))
  end.

End WithEnv.
End Mask.

(** ** workflow_service.py *)

Module Workflow.

Definition workflow_path : string := "Final Workflow n8n Working/Comfi_workflow.json".
Definition background_image_path : string :=
  "Final Workflow n8n Working/WhiteBackground_Template.png".
Definition style_folder : string := "Final Workflow n8n Working/style_images2".

(** Durations are in milliseconds. *)
Definition MAX_RETRIES : nat := 3.
Definition POLLING_TIMEOUT : Z := 500000.
Definition POLLING_INTERVAL : Z := 5000.
Definition RETRY_DELAY : Z := 2000.
(** [POLLING_TIMEOUT // POLLING_INTERVAL] *)
Definition max_attempts : nat := Z.to_nat (POLLING_TIMEOUT / POLLING_INTERVAL).

Definition style_exts : list string := [".png"; ".jpg"; ".jpeg"].
Definition default_prompt_text : string :=
  "Generate a scene with the provided image and style".

Section WithEnv.
Variable env : Env.

(** The [for attempt in range(MAX_RETRIES)] loop of
    [upload_image_with_retry]; [JNull] stands for [None]. *)
Fixpoint upload_loop (image_path : string) (make_unique : bool)
    (attempts : list nat) : M json :=
  match attempts with
  | [] => ret JNull
  | attempt :: rest =>
      outcome <- try_except
        (match read_file env image_path with
         | None => raise OSError
         | Some content =>
             t <- time ;;
             let filename := PyStr.basename image_path in
             let sent_name :=
               if make_unique
               then fst (PyStr.splitext filename) ++ "_" ++ pretty t
                      ++ snd (PyStr.splitext filename)
               else filename in
             r <- http env (PostUpload sent_name content) ;;
             match r with
             | NoResponse => raise RequestException
             | Response status_code body _ =>
                 lift (raise_for_status status_code) ;;;
                 match body with
                 | None => raise RequestException
                 | Some result =>
                     uploaded_filename <- lift (Py.get result "name" (JStr filename)) ;;
                     logm INFO (Uploaded image_path uploaded_filename) ;;;
                     ret (Some uploaded_filename)
                 end
             end
         end)
        (fun _ =>
           logm WARNING (UploadAttemptFailed (S attempt)) ;;;
           if (attempt <? MAX_RETRIES - 1)%nat
           then sleep RETRY_DELAY ;;; ret None
           else logm ERROR (AllUploadAttemptsFailed image_path) ;;; ret (Some JNull)) ;;
      match outcome with
      | Some v => ret v
      | None => upload_loop image_path make_unique rest
      end
  end.

(** [upload_image_with_retry] *)
Definition upload_image_with_retry (image_path : string) (make_unique : bool)
    : M json :=
  if negb (path_exists env image_path) then
    logm ERROR (ImageFileNotFound image_path) ;;; ret JNull
  else upload_loop image_path make_unique (seq 0 MAX_RETRIES).

(** The loop of [get_required_style_images] over [prompts_data.values()]. *)
Fixpoint collect_styles (products : list json) (style_images : list json)
    : result (list json) :=
  match products with
  | [] => Ok style_images
  | product_data :: rest =>
      if Py.is_dict product_data then
        rbind (Py.get product_data "style_image" JNull) (fun style =>
          if Py.truthy style then
            if Py.hashable style
            then collect_styles rest (Py.set_add style style_images)
            else Raise TypeError
          else collect_styles rest style_images)
      else collect_styles rest style_images
  end.

(** [list(s)] for a set [s]: its elements in the order the hashes give. *)
Definition list_of_set (s : list json) : list json :=
  @merge_sort json (fun a b => (hash_order env a <= hash_order env b)%nat)
    (fun a b => decide (hash_order env a <= hash_order env b)%nat) s.

(** [get_required_style_images] *)
Definition get_required_style_images (prompts_data : json) : result (list json) :=
  if negb (Py.truthy prompts_data) then Ok []
  else
    rbind (Py.values prompts_data) (fun products =>
    rbind (collect_styles products []) (fun style_images =>
      Ok (list_of_set style_images))).

(** The score [find_style_file_matches] gives a file for a style name. *)
Definition style_score (style_name name_without_ext : string) : nat :=
  let s := str_lower env style_name in
  let n := str_lower env name_without_ext in
  ((if PyStr.contains n s then 1 else 0)
   + (if PyStr.contains s n then 1 else 0)
   + (if String.eqb s n then 10 else 0))%nat.

(** The inner loop over [style_files]: the best file so far and its score. *)
Fixpoint best_style_file (style_name : json) (style_files : list string)
    (best_match : option string) (best_score : nat)
    : result (option string * nat) :=
  match style_files with
  | [] => Ok (best_match, best_score)
  | file_path :: rest =>
      match style_name with
      | JStr name =>
          let name_without_ext := fst (PyStr.splitext (PyStr.basename file_path)) in
          let score := style_score name name_without_ext in
          if (best_score <? score)%nat
          then best_style_file style_name rest (Some file_path) score
          else best_style_file style_name rest best_match best_score
      | _ => Raise AttributeError        (* no [lower] on a number *)
      end
  end.

(** The files [os.walk(style_folder)] finds with an image extension. *)
Definition style_files_of (walked : list (string * list string)) : list string :=
  flat_map (fun '(root, files) =>
              map (PyStr.join root)
                  (filter (fun file =>
                     Is_true (PyStr.endswith_any (PyStr.lower file) style_exts))
                     files))
           walked.

(** The outer loop of [find_style_file_matches]. *)
Fixpoint match_styles (style_files : list string) (required_styles : list json)
    (style_matches : list (json * string)) : M (list (json * string)) :=
  match required_styles with
  | [] => ret style_matches
  | style_name :: rest =>
      best <- lift (best_style_file style_name style_files None 0) ;;
      match best with
      | (Some best_match, best_score) =>
          if negb (String.eqb best_match "") && (0 <? best_score)%nat then
            logm INFO (StyleMatched
                         (match style_name with JStr s => s | _ => "" end)
                         (PyStr.basename best_match)) ;;;
            match_styles style_files rest
              (Py.assoc_set style_name best_match style_matches)
          else
            logm WARNING (StyleNotMatched style_name) ;;;
            match_styles style_files rest style_matches
      | (None, _) =>
          logm WARNING (StyleNotMatched style_name) ;;;
          match_styles style_files rest style_matches
      end
  end.

(** [find_style_file_matches] *)
Definition find_style_file_matches (required_styles : list json)
    : M (list (json * string)) :=
  if negb (path_exists env style_folder) then
    logm ERROR StyleFolderNotFound ;;; ret []
  else
    match_styles (style_files_of (walk env style_folder)) required_styles [].

(** [updated_workflow[node_id]['inputs'][key] = value] *)
Definition assign (updated_workflow : pval) (node_id key : string) (value : json)
    : M unit :=
  v <- alloc value ;;
  h <- get_heap ;;
  node <- lift (Obj.getitem h updated_workflow node_id) ;;
  inputs <- lift (Obj.getitem h node "inputs") ;;
  h' <- lift (Obj.setitem h inputs key v) ;;
  put_heap h'.

(** [if node_id in updated_workflow: ...] for the four image nodes. *)
Definition assign_if_present (updated_workflow : pval) (node_id key : string)
    (value : json) : M unit :=
  h <- get_heap ;;
  present <- lift (Obj.contains h updated_workflow node_id) ;;
  if present then
    assign updated_workflow node_id key value ;;;
    logm INFO (UpdatedNode node_id value)
  else ret tt.

(** The same for the prompt node, whose log line slices the text. *)
Definition assign_prompt (updated_workflow : pval) (prompt_data : json) : M unit :=
  h <- get_heap ;;
  present <- lift (Obj.contains h updated_workflow "448") ;;
  if present then
    prompt_text <- lift (Py.get prompt_data "text" (JStr default_prompt_text)) ;;
    assign updated_workflow "448" "string" prompt_text ;;;
    _ <- lift (Py.slice_to 50 prompt_text) ;;
    logm INFO (UpdatedNode "448" prompt_text)
  else ret tt.

(** [update_workflow]; [PNone] stands for [None]. *)
Definition update_workflow (workflow : pval)
    (input_filename mask_filename bg_filename style_filename prompt_data : json)
    : M pval :=
  try_except
    (copy <- serialise workflow ;;
     updated_workflow <- alloc copy ;;
     assign_if_present updated_workflow "454" "image" input_filename ;;;
     assign_if_present updated_workflow "439" "image" mask_filename ;;;
     assign_if_present updated_workflow "256" "image" bg_filename ;;;
     assign_if_present updated_workflow "110" "image" style_filename ;;;
     assign_prompt updated_workflow prompt_data ;;;
     ret updated_workflow)
    (fun _ => logm ERROR UpdateWorkflowFailed ;;; ret PNone).

(** [len(workflow)] is defined. *)
Definition has_len (h : list pobj) (v : pval) : result unit :=
  match v with
  | PStr _ => Ok tt
  | PRef l => match h !! l with Some _ => Ok tt | None => Raise TypeError end
  | _ => Raise TypeError
  end.

(** [submit_workflow_to_comfyui]; [JNull] stands for [None]. *)
Definition submit_workflow_to_comfyui (workflow : pval) : M json :=
  try_except
    (h <- get_heap ;;
     lift (has_len h workflow) ;;;
     g <- serialise workflow ;;
     r <- http env (PostPrompt g) ;;
     match r with
     | NoResponse => raise RequestException
     | Response status_code body _ =>
         lift (raise_for_status status_code) ;;;
         match body with
         | None => raise RequestException
         | Some result =>
             prompt_id <- lift (Py.get result "prompt_id" JNull) ;;
             if Py.truthy prompt_id then ret prompt_id
             else logm ERROR NoPromptId ;;; ret JNull
         end
     end)
    (fun _ => logm ERROR SubmitFailed ;;; ret JNull).

(** The polling loop of [download_processed_image]: the history on
    [break], [None] where the function returns [False]. *)
Fixpoint wait_for_history (prompt_id : json) (start_time : Z)
    (attempts : list nat) : M (option json) :=
  match attempts with
  | [] => logm ERROR (NoCompletionStatus prompt_id) ;;; ret None
  | attempt :: rest =>
      found <- try_except
        (r <- http env (GetHistory prompt_id) ;;
         match r with
         | NoResponse => raise RequestException
         | Response status_code body _ =>
             lift (raise_for_status status_code) ;;;
             match body with
             | None => raise RequestException
             | Some history =>
                 present <- lift (Py.contains history prompt_id) ;;
                 if present
                 then logm INFO (PromptCompleted prompt_id) ;;; ret (Some history)
                 else ret None
             end
         end)
        (fun e =>
           match e with
           | RequestException =>
               logm WARNING (HistoryFailed (S attempt)) ;;; ret None
           | _ => raise e
           end) ;;
      match found with
      | Some history => ret (Some history)
      | None =>
          t <- time ;;
          if POLLING_TIMEOUT <=? t - start_time then
            logm ERROR (PollingTimeout prompt_id) ;;; ret None
          else
            sleep POLLING_INTERVAL ;;;
            wait_for_history prompt_id start_time rest
      end
  end.

(** The fallback search over [outputs.items()]. *)
Fixpoint fallback_node (items : list (string * json))
    : result (option (string * json)) :=
  match items with
  | [] => Ok None
  | (node_id, node_output) :: rest =>
      rbind (Py.contains node_output (JStr "images")) (fun has =>
        if has then
          rbind (Py.getitem node_output (JStr "images")) (fun imgs =>
            if Py.truthy imgs then Ok (Some (node_id, node_output))
            else fallback_node rest)
        else fallback_node rest)
  end.

(** [not preview_node or 'images' not in preview_node] *)
Definition lacks_images (preview_node : json) : result bool :=
  if negb (Py.truthy preview_node) then Ok true
  else rbind (Py.contains preview_node (JStr "images")) (fun has => Ok (negb has)).

(** The node [download_processed_image] downloads from: node 15, or the
    fallback; [None] where the function returns [False]. *)
Definition resolve_preview_node (prompt_id history : json) : M (option json) :=
  entry <- lift (Py.getitem history prompt_id) ;;
  outputs <- lift (Py.get entry "outputs" (JObj [])) ;;
  preview_node <- lift (Py.get outputs "15" (JObj [])) ;;
  lacking <- lift (lacks_images preview_node) ;;
  if lacking then
    logm ERROR (NoImagesInNode15 prompt_id) ;;;
    items <- lift (Py.items outputs) ;;
    found <- lift (fallback_node items) ;;
    preview_node <-
      match found with
      | Some (node_id, node_output) =>
          logm WARNING (UsingFallbackNode node_id) ;;; ret node_output
      | None => ret preview_node
      end ;;
    still <- lift (lacks_images preview_node) ;;
    if still then logm ERROR (NoImagesInAnyNode prompt_id) ;;; ret None
    else ret (Some preview_node)
  else ret (Some preview_node).

(** The path a variant is saved under. *)
Definition variant_path (output_path : string) (idx : nat) : string :=
  let base_name := fst (PyStr.splitext (PyStr.basename output_path)) in
  let base_dir := PyStr.dirname output_path in
  let ext := snd (PyStr.splitext output_path) in
  match idx with
  | O => output_path
  | _ => PyStr.join base_dir (base_name ++ "_variant_" ++ pretty (S idx) ++ ext)
  end.

(** The body of the loop over [enumerate(images[:4])]: [true] where
    [downloaded_count] is incremented. *)
Definition download_variant (output_path : string) (idx : nat)
    (image_info : json) : M bool :=
  try_except
    (filename <- lift (Py.getitem image_info (JStr "filename")) ;;
     subfolder <- lift (Py.get image_info "subfolder" (JStr "")) ;;
     type_ <- lift (Py.get image_info "type" (JStr "output")) ;;
     r <- http env (GetView filename subfolder type_) ;;
     match r with
     | NoResponse => raise RequestException
     | Response status_code _ content =>
         lift (raise_for_status status_code) ;;;
         write_file env (variant_path output_path idx) content ;;;
         logm INFO (DownloadedVariant (S idx) (variant_path output_path idx)) ;;;
         ret true
     end)
    (fun _ => logm WARNING (VariantFailed (S idx)) ;;; ret false).

(** The loop over [enumerate(images[:4])]. *)
Fixpoint download_variants (output_path : string) (idx : nat)
    (images : list json) (downloaded_count : nat) : M nat :=
  match images with
  | [] => ret downloaded_count
  | image_info :: rest =>
      ok <- download_variant output_path idx image_info ;;
      download_variants output_path (S idx) rest
        (if ok then S downloaded_count else downloaded_count)
  end.

(** The last part of [download_processed_image]: the variants of the
    resolved node are fetched and saved. *)
Definition download_images (output_path : string) (preview_node : json)
    : M bool :=
  images <- lift (Py.getitem preview_node (JStr "images")) ;;
  _ <- lift (Py.len images) ;;
  first4 <- lift (Py.slice_to 4 images) ;;
  downloaded_count <- download_variants output_path 0 first4 0 ;;
  if (0 <? downloaded_count)%nat
  then logm INFO (DownloadedVariants downloaded_count) ;;; ret true
  else logm ERROR NoVariantDownloaded ;;; ret false.

(** [download_processed_image] *)
Definition download_processed_image (prompt_id : json) (output_path : string)
    : M bool :=
  try_except
    (start_time <- time ;;
     waited <- wait_for_history prompt_id start_time (seq 0 max_attempts) ;;
     match waited with
     | None => ret false
     | Some history =>
         resolved <- resolve_preview_node prompt_id history ;;
         match resolved with
         | None => ret false
         | Some preview_node => download_images output_path preview_node
         end
     end)
    (fun _ => logm ERROR DownloadFailed ;;; ret false).

(** [[f for f in os.listdir(folder) if f.lower().endswith(...)]] *)
Definition list_images (folder : string) : M (list string) :=
  match listdir env folder with
  | None => raise OSError
  | Some names =>
      ret (filter (fun f => Is_true (PyStr.endswith_any (PyStr.lower f) style_exts))
                  names)
  end.

(** Step 5, the pairing loop: an image goes with the mask of the same base
    name, [.jpg] before [.png]. *)
Fixpoint find_pairs (mask_files input_images : list string)
    : M (list (string * string)) :=
  match input_images with
  | [] => ret []
  | image_file :: rest =>
      let image_base := fst (PyStr.splitext image_file) in
      let mask_jpg := image_base ++ ".jpg" in
      let mask_png := image_base ++ ".png" in
      if bool_decide (mask_jpg ∈ mask_files) || bool_decide (mask_png ∈ mask_files)
      then
        let mask_file :=
          if bool_decide (mask_jpg ∈ mask_files) then mask_jpg else mask_png in
        logm INFO (FoundMatchingPair image_file mask_file) ;;;
        pairs <- find_pairs mask_files rest ;;
        ret ((image_file, mask_file) :: pairs)
      else
        logm WARNING (NoMaskFound image_file) ;;;
        find_pairs mask_files rest
  end.

(** Step 4, the loop over [style_file_matches.items()]. *)
Fixpoint upload_styles (matches : list (json * string))
    (style_images : list (json * json)) (upload_failures : list json)
    : M (list (json * json) * list json) :=
  match matches with
  | [] => ret (style_images, upload_failures)
  | (style_name, file_path) :: rest =>
      uploaded_filename <- upload_image_with_retry file_path true ;;
      if Py.truthy uploaded_filename then
        logm INFO (StyleUploaded style_name) ;;;
        upload_styles rest (Py.assoc_set style_name uploaded_filename style_images)
          upload_failures
      else
        logm ERROR (StyleUploadFailed style_name) ;;;
        upload_styles rest style_images (upload_failures ++ [style_name])%list
  end.

(** The names [', '.join(...)] is given: it raises on anything but [str]. *)
Fixpoint joinable (names : list json) : result (list string) :=
  match names with
  | [] => Ok []
  | JStr s :: rest => rbind (joinable rest) (fun l => Ok (s :: l))
  | _ :: _ => Raise TypeError
  end.

(** [[style for style in required_styles if style not in style_file_matches]] *)
Definition missing_styles (required_styles : list json)
    (style_file_matches : list (json * string)) : list json :=
  filter (fun style => Py.assoc_get style style_file_matches = None) required_styles.

(** Steps 1 to 4 of [process_images_api]: the background upload and the
    style uploads every pair relies on. *)
Definition prepare_batch (prompts_data : json) : M (json * list (json * json)) :=
  bg_filename <- upload_image_with_retry background_image_path true ;;
  if negb (Py.truthy bg_filename) then raise (BatchError BackgroundUploadFailed)
  else
    required_styles <- lift (get_required_style_images prompts_data) ;;
    match required_styles with
    | [] => raise (BatchError NoStyleReferenced)
    | _ =>
        style_file_matches <- find_style_file_matches required_styles ;;
        match missing_styles required_styles style_file_matches with
        | (_ :: _) as missing =>
            names <- lift (joinable missing) ;;
            raise (BatchError (MissingStyles names))
        | [] =>
            uploaded <- upload_styles style_file_matches [] [] ;;
            match snd uploaded with
            | (_ :: _) as upload_failures =>
                names <- lift (joinable upload_failures) ;;
                raise (BatchError (StyleUploadsFailed names))
            | [] => ret (bg_filename, fst uploaded)
            end
        end
    end.

(** The default prompt and style: those of the first product. *)
Definition batch_defaults (prompts_data : json) : result (json * json) :=
  let default_prompt := JStr default_prompt_text in
  let default_style := JStr "Urban street" in
  if Py.truthy prompts_data then
    rbind (Py.values prompts_data) (fun products =>
    rbind (Py.getitem (JArr products) (JNum 0)) (fun first_product_data =>
      if Py.is_dict first_product_data then
        rbind (Py.get first_product_data "text" default_prompt) (fun p =>
        rbind (Py.get first_product_data "style_image" default_style) (fun s =>
          Ok (p, s)))
      else Ok (default_prompt, default_style)))
  else Ok (default_prompt, default_style).

(** The uploaded name of the style every pair uses. *)
Definition pick_style (default_style : json) (style_images : list (json * json))
    : M json :=
  if negb (Py.hashable default_style) then raise TypeError
  else
    chosen <-
      match Py.assoc_get default_style style_images with
      | Some _ => ret default_style
      | None =>
          logm WARNING (StyleNotFoundUsingFirst default_style) ;;;
          ret (match style_images with
               | (k, _) :: _ => k
               | [] => JStr "Urban street"
               end)
      end ;;
    match Py.assoc_get chosen style_images with
    | Some style_filename => ret style_filename
    | None => raise KeyError
    end.

(** The body of the loop over [matching_pairs], from the two counters as
    they stand before the pair to what they are after it.  Each way out of
    the body adds one to a counter; nothing can raise after a counter was
    changed, so the handler finds them as they were. *)
Definition process_pair (workflow : pval)
    (bg_filename style_filename default_prompt : json)
    (input_folder mask_folder output_dir image_file mask_file : string)
    (successful_images failed_images : nat) : M (nat * nat) :=
  try_except
    (let input_path := PyStr.join input_folder image_file in
     let mask_path := PyStr.join mask_folder mask_file in
     input_filename <- upload_image_with_retry input_path true ;;
     mask_filename <- upload_image_with_retry mask_path true ;;
     if negb (Py.truthy input_filename) || negb (Py.truthy mask_filename) then
       logm ERROR (PairUploadFailed input_path) ;;;
       ret (successful_images, S failed_images)
     else
       let prompt_data := JObj [("text", default_prompt)] in
       updated_workflow <-
         update_workflow workflow input_filename mask_filename bg_filename
           style_filename prompt_data ;;
       h <- get_heap ;;
       if negb (Obj.truthy h updated_workflow) then
         logm ERROR (PairUpdateFailed image_file) ;;;
         ret (successful_images, S failed_images)
       else
         prompt_id <- submit_workflow_to_comfyui updated_workflow ;;
         if negb (Py.truthy prompt_id) then
           logm ERROR (PairSubmitFailed image_file) ;;;
           ret (successful_images, S failed_images)
         else
           let output_path := PyStr.join output_dir ("processed_" ++ image_file) in
           ok <- download_processed_image prompt_id output_path ;;
           if ok then
             logm INFO (PairProcessed image_file) ;;;
             ret (S successful_images, failed_images)
           else
             logm ERROR (PairDownloadFailed image_file) ;;;
             ret (successful_images, S failed_images))
    (fun _ =>
       logm ERROR (PairError image_file) ;;;
       ret (successful_images, S failed_images)).

(** The loop over [enumerate(matching_pairs)] with its two counters. *)
Fixpoint process_pairs (workflow : pval)
    (bg_filename style_filename default_prompt : json)
    (input_folder mask_folder output_dir : string) (idx : nat)
    (pairs : list (string * string)) (successful_images failed_images : nat)
    : M (nat * nat) :=
  match pairs with
  | [] => ret (successful_images, failed_images)
  | (image_file, mask_file) :: rest =>
      logm INFO (ProcessingPair (S idx) image_file mask_file) ;;;
      counts <- process_pair workflow bg_filename style_filename default_prompt
                  input_folder mask_folder output_dir image_file mask_file
                  successful_images failed_images ;;
      process_pairs workflow bg_filename style_filename default_prompt
        input_folder mask_folder output_dir (S idx) rest (fst counts) (snd counts)
  end.

(** Step 5 up to the check of [matching_pairs]. *)
Definition pairing_step (input_folder mask_folder : string)
    : M (list (string * string)) :=
  input_images <- list_images input_folder ;;
  mask_files <- list_images mask_folder ;;
  matching_pairs <- find_pairs mask_files input_images ;;
  match matching_pairs with
  | [] => raise (BatchError NoMatchingPairs)
  | _ => ret matching_pairs
  end.

(** [process_images_api]; creating the output directory is taken to
    succeed. *)
Definition process_images_api (workflow : pval) (prompts_data : json)
    (input_folder mask_folder output_folder : string) : M bool :=
  try_except
    (prepared <- prepare_batch prompts_data ;;
     let bg_filename := fst prepared in
     let style_images := snd prepared in
     matching_pairs <- pairing_step input_folder mask_folder ;;
     defaults <- lift (batch_defaults prompts_data) ;;
     let default_prompt := fst defaults in
     _ <- lift (Py.slice_to 100 default_prompt) ;;
     style_filename <- pick_style (snd defaults) style_images ;;
     let output_dir := PyStr.join output_folder "processed_images" in
     counts <- process_pairs workflow bg_filename style_filename default_prompt
                 input_folder mask_folder output_dir 0 matching_pairs 0 0 ;;
     logm INFO (ProcessingCompleted (fst counts) (snd counts)) ;;;
     match fst counts with
     | O => raise (BatchError NoImageProcessed)
     | S _ => ret true
     end)
    (fun e => logm ERROR (BatchAborted e) ;;; raise e).

End WithEnv.
End Workflow.

(** ** routes/workflow.py *)

Module Routes.

(** [converted_data.update(item)] *)
Definition dict_update (converted_data item : list (string * json))
    : list (string * json) :=
  fold_left (fun d kv => Py.dict_set (fst kv) (snd kv) d) item converted_data.

(** The loop [for item in prompts_data: if isinstance(item, dict): ...]. *)
Definition merge_items (items : list json) (converted_data : list (string * json))
    : list (string * json) :=
  fold_left (fun d item =>
               match item with
               | JObj fields => dict_update d fields
               | _ => d
               end) items converted_data.

(** What [process_images] makes of the parsed prompts file before it calls
    [process_images_api]: a non-empty list of dicts becomes one dict.  The
    log line before it takes [len(prompts_data)]. *)
Definition convert_prompts (prompts_data : json) : result json :=
  rbind (Py.len prompts_data) (fun _ =>
    match prompts_data with
    | JArr ((_ :: _) as items) => Ok (JObj (merge_items items []))
    | _ => Ok prompts_data
    end).

End Routes.

(** ** routes/mask.py *)

Module MaskRoute.

(** What the route answers with: the media type, the file name of the
    [Content-Disposition] header and the bytes. *)
Record reply := Reply {
  media_type : string;
  attachment : string;
  content : Mask.payload
}.

(** [file.filename or "image.png"] *)
Definition effective_name (filename : option string) : string :=
  match filename with
  | Some n => if String.eqb n "" then "image.png" else n
  | None => "image.png"
  end.

(** The answer built from what [process_image] returned. *)
Definition respond (original_name : string) (result : string * Mask.payload)
    : reply :=
  if String.eqb (fst result) "zip" then
    Reply "application/zip"
          (PyStr.replace original_name ".zip" "_processed.zip") (snd result)
  else
    Reply "application/octet-stream" (fst result) (snd result).

(** [mask]: the engine address is settled first, then the upload is
    processed. *)
Definition mask (env : Env) (cfg : Mask.Config) (fuel : nat)
    (filename : option string) (file_bytes : string)
    (comfy_url x_comfy_url comfy_url_query : option string) : MF reply :=
  bindF (total (lift (Mask._pick_comfy_url comfy_url x_comfy_url comfy_url_query)))
    (fun _ =>
  let original_name := effective_name filename in
  bindF (Mask.process_image env cfg fuel file_bytes original_name) (fun result =>
  total (ret (respond original_name result)))).

End MaskRoute.

(** ** promptmap_service.py *)

Module PromptMap.

(** [api_call_with_retry]: [func n] is the outcome of the call of [func]
    made after [n] earlier calls; [None] is what falls out of the loop.  The
    waiting between two calls is left out. *)
Fixpoint api_call_loop {A} (func : nat -> result A) (max_retries : Z)
    (attempts : list nat) : result (option A) :=
  match attempts with
  | [] => Ok None
  | attempt :: rest =>
      match func attempt with
      | Ok a => Ok (Some a)
      | Raise e =>
          if Z.of_nat attempt =? max_retries - 1 then Raise e
          else api_call_loop func max_retries rest
      end
  end.

Definition api_call_with_retry {A} (func : nat -> result A) (max_retries : Z)
    : result (option A) :=
  api_call_loop func max_retries (seq 0 (Z.to_nat max_retries)).

(** The loops [for prompt_key in prompt_library.keys(): if ...: return]:
    the first key that passes [test]. *)
Fixpoint first_key (test : string -> bool) (keys : list string) : option string :=
  match keys with
  | [] => None
  | prompt_key :: rest =>
      if test prompt_key then Some prompt_key else first_key test rest
  end.

Section WithEnv.
Variable env : Env.

(** [find_matching_prompt]; [None] stands for [(None, None)]. *)
Definition find_matching_prompt (background_name : string)
    (prompt_library : list (string * json)) : option (json * string) :=
  let keys := map fst prompt_library in
  let entry prompt_key :=
    match Py.dict_get prompt_key prompt_library with
    | Some v => Some (v, prompt_key)
    | None => None
    end in
  match Py.dict_get background_name prompt_library with
  | Some v => Some (v, background_name)
  | None =>
      let without_suffix :=
        if PyStr.endswith background_name "_women" then
          let base_name := PyStr.drop_last 7 background_name in
          first_key (fun prompt_key =>
                       String.eqb (str_lower env prompt_key) (str_lower env base_name))
                    keys
        else None in
      match without_suffix with
      | Some prompt_key => entry prompt_key
      | None =>
          match first_key
                  (fun prompt_key =>
                     PyStr.contains (str_lower env prompt_key)
                                    (str_lower env background_name)
                     || PyStr.contains (str_lower env background_name)
                                       (str_lower env prompt_key))
                  keys with
          | Some prompt_key => entry prompt_key
          | None => None
          end
      end
  end.

End WithEnv.



End PromptMap.

(** ** Vocabulary of the statements *)

(** The values a container holds. *)
Definition ovals (o : pobj) : list pval :=
  match o with
  | PDict items => map snd items
  | PList xs => xs
  end.

(** [v] does not point below address [n]. *)
Definition above (n : nat) (v : pval) : Prop :=
  match v with
  | PRef l => (n <= l)%nat
  | _ => True
  end.

(** The objects from address [n] on only point to one another. *)
Definition closed_above (n : nat) (h : list pobj) : Prop :=
  forall l o, (n <= l)%nat -> h !! l = Some o -> Forall (above n) (ovals o).

(** [tree h j v fp]: in the store [h] the value [v] stands for the document
    [j], and [fp] lists the addresses of the objects it is made of, one per
    container of [j]. *)
Inductive tree (h : list pobj) : json -> pval -> list nat -> Prop :=
| tree_null : tree h JNull PNone []
| tree_bool b : tree h (JBool b) (PBool b) []
| tree_num z : tree h (JNum z) (PInt z) []
| tree_str s : tree h (JStr s) (PStr s) []
| tree_arr l xs pvs fp :
    h !! l = Some (PList pvs) ->
    trees h xs pvs fp ->
    tree h (JArr xs) (PRef l) (l :: fp)
| tree_obj l kvs pkvs fp :
    h !! l = Some (PDict pkvs) ->
    map fst pkvs = map fst kvs ->
    trees h (map snd kvs) (map snd pkvs) fp ->
    tree h (JObj kvs) (PRef l) (l :: fp)
with trees (h : list pobj) : list json -> list pval -> list nat -> Prop :=
| trees_nil : trees h [] [] []
| trees_cons j js v vs f fs :
    tree h j v f ->
    trees h js vs fs ->
    trees h (j :: js) (v :: vs) (f ++ fs)%list.

Scheme tree_mut := Minimality for tree Sort Prop
  with trees_mut := Minimality for trees Sort Prop.
Combined Scheme tree_trees_ind from tree_mut, trees_mut.

(** What a computation may do to the world.  [fp_heap = None]: the store
    is left as it is; [fp_heap = Some n]: the objects below address [n] are
    left as they are.  Only the listed log events, requests and file paths
    are added. *)
Record footprint := Footprint {
  fp_heap : option nat;
  fp_log : event -> Prop;
  fp_req : request -> Prop;
  fp_file : string -> Prop
}.

Definition heap_within (keep : option nat) (h h' : list pobj) : Prop :=
  match keep with
  | None => h' = h
  | Some n => forall l, (l < n)%nat -> h' !! l = h !! l
  end.

Definition within (fp : footprint) (w w' : World) : Prop :=
  heap_within (fp_heap fp) (heap w) (heap w') /\
  (exists added, log w' = (log w ++ added)%list /\
                 Forall (fun e => fp_log fp (snd e)) added) /\
  (exists added, trace w' = (trace w ++ added)%list /\
                 Forall (fp_req fp) added) /\
  (exists added, files w' = (files w ++ added)%list /\
                 Forall (fun f => fp_file fp (fst f)) added) /\
  now w <= now w'.

(** Where a footprint with a kept prefix applies: the prefix exists, and
    the objects after it only point to one another. *)
Definition pre (fp : footprint) (w : World) : Prop :=
  match fp_heap fp with
  | None => True
  | Some n => (n <= length (heap w))%nat /\ closed_above n (heap w)
  end.

(** Every run of [m] stays within [fp]. *)
Definition stays {A} (fp : footprint) (m : M A) : Prop :=
  forall w r w', pre fp w -> m w = (r, w') -> within fp w w' /\ pre fp w'.

Definition staysF {A} (fp : footprint) (m : MF A) : Prop :=
  forall w r w', pre fp w -> m w = Some (r, w') -> within fp w w' /\ pre fp w'.

(** The mask the pairing step gives an image, out of the names found in the
    mask directory: [{base}.jpg] when present, else [{base}.png]. *)
Definition mask_for (masks : list string) (image_file : string) : option string :=
  let image_base := fst (PyStr.splitext image_file) in
  if decide (image_base ++ ".jpg" ∈ masks) then Some (image_base ++ ".jpg")
  else if decide (image_base ++ ".png" ∈ masks) then Some (image_base ++ ".png")
  else None.

(** A directory entry the pairing step takes for an image. *)
Definition is_image_name (f : string) : Prop :=
  Is_true (PyStr.endswith_any (PyStr.lower f) Workflow.style_exts).

(** The log entry the pairing step writes for an input image. *)
Definition pairing_entry (masks : list string) (image_file : string)
    : level * event :=
  match mask_for masks image_file with
  | Some mask_file => (INFO, FoundMatchingPair image_file mask_file)
  | None => (WARNING, NoMaskFound image_file)
  end.

(** The two inner loops of [Obj.loads], by name. *)
Definition loads_list : list json -> list pobj -> list pobj * list pval :=
  fix go (xs : list json) (h : list pobj) : list pobj * list pval :=
    match xs with
    | [] => (h, [])
    | x :: xs' =>
        let '(h1, v) := Obj.loads x h in
        let '(h2, vs) := go xs' h1 in
        (h2, v :: vs)
    end.

Definition loads_items
    : list (string * json) -> list pobj -> list pobj * list (string * pval) :=
  fix go (items : list (string * json)) (h : list pobj)
      : list pobj * list (string * pval) :=
    match items with
    | [] => (h, [])
    | (k, x) :: items' =>
        let '(h1, v) := Obj.loads x h in
        let '(h2, kvs) := go items' h1 in
        (h2, (k, v) :: kvs)
    end.

(** What [Obj.loads j h] does: it appends objects [objs] to [h], they form a
    tree for [j] whose footprint is fresh and free of sharing, and they only
    point to one another. *)
Definition fresh_load (h : list pobj) (j : json) : Prop :=
  exists objs v fp,
    Obj.loads j h = ((h ++ objs)%list, v) /\
    tree (h ++ objs) j v fp /\ NoDup fp /\
    (forall l, l ∈ fp -> (length h <= l < length h + length objs)%nat) /\
    above (length h) v /\
    Forall (fun o => Forall (above (length h)) (ovals o)) objs.

(** One footprint allows all that another does. *)
Definition fp_le (fp fp' : footprint) : Prop :=
  (fp_heap fp = None \/ fp_heap fp = fp_heap fp') /\
  (forall e, fp_log fp e -> fp_log fp' e) /\
  (forall r, fp_req fp r -> fp_req fp' r) /\
  (forall f, fp_file fp f -> fp_file fp' f).

(** The log events of the uploader. *)
Definition upload_event (e : event) : Prop :=
  match e with
  | UploadAttemptFailed _ | AllUploadAttemptsFailed _
  | ImageFileNotFound _ | Uploaded _ _ => True
  | _ => False
  end.

(** The log events of the style resolution and upload. *)
Definition style_event (e : event) : Prop :=
  match e with
  | StyleFolderNotFound | StyleMatched _ _ | StyleNotMatched _
  | StyleUploaded _ | StyleUploadFailed _ => True
  | _ => False
  end.

(** The log events of the graph mutator. *)
Definition update_event (e : event) : Prop :=
  match e with
  | UpdatedNode _ _ | UpdateWorkflowFailed => True
  | _ => False
  end.

(** The log events of the submission. *)
Definition submit_event (e : event) : Prop :=
  match e with
  | NoPromptId | SubmitFailed => True
  | _ => False
  end.

(** The log events of the compositing poller and downloader. *)
Definition download_event (e : event) : Prop :=
  match e with
  | PromptCompleted _ | HistoryFailed _ | PollingTimeout _ | NoCompletionStatus _
  | NoImagesInNode15 _ | UsingFallbackNode _ | NoImagesInAnyNode _
  | DownloadedVariant _ _ | VariantFailed _ | DownloadedVariants _
  | NoVariantDownloaded | DownloadFailed => True
  | _ => False
  end.

(** The log events written once a pair is being processed. *)
Definition pair_event (e : event) : Prop :=
  match e with
  | ProcessingPair _ _ _ | PairUploadFailed _ | PairUpdateFailed _
  | PairSubmitFailed _ | PairProcessed _ | PairDownloadFailed _ | PairError _ => True
  | _ => False
  end.

(** An upload of the file at [path]. *)
Definition upload_of (env : Env) (path : string) (rq : request) : Prop :=
  exists filename content,
    rq = PostUpload filename content /\ read_file env path = Some content.

Definition nothing {A} (_ : A) : Prop := False.
Definition anything {A} (_ : A) : Prop := True.

(** What the uploader may do for the file at [path]. *)
Definition upload_footprint (env : Env) (path : string) : footprint :=
  {| fp_heap := None; fp_log := upload_event;
     fp_req := upload_of env path; fp_file := nothing |}.

(** What the batch may do before the first pair: upload the background and
    the style files, and log about that. *)
Definition setup_footprint (env : Env) : footprint :=
  {| fp_heap := None;
     fp_log := fun e => upload_event e \/ style_event e;
     fp_req := fun rq =>
       exists path,
         (path = Workflow.background_image_path \/
          path ∈ Workflow.style_files_of (walk env Workflow.style_folder)) /\
         upload_of env path rq;
     fp_file := nothing |}.

(** The same, with the line the batch logs when it gives up. *)
Definition abort_footprint (env : Env) : footprint :=
  {| fp_heap := None;
     fp_log := fun e =>
       upload_event e \/ style_event e \/ exists why, e = BatchAborted why;
     fp_req := fp_req (setup_footprint env);
     fp_file := nothing |}.

(** A style name has a local file: some file of the style folder scores
    above zero for it. *)
Definition has_style_file (env : Env) (style : json) : Prop :=
  path_exists env Workflow.style_folder = true /\
  exists name file_path,
    style = JStr name /\
    file_path ∈ Workflow.style_files_of (walk env Workflow.style_folder) /\
    (0 < Workflow.style_score env name
           (fst (PyStr.splitext (PyStr.basename file_path))))%nat.

(** What the style resolution may do: log. *)
Definition style_footprint : footprint :=
  {| fp_heap := None; fp_log := style_event; fp_req := nothing; fp_file := nothing |}.

(** An entry of [style_file_matches] that is as it should be: a style name
    with a file of the style folder that scores above zero for it. *)
Definition good_match (env : Env) (e : json * string) : Prop :=
  exists name,
    fst e = JStr name /\
    snd e ∈ Workflow.style_files_of (walk env Workflow.style_folder) /\
    (0 < Workflow.style_score env name
           (fst (PyStr.splitext (PyStr.basename (snd e)))))%nat.

(** The fetch [download_variants] makes for an image reference, when the
    reference has a [filename]. *)
Definition view_request (image_info : json) : option request :=
  match Py.getitem image_info (JStr "filename"),
        Py.get image_info "subfolder" (JStr ""),
        Py.get image_info "type" (JStr "output") with
  | Ok filename, Ok subfolder, Ok type_ => Some (GetView filename subfolder type_)
  | _, _, _ => None
  end.

(** The content saved under [path] when [rq] is sent after the requests
    [tr]: none when the engine does not answer, answers with an error
    status, or the file cannot be written. *)
Definition fetched (env : Env) (tr : list request) (rq : request) (path : string)
    : option string :=
  match engine env tr rq with
  | NoResponse => None
  | Response status_code _ content =>
      if (400 <=? status_code) && (status_code <? 600) then None
      else if can_write env path then Some content else None
  end.

(** What becomes of one image reference: the file saved for it, if any. *)
Definition variant_outcome (env : Env) (output_path : string) (idx : nat)
    (tr : list request) (image_info : json) : option (string * string) :=
  match view_request image_info with
  | None => None
  | Some rq =>
      pair (Workflow.variant_path output_path idx)
        <$> fetched env tr rq (Workflow.variant_path output_path idx)
  end.

(** The same for the references of a list, in order. *)
Fixpoint variant_outcomes (env : Env) (output_path : string) (idx : nat)
    (tr : list request) (images : list json) : list (option (string * string)) :=
  match images with
  | [] => []
  | image_info :: rest =>
      variant_outcome env output_path idx tr image_info
      :: variant_outcomes env output_path (S idx)
           (tr ++ option_list (view_request image_info))%list rest
  end.

(** The log line of a variant. *)
Definition variant_entry (idx : nat) (o : option (string * string)) : level * event :=
  match o with
  | Some (path, _) => (INFO, DownloadedVariant (S idx) path)
  | None => (WARNING, VariantFailed (S idx))
  end.

(** The files saved, out of the outcomes. *)
Definition saved (outcomes : list (option (string * string))) : list (string * string) :=
  omap id outcomes.

(** What the graph mutator may do: build and change objects from address
    [n] on, and log. *)
Definition update_footprint (n : nat) : footprint :=
  {| fp_heap := Some n; fp_log := update_event; fp_req := nothing; fp_file := nothing |}.

(** A footprint that only keeps the objects below [n]. *)
Definition frame_footprint (n : nat) : footprint :=
  {| fp_heap := Some n; fp_log := anything; fp_req := anything; fp_file := anything |}.

(** A poll answer the masking poller takes for "not yet": any status but
    200, or a 200 whose history is empty or lacks the job id. *)
Definition mask_not_yet (prompt_id : json) (r : response) : Prop :=
  match r with
  | NoResponse => False
  | Response status_code body _ =>
      status_code <> 200 \/
      exists hist, body = Some hist /\
        (Py.truthy hist = false \/ Py.contains hist prompt_id = Ok false)
  end.

(** A poll answer the compositing poller takes for "not yet": no answer, an
    error status, a body that is not JSON, or a history that lacks the job
    id. *)
Definition workflow_not_yet (prompt_id : json) (r : response) : Prop :=
  match r with
  | NoResponse => True
  | Response status_code body _ =>
      (400 <= status_code < 600) \/ body = None \/
      exists history, body = Some history /\ Py.contains history prompt_id = Ok false
  end.

(** The last entry of a log. *)
Definition last_event (l : list (level * event)) : option event :=
  snd <$> last l.

(** An output node that shows no image: a dict without [images], or with an
    empty one. *)
Definition node_without_images (v : json) : Prop :=
  exists o, v = JObj o /\
    match Py.dict_get "images" o with
    | None => True
    | Some imgs => Py.truthy imgs = false
    end.

(** An output node with a non-empty [images]. *)
Definition node_with_images (v : json) : Prop :=
  exists o imgs, v = JObj o /\ Py.dict_get "images" o = Some imgs /\
                 Py.truthy imgs = true.

(** [v] is the first node of [outs], in order, that has images. *)
Definition first_node_with_images (outs : list (string * json)) (id : string)
    (v : json) : Prop :=
  exists before after,
    outs = (before ++ (id, v) :: after)%list /\
    Forall (fun kv => node_without_images (snd kv)) before /\
    node_with_images v.

(** The designated node is absent from [outs], or is an empty descriptor. *)
Definition designated_absent (designated : string) (outs : list (string * json))
    : Prop :=
  match Py.dict_get designated outs with
  | None => True
  | Some d => Py.truthy d = false
  end.

(** The same, or the designated node has no [images] key at all. *)
Definition designated_lacking (designated : string) (outs : list (string * json))
    : Prop :=
  match Py.dict_get designated outs with
  | None => True
  | Some d => Py.truthy d = false \/
              exists o, d = JObj o /\ Py.dict_get "images" o = None
  end.

(** The node the masking path settles on: the designated node when it is
    there and not empty, and otherwise the first node with images. *)
Definition chosen_node (cfg : Mask.Config) (outs : list (string * json))
    (node : json) : Prop :=
  (Py.dict_get (Mask.OUTPUT_NODE_ID cfg) outs = Some node /\ Py.truthy node = true) \/
  (designated_absent (Mask.OUTPUT_NODE_ID cfg) outs /\
   exists id, first_node_with_images outs id node).

(** The history [hist] shows the job [p] complete, for the masking poller:
    the job id is a key, and the chosen node has a non-empty [images]. *)
Definition job_ready (cfg : Mask.Config) (p : string) (hist : json) : Prop :=
  exists items entry outs node,
    hist = JObj items /\
    Py.dict_get p items = Some entry /\
    Py.get entry "outputs" (JObj []) = Ok (JObj outs) /\
    chosen_node cfg outs node /\
    node_with_images node.

(** Whether the engine takes the request [rq] sent after the requests
    [tr]: it answers, with a status outside 400..599. *)
Definition accepted (env : Env) (tr : list request) (rq : request) : bool :=
  match engine env tr rq with
  | NoResponse => false
  | Response status_code _ _ =>
      negb ((400 <=? status_code) && (status_code <? 600))
  end.

(** The first [k] sendings of [rq] after [tr] are all refused. *)
Definition refused_upto (env : Env) (tr : list request) (rq : request) (k : nat)
    : Prop :=
  forall i, (i < k)%nat -> accepted env (tr ++ replicate i rq)%list rq = false.

(** What [_extract_images_from_zip] takes from an entry of the archive
    [zip_file]: the name of a file with an image extension and the bytes
    read under that name, when they can be read. *)
Definition zip_image (zip_file : list zip_entry) (e : zip_entry)
    : option (string * string) :=
  let filename := ze_filename e in
  if PyStr.endswith filename "/" then None
  else if PyStr.endswith_any (PyStr.lower filename) Mask.image_exts
       then pair filename <$> Mask.zip_read zip_file filename
       else None.



(** What a run of the uploader for [path] amounts to, from the world [w]:
    the requests [reqs] it sent and the value [v] it returned. *)
Definition upload_outcome (env : Env) (path : string) (w : World) (v : json)
    (reqs : list request) (w' : World) : Prop :=
  trace w' = (trace w ++ reqs)%list /\
  Forall (upload_of env path) reqs /\
  heap w' = heap w /\ files w' = files w /\
  (v = JNull \/
   exists before rq st body c,
     reqs = (before ++ [rq])%list /\
     engine env (trace w ++ before)%list rq = Response st (Some body) c /\
     accepted env (trace w ++ before)%list rq = true /\
     Py.get body "name" (JStr (PyStr.basename path)) = Ok v).

(** A style name a product of [prompts_data] asks for: the non-empty
    [style_image] of a dict among the values. *)
Definition style_request (products : list json) (s : json) : Prop :=
  exists product,
    product ∈ products /\ Py.is_dict product = true /\
    Py.get product "style_image" JNull = Ok s /\ Py.truthy s = true.

(** A list that holds no value twice, also up to Python's [==]. *)
Definition distinct_values (l : list json) : Prop :=
  NoDup l /\ forall a b, a ∈ l -> b ∈ l -> Py.eqb a b = true -> a = b.

(** The score of the file at [file_path] for the style [name]. *)
Definition file_score (env : Env) (name file_path : string) : nat :=
  Workflow.style_score env name (fst (PyStr.splitext (PyStr.basename file_path))).

(** [f] is the file [find_style_file_matches] picks for [name] among
    [files]: the first one with the highest score, a score above zero. *)
Definition best_file (env : Env) (files : list string) (name f : string) : Prop :=
  exists before after,
    files = (before ++ f :: after)%list /\
    (0 < file_score env name f)%nat /\
    Forall (fun g => (file_score env name g < file_score env name f)%nat) before /\
    Forall (fun g => (file_score env name g <= file_score env name f)%nat) after.

(** An entry of [style_file_matches] with the best file for its style. *)
Definition best_match (env : Env) (e : json * string) : Prop :=
  exists name,
    fst e = JStr name /\
    best_file env (Workflow.style_files_of (walk env Workflow.style_folder)) name
      (snd e).

(** The state of the search for [name] after the files [done]. *)
Definition searched (env : Env) (name : string) (done : list string)
    (bm : option string)
    (bs : nat) : Prop :=
  match bm with
  | None => bs = 0%nat /\ Forall (fun g => file_score env name g = 0%nat) done
  | Some f => bs = file_score env name f /\ best_file env done name f
  end.

(** The tests [find_matching_prompt] makes on a key of the library: the key
    is, case apart, the background without its last seven characters, for a
    background ending in [_women]; the key holds the background or is held
    by it, case apart. *)
Definition cut_match (env : Env) (background_name prompt_key : string) : bool :=
  PyStr.endswith background_name "_women"
  && String.eqb (str_lower env prompt_key)
                (str_lower env (PyStr.drop_last 7 background_name)).

Definition part_match (env : Env) (background_name prompt_key : string) : bool :=
  PyStr.contains (str_lower env prompt_key) (str_lower env background_name)
  || PyStr.contains (str_lower env background_name) (str_lower env prompt_key).

(** [k] is the first of [keys] that passes [test]. *)
Definition first_passing (test : string -> bool) (keys : list string) (k : string)
    : Prop :=
  exists before after,
    keys = (before ++ k :: after)%list /\ test k = true /\
    Forall (fun x => test x = false) before.

(** The closeup name chosen for one copy is the first one not handed out
    before it. *)
Definition closeup_minimal (earlier : list string) (c : Rename.copy_call) : Prop :=
  let ext := snd (PyStr.splitext (PyStr.basename (Rename.cc_src c))) in
  exists i, (1 <= i)%nat /\ Rename.cc_new_filename c = Rename.closeup_name i ext /\
    (Rename.closeup_name i ext ∉ earlier) /\
    forall j, (1 <= j < i)%nat -> Rename.closeup_name j ext ∈ earlier.

(** What every copy of a run satisfies, given the copies before it. *)
Definition copy_ok (output_dir : string) (earlier : list Rename.copy_call)
    (c : Rename.copy_call) : Prop :=
  Rename.cc_dst c = PyStr.join output_dir (Rename.cc_new_filename c) /\
  if Rename.cc_renamed c then closeup_minimal (Rename.generated earlier) c
  else Rename.cc_new_filename c = PyStr.basename (Rename.cc_src c).

(** The entry of [processing_details] that a successful copy leaves. *)
Definition detail_of (relpath : string -> string) (c : Rename.copy_call)
    : Rename.detail :=
  Rename.Detail (relpath (Rename.cc_src c)) (Rename.cc_new_filename c)
                (Rename.cc_renamed c) (negb (Rename.cc_renamed c)).

(** The copies of a run that did not raise. *)
Definition copied (calls : list Rename.copy_call) : list Rename.copy_call :=
  filter (fun c => Is_true (Rename.cc_ok c)) calls.


(** What the counters and lists of [process_images] say after the images
    [done]. *)
Definition accounted (relpath failure : string -> string)
    (done : list string) (st : Rename.state) : Prop :=
  (Rename.processed_count st + length (Rename.errors st) = length done)%nat /\
  Rename.processed_count st = (Rename.renamed_count st + Rename.skipped_count st)%nat /\
  length (Rename.processing_details st) = Rename.processed_count st /\
  Rename.renamed_count st =
    length (filter (fun d => Is_true (Rename.d_renamed d))
                   (Rename.processing_details st)) /\
  Forall (fun d => Rename.d_renamed d = negb (Rename.d_face_detected d))
         (Rename.processing_details st) /\
  exists processed failed,
    sublist processed done /\ sublist failed done /\
    (processed ++ failed)%list ≡ₚ done /\
    map Rename.d_original_file (Rename.processing_details st) = map relpath processed /\
    Rename.errors st = map (Rename.error_msg failure) failed.

(** The fields of an item of a prompts list, none for an item that is not
    a dict. *)
Definition fields_of (item : json) : list (string * json) :=
  match item with
  | JObj fields => fields
  | _ => []
  end.

(** ** A scripted engine and file system, for the examples *)

Module Sample.

Definition image_ref (n : string) : json :=
  JObj [("filename", JStr n); ("subfolder", JStr "masks"); ("type", JStr "output")].

(** The history of the job [p1]: one mask under the node 455. *)
Definition history : json :=
  JObj [("p1", JObj [("outputs",
           JObj [("455", JObj [("images", JArr [image_ref "m.png"])])])])].

(** The engine refuses every upload whose name ends in [three.jpeg] and
    answers everything else at once. *)
Definition answer (tr : list request) (rq : request) : response :=
  match rq with
  | PostUpload n _ =>
      if PyStr.endswith n "three.jpeg" then Response 500 None "refused"
      else Response 200 (Some (JObj [("name", JStr n)])) "stored"
  | PostPrompt _ => Response 200 (Some (JObj [("prompt_id", JStr "p1")])) "queued"
  | GetHistory _ => Response 200 (Some history) "history"
  | GetView _ _ _ => Response 200 None "mask bytes"
  end.

(** The archive the examples upload. *)
Definition archive : list zip_entry :=
  [ ZipEntry "shots/" None;
    ZipEntry "shots/one.png" (Some "bytes of one");
    ZipEntry "shots/notes.txt" (Some "text");
    ZipEntry "shots/two.JPG" None;
    ZipEntry "three.jpeg" (Some "bytes of three") ].

Definition env : Env :=
  {| engine := answer;
     latency := fun _ _ => 10%N;
     path_exists := fun _ => true;
     read_file := fun p => Some ("content of " ++ p);
     load_json := fun _ => Some (JObj [("54", JObj [("inputs", JObj [("image", JStr "old.png")])])]);
     listdir := fun _ => Some ["a.jpg"; "b.png"];
     walk := fun _ => [("styles", ["Urban Street 2.png"; "Urban Street.png";
                                   "beach.jpg"; "notes.txt"])];
     can_write := fun _ => true;
     unzip := fun b => if String.eqb b "zipped" then Some archive else None;
     hash_order := fun _ => 0%nat;
     str_lower := PyStr.lower |}.

Definition world : World :=
  {| now := 1000; heap := []; trace := []; log := []; files := [] |}.

Definition cfg : Mask.Config :=
  {| Mask.WORKFLOW_JSON := "graph.json";
     Mask.INPUT_NODE_ID := "54";
     Mask.INPUT_NODE_ID_is_int := true;
     Mask.OUTPUT_NODE_ID := "455";
     Mask.POLL_INTERVAL_S := 5000;
     Mask.POLL_TIMEOUT_S := 120000;
     Mask.MAX_RETRIES := 3 |}.

(** A prompts file: two products share a style, one has none, and one
    entry is not a dict. *)
Definition prompts : json :=
  JObj [("shirt", JObj [("text", JStr "a shirt"); ("style_image", JStr "urban street")]);
        ("dress", JObj [("text", JStr "a dress"); ("style_image", JStr "beach")]);
        ("note", JStr "not a product");
        ("coat", JObj [("text", JStr "a coat"); ("style_image", JStr "urban street")]);
        ("hat", JObj [("text", JStr "a hat")])].

End Sample.

(** * Properties *)

Example splitext_plain : PyStr.splitext "a/b.c/shirt.v2.JPG" = ("a/b.c/shirt.v2", ".JPG").
Proof. vm_compute. reflexivity. Qed.
Example splitext_hidden : PyStr.splitext "a/..jpg" = ("a/..jpg", "").
Proof. vm_compute. reflexivity. Qed.
Example splitext_nodot : PyStr.splitext "a.d/file" = ("a.d/file", "").
Proof. vm_compute. reflexivity. Qed.
Example dirname_ex : PyStr.dirname "/tmp/out//x.png" = "/tmp/out".
Proof. vm_compute. reflexivity. Qed.
Example dirname_root : PyStr.dirname "//x.png" = "//".
Proof. vm_compute. reflexivity. Qed.
Example basename_ex : PyStr.basename "/tmp/out/x.png" = "x.png".
Proof. vm_compute. reflexivity. Qed.
Example lower_ex : PyStr.lower "Ab.JPG" = "ab.jpg".
Proof. vm_compute. reflexivity. Qed.
Example contains_ex : PyStr.contains "urban street" "street" = true.
Proof. vm_compute. reflexivity. Qed.
(** A no-break space (U+00A0) and an ideographic space (U+3000) are white
    space, a zero-width space (U+200B) is not. *)
Example blank_ex :
  PyStr.blank (PyStr.of_chars (map ascii_of_nat [32; 194; 160; 227; 128; 128; 9]%nat))
  = true /\
  PyStr.blank (PyStr.of_chars (map ascii_of_nat [226; 128; 139]%nat)) = false.
Proof. vm_compute. split; reflexivity. Qed.
(** [s[:-7]] counts characters, not bytes. *)
Example drop_last_ex :
  PyStr.drop_last 7 "park_women" = "par" /\
  PyStr.drop_last 7 "café_women" = "caf" /\
  PyStr.drop_last 7 "_women" = "".
Proof. vm_compute. repeat split; reflexivity. Qed.
(** Later entries of a name replace earlier ones, and an entry name ends
    before a null byte. *)
Example zip_read_ex :
  Mask.zip_read [ZipEntry "a.png" (Some "one"); ZipEntry "a.png" (Some "two")] "a.png"
  = Some "two" /\
  ze_filename (ZipEntry (PyStr.of_chars (map ascii_of_nat [97; 98; 0; 99]%nat)) None) = "ab".
Proof. vm_compute. split; reflexivity. Qed.

(** ** Strings *)

Lemma chars_app (a b : string) :
  PyStr.chars (a ++ b) = (PyStr.chars a ++ PyStr.chars b)%list.
Proof.
  unfold PyStr.chars. induction a as [|c a IH]; simpl; [reflexivity|].
  now rewrite IH.
Qed.

Lemma chars_inj (a b : string) : PyStr.chars a = PyStr.chars b -> a = b.
Proof.
  intros H. rewrite <- (string_of_list_ascii_of_string a),
    <- (string_of_list_ascii_of_string b).
  unfold PyStr.chars in H. now rewrite H.
Qed.

Lemma string_app_inv_tail (a b t : string) : a ++ t = b ++ t -> a = b.
Proof.
  intros H. apply chars_inj. apply (f_equal PyStr.chars) in H.
  rewrite !chars_app in H. now apply app_inv_tail in H.
Qed.

(** ** rename_service.py *)

Section RenameFacts.
Import Rename.

Lemma closeup_name_inj ext i j :
    closeup_name i ext = closeup_name j ext -> i = j.
Proof.
    unfold closeup_name. intros H.
    apply (inj (String.app "closeup(")) in H.
    apply string_app_inv_tail in H.
    now apply (inj pretty) in H.
Qed.

  (** What the search returns: the first free index at or after [index]. *)
Lemma next_closeup_from_spec fuel E ext index n :
    next_closeup_from fuel E ext index = Some n ->
    exists k, (index <= k)%nat /\ n = closeup_name k ext /\ (n ∉ E) /\
      forall j, (index <= j < k)%nat -> closeup_name j ext ∈ E.
Proof.
    revert index. induction fuel as [|fuel IH]; simpl; intros index H; [discriminate|].
    destruct (decide (closeup_name index ext ∈ E)) as [Hin|Hout].
    - destruct (IH _ H) as (k & Hk & -> & Hfree & Hbelow).
      exists k. repeat split; [lia|assumption|].
      intros j Hj. destruct (decide (j = index)) as [->|Hne]; [assumption|].
      apply Hbelow. lia.
    - injection H as <-. exists index. repeat split; [lia|assumption|].
      intros j Hj. lia.
Qed.

  (** When the search gives up, all the indices it tried are taken. *)
Lemma next_closeup_from_none fuel E ext index :
    next_closeup_from fuel E ext index = None ->
    forall j, (index <= j < index + fuel)%nat -> closeup_name j ext ∈ E.
Proof.
    revert index. induction fuel as [|fuel IH]; simpl; intros index H j Hj; [lia|].
    destruct (decide (closeup_name index ext ∈ E)) as [Hin|Hout]; [|discriminate].
    destruct (decide (j = index)) as [->|Hne]; [assumption|].
    apply (IH _ H). lia.
Qed.

  (** The [while True] loop of [next_closeup_name] terminates: a set of
      [n] names cannot hold all of [closeup(1)] .. [closeup(n+1)]. *)
Lemma next_closeup_name_total E ext :
    exists n, next_closeup_name E ext = Some n.
Proof.
    unfold next_closeup_name.
    destruct (next_closeup_from (S (size E)) E ext 1) as [n|] eqn:Hres; [eauto|].
    exfalso.
    pose proof (next_closeup_from_none _ _ _ _ Hres) as Hall.
    set (names := map (fun j => closeup_name j ext) (seq 1 (S (size E)))).
    assert (Hnodup : NoDup names).
    { apply NoDup_fmap_2_strong; [|apply NoDup_seq].
      intros i j _ _. apply closeup_name_inj. }
    assert (Hsub : names ⊆+ elements E).
    { apply NoDup_submseteq; [assumption|].
      intros x Hx. apply elem_of_elements.
      apply list_elem_of_fmap in Hx as (j & -> & Hj).
      apply elem_of_seq in Hj. apply Hall. lia. }
    apply submseteq_length in Hsub.
    unfold names in Hsub. rewrite length_map, length_seq in Hsub.
    unfold size, set_size in Hsub. simpl in Hsub. lia.
Qed.

Lemma next_closeup_name_spec E ext n :
    next_closeup_name E ext = Some n ->
    exists k, (1 <= k)%nat /\ n = closeup_name k ext /\ (n ∉ E) /\
      forall j, (1 <= j < k)%nat -> closeup_name j ext ∈ E.
Proof. apply next_closeup_from_spec. Qed.

Lemma generated_snoc calls c :
    generated (calls ++ [c]) =
    (generated calls ++ if cc_renamed c then [cc_new_filename c] else [])%list.
Proof.
    unfold generated. rewrite filter_app, map_app. f_equal.
    destruct (cc_renamed c) eqn:E.
    - rewrite filter_cons_True by (rewrite E; exact I). reflexivity.
    - rewrite filter_cons_False by (rewrite E; simpl; tauto). reflexivity.
Qed.

Lemma copied_snoc calls c :
    copied (calls ++ [c]) = (copied calls ++ if cc_ok c then [c] else [])%list.
Proof.
    unfold copied. rewrite filter_app. f_equal.
    destruct (cc_ok c) eqn:E.
    - rewrite filter_cons_True by (rewrite E; exact I). reflexivity.
    - rewrite filter_cons_False by (rewrite E; simpl; tauto). reflexivity.
Qed.

Section RunFacts.
Variable has_valid_face : string -> option bool.
Variable copy2 : string -> string -> bool.
Variable relpath : string -> string.
Variable failure : string -> string.
Variable output_dir : string.

Abbreviation step := (process_one has_valid_face copy2 relpath failure output_dir).
Abbreviation run := (process_from has_valid_face copy2 relpath failure output_dir).

    (** What holds of one call of [shutil.copy2] in a state [st]. *)
Definition call_ok (st : state) (c : copy_call) : Prop :=
      cc_ok c = copy2 (cc_src c) (cc_dst c) /\
      has_valid_face (cc_src c) = Some (negb (cc_renamed c)) /\
      (cc_ok c = false -> error_msg failure (cc_src c) ∈ errors st).

    (** The invariant of the loop over [image_files]. *)
Record inv (done : list string) (st : state) : Prop := {
      inv_names : forall n, n ∈ existing_names st <-> n ∈ generated (copy_calls st);
      inv_nodup : NoDup (generated (copy_calls st));
      inv_copies : forall pre c post,
        copy_calls st = (pre ++ c :: post)%list -> copy_ok output_dir pre c;
      inv_calls : forall c, c ∈ copy_calls st -> call_ok st c;
      inv_details :
        processing_details st = map (detail_of relpath) (copied (copy_calls st));
      inv_noface : forall img, img ∈ done -> has_valid_face img = Some false ->
        exists c, c ∈ copy_calls st /\ cc_src c = img /\ cc_renamed c = true;
      inv_face : forall img, img ∈ done -> has_valid_face img = Some true ->
        exists c, c ∈ copy_calls st /\ cc_src c = img /\
                  cc_new_filename c = PyStr.basename img
    }.

Lemma inv_initial : inv [] initial.
Proof.
      split; simpl.
      - intros n. unfold generated. simpl. set_solver.
      - constructor.
      - intros pre c post H. destruct pre; discriminate.
      - intros c H. inversion H.
      - reflexivity.
      - intros img H. inversion H.
      - intros img H. inversion H.
Qed.

Lemma snoc_split {A} (l pre post : list A) (x c : A) :
      (l ++ [x] = pre ++ c :: post)%list ->
      (post = [] /\ pre = l /\ c = x) \/
      (exists post', post = (post' ++ [x])%list /\ l = (pre ++ c :: post')%list).
Proof.
      intros H. destruct post as [|y post' _] using rev_ind.
  - left. apply (app_inj_tail l pre x c) in H as [-> ->]. tauto.
  - right. exists post'.
    change (pre ++ c :: post' ++ [y])%list
      with (pre ++ (c :: post') ++ [y])%list in H.
    rewrite app_assoc in H. apply app_inj_tail in H as [-> ->]. tauto.
Qed.

    (** The calls made so far stay as they are when the errors grow. *)
Lemma call_ok_mono st st' c :
      (forall m, m ∈ errors st -> m ∈ errors st') -> call_ok st c -> call_ok st' c.
Proof. intros Hsub (H1 & H2 & H3). repeat split; auto. Qed.

    (** The state after a copy was attempted: the call [c] is recorded, and
        the report grows by a detail or by an error. *)
Definition after_copy (st : state) (names : gset string) (c : copy_call)
        (st' : state) : Prop :=
      existing_names st' = names /\
      copy_calls st' = (copy_calls st ++ [c])%list /\
      if cc_ok c
      then processing_details st' = (processing_details st ++ [detail_of relpath c])%list /\
           errors st' = errors st
      else processing_details st' = processing_details st /\
           errors st' = (errors st ++ [error_msg failure (cc_src c)])%list.

Lemma step_copy st img has_face new_filename names :
      has_valid_face img = Some has_face ->
      (if has_face then Some (PyStr.basename img, existing_names st)
       else match next_closeup_name (existing_names st)
                    (snd (PyStr.splitext (PyStr.basename img))) with
            | Some n => Some (n, {[ n ]} ∪ existing_names st)
            | None => None
            end) = Some (new_filename, names) ->
      let c := CopyCall img new_filename (PyStr.join output_dir new_filename)
                 (negb has_face) (copy2 img (PyStr.join output_dir new_filename)) in
      after_copy st names c (step st img).
Proof.
      intros Hf Hc c. unfold process_one. rewrite Hf, Hc.
      unfold after_copy, c, detail_of. cbn [cc_ok cc_src cc_new_filename cc_renamed].
      destruct (copy2 img _); cbn; rewrite ?negb_involutive; auto.
Qed.

Lemma inv_after_copy done st names c st' :
      inv done st -> after_copy st names c st' ->
      cc_ok c = copy2 (cc_src c) (cc_dst c) ->
      has_valid_face (cc_src c) = Some (negb (cc_renamed c)) ->
      copy_ok output_dir (copy_calls st) c ->
      (forall n, n ∈ names <->
         n ∈ (generated (copy_calls st)
              ++ if cc_renamed c then [cc_new_filename c] else [])%list) ->
      (cc_renamed c = false -> cc_new_filename c = PyStr.basename (cc_src c)) ->
      inv (done ++ [cc_src c]) st'.
Proof.
      intros [Hnames Hnodup Hcopies Hcalls Hdet Hnoface Hface]
             (Hn' & Hc' & Hrep) Hok Hhas Hcopy Hnew Hkept.
      assert (Herrs : forall m, m ∈ errors st -> m ∈ errors st').
      { intros m Hm. destruct (cc_ok c); destruct Hrep as [_ ->]; [assumption|].
        apply elem_of_app. now left. }
      split.
      - intros n. rewrite Hn', Hc', generated_snoc. apply Hnew.
      - rewrite Hc', generated_snoc. destruct (cc_renamed c) eqn:Er.
        + apply NoDup_app. split; [assumption|]. split; [|apply NoDup_singleton].
          intros x Hx Hx'. apply list_elem_of_singleton in Hx'. subst x.
          destruct Hcopy as [_ Hmin]. rewrite Er in Hmin.
          destruct Hmin as (i & _ & Hi & Hfree & _). rewrite Hi in Hx. contradiction.
        + now rewrite app_nil_r.
      - rewrite Hc'. intros pre c0 post H.
        apply snoc_split in H as [(-> & -> & ->)|(post' & -> & H)].
        + exact Hcopy.
        + eapply Hcopies; eassumption.
      - rewrite Hc'. intros c0 Hc0. apply elem_of_app in Hc0 as [Hc0|Hc0].
        + eapply call_ok_mono; [exact Herrs|]. now apply Hcalls.
        + apply list_elem_of_singleton in Hc0. subst c0.
          split; [assumption|]. split; [assumption|].
          intros Hfalse. rewrite Hfalse in Hrep. destruct Hrep as [_ ->].
          apply elem_of_app. right. now apply list_elem_of_singleton.
      - rewrite Hc', copied_snoc, map_app.
        destruct (cc_ok c); destruct Hrep as [-> _]; rewrite Hdet.
        + reflexivity.
        + cbn. now rewrite app_nil_r.
      - intros x Hx Hfx. rewrite Hc'. apply elem_of_app in Hx as [Hx|Hx].
        + destruct (Hnoface x Hx Hfx) as (c0 & Hc0 & ?). exists c0.
          split; [apply elem_of_app; now left|tauto].
        + apply list_elem_of_singleton in Hx. subst x. exists c.
          split; [apply elem_of_app; right; now apply list_elem_of_singleton|].
          split; [reflexivity|]. rewrite Hhas in Hfx. injection Hfx as Hfx.
          now destruct (cc_renamed c).
      - intros x Hx Hfx. rewrite Hc'. apply elem_of_app in Hx as [Hx|Hx].
        + destruct (Hface x Hx Hfx) as (c0 & Hc0 & ?). exists c0.
          split; [apply elem_of_app; now left|tauto].
        + apply list_elem_of_singleton in Hx. subst x. exists c.
          split; [apply elem_of_app; right; now apply list_elem_of_singleton|].
          split; [reflexivity|]. apply Hkept. rewrite Hhas in Hfx.
          injection Hfx as Hfx. now destruct (cc_renamed c).
Qed.

Lemma inv_step done st img :
      inv done st -> inv (done ++ [img]) (step st img).
Proof.
      intros Hinv. destruct (has_valid_face img) as [has_face|] eqn:Hf.
      - destruct has_face.
        + (* a face: the name is kept *)
          pose proof (step_copy st img true _ _ Hf eq_refl) as Hafter.
          cbn zeta in Hafter.
          apply (inv_after_copy _ _ _ _ _ Hinv Hafter);
            cbn [cc_src cc_new_filename cc_renamed cc_ok cc_dst negb];
            try reflexivity; try assumption.
          * split; reflexivity.
          * intros n. rewrite app_nil_r. apply (inv_names _ _ Hinv).
        + (* no face: a closeup name is generated *)
          destruct (next_closeup_name (existing_names st)
                      (snd (PyStr.splitext (PyStr.basename img)))) as [n|] eqn:Hn.
          2:{ destruct (next_closeup_name_total (existing_names st)
                          (snd (PyStr.splitext (PyStr.basename img)))); congruence. }
          pose proof (next_closeup_name_spec _ _ _ Hn) as (k & Hk & Hnk & Hfree & Hbelow).
          assert (Hafter := step_copy st img false n ({[ n ]} ∪ existing_names st) Hf).
          rewrite Hn in Hafter. specialize (Hafter eq_refl). cbn zeta in Hafter.
          apply (inv_after_copy _ _ _ _ _ Hinv Hafter);
            cbn [cc_src cc_new_filename cc_renamed cc_ok cc_dst negb];
            try reflexivity; try assumption.
          * split; [reflexivity|]. cbn [cc_renamed negb]. unfold closeup_minimal.
            cbn [cc_src cc_new_filename]. exists k.
            split; [assumption|]. split; [assumption|]. split.
            -- rewrite <- Hnk. intros Hin. apply Hfree. now apply (inv_names _ _ Hinv).
            -- intros j Hj. apply (inv_names _ _ Hinv). now apply Hbelow.
          * intros x.
            rewrite elem_of_union, elem_of_singleton, elem_of_app, list_elem_of_singleton.
            rewrite (inv_names _ _ Hinv). tauto.
          * discriminate.
      - (* the detector raised: nothing is copied *)
        destruct Hinv as [Hnames Hnodup Hcopies Hcalls Hdet Hnoface Hface].
        unfold process_one. rewrite Hf.
        split; simpl; try assumption.
        + intros c Hc. eapply call_ok_mono; [|now apply Hcalls].
          cbn. intros m Hm. apply elem_of_app. now left.
        + intros x Hx Hfx. apply elem_of_app in Hx as [Hx|Hx]; [now apply Hnoface|].
          apply list_elem_of_singleton in Hx. subst x. congruence.
        + intros x Hx Hfx. apply elem_of_app in Hx as [Hx|Hx]; [now apply Hface|].
          apply list_elem_of_singleton in Hx. subst x. congruence.
Qed.

Lemma inv_run files done st :
      inv done st -> inv (done ++ files) (run st files).
Proof.
      revert done st. induction files as [|img files IH]; intros done st H; simpl.
      - now rewrite app_nil_r.
      - change (done ++ img :: files)%list with (done ++ [img] ++ files)%list.
        rewrite app_assoc. apply IH. now apply inv_step.
Qed.
End RunFacts.

End RenameFacts.

(** C10, as the code has it.  In one run of [process_images], every image
    without a valid face is handed to [shutil.copy2] with the destination
    [closeup(i){ext}] in the output directory, [i] being the smallest
    positive index whose name was not generated earlier in the run, whether
    or not the earlier copy went through; an image with a face is handed
    over under its own file name.  The image is copied out exactly when that
    call does not raise: the entries of [processing_details] are those of
    the calls that went through, and a call that raised leaves its message
    in [errors].  The generated names are pairwise distinct, and a generated
    name can still coincide with a kept original name. *)
Theorem rename_closeup_names :
  (forall has_valid_face copy2 relpath failure output_dir walk,
     let st := Rename.process_images has_valid_face copy2 relpath failure
                 output_dir walk in
     (forall img, img ∈ Rename.collect_images walk ->
        has_valid_face img = Some false ->
        exists c, c ∈ Rename.copy_calls st /\ Rename.cc_src c = img /\
                  Rename.cc_renamed c = true) /\
     (forall pre c post, Rename.copy_calls st = (pre ++ c :: post)%list ->
        copy_ok output_dir pre c /\
        Rename.cc_ok c = copy2 (Rename.cc_src c) (Rename.cc_dst c) /\
        has_valid_face (Rename.cc_src c) = Some (negb (Rename.cc_renamed c)) /\
        (Rename.cc_ok c = false ->
         Rename.error_msg failure (Rename.cc_src c) ∈ Rename.errors st)) /\
     Rename.processing_details st =
       map (detail_of relpath) (copied (Rename.copy_calls st)) /\
     NoDup (Rename.generated (Rename.copy_calls st))) /\
  (exists has_valid_face copy2 relpath failure output_dir walk n,
     let st := Rename.process_images has_valid_face copy2 relpath failure
                 output_dir walk in
     n ∈ Rename.generated (Rename.copy_calls st) /\
     n ∈ Rename.kept (Rename.copy_calls st)).
Proof.
  split.
  - intros has_valid_face copy2 relpath failure output_dir walk st.
    pose proof (inv_run has_valid_face copy2 relpath failure output_dir
                  (Rename.collect_images walk) [] Rename.initial
                  (inv_initial has_valid_face copy2 relpath failure output_dir))
      as [_ Hnodup Hcopies Hcalls Hdet Hnoface _].
    simpl in Hnoface.
    fold (Rename.process_images has_valid_face copy2 relpath failure output_dir walk) in *.
    fold st in Hnodup, Hcopies, Hcalls, Hdet, Hnoface.
    split; [exact Hnoface|]. split; [|split; assumption].
    intros pre c post H. split; [now apply (Hcopies pre c post)|].
    apply Hcalls. rewrite H. apply elem_of_app. right. now left.
  - exists (fun p => Some (String.eqb p "in/closeup(1).jpg")),
      (fun _ _ => true), (fun p => p), (fun _ => ""), "out",
      [("in", ["closeup(1).jpg"; "b.jpg"])], "closeup(1).jpg".
    vm_compute. split; [left|left].
Qed.

(** C10, as the claim words it, fails on a copy that raises.  Of two images
    without a face the first cannot be read: its copy to [closeup(1).png]
    raises, so it is not copied out but reported in [errors], and the second
    image goes out as [closeup(2).png]. *)
Lemma closeup_copy_may_fail :
  Rename.collect_images [("in", ["a.png"; "b.png"])] = ["in/a.png"; "in/b.png"] /\
  Rename.copy_calls
    (Rename.process_images (fun _ => Some false)
       (fun src _ => negb (String.eqb src "in/a.png"))
       (fun p => PyStr.basename p)
       (fun _ => "[Errno 13] Permission denied: 'in/a.png'") "out"
       [("in", ["a.png"; "b.png"])]) =
    [ Rename.CopyCall "in/a.png" "closeup(1).png" "out/closeup(1).png" true false;
      Rename.CopyCall "in/b.png" "closeup(2).png" "out/closeup(2).png" true true ] /\
  Rename.processing_details
    (Rename.process_images (fun _ => Some false)
       (fun src _ => negb (String.eqb src "in/a.png"))
       (fun p => PyStr.basename p)
       (fun _ => "[Errno 13] Permission denied: 'in/a.png'") "out"
       [("in", ["a.png"; "b.png"])]) =
    [ Rename.Detail "b.png" "closeup(2).png" true false ] /\
  Rename.errors
    (Rename.process_images (fun _ => Some false)
       (fun src _ => negb (String.eqb src "in/a.png"))
       (fun p => PyStr.basename p)
       (fun _ => "[Errno 13] Permission denied: 'in/a.png'") "out"
       [("in", ["a.png"; "b.png"])]) =
    [ "Error processing in/a.png: [Errno 13] Permission denied: 'in/a.png'" ].
Proof. vm_compute. repeat split. Qed.

Lemma lower_app (a b : string) : PyStr.lower (a ++ b) = PyStr.lower a ++ PyStr.lower b.
Proof.
  apply chars_inj. rewrite chars_app. unfold PyStr.lower, PyStr.of_chars, PyStr.chars.
  rewrite !list_ascii_of_string_of_list_ascii.
  fold (PyStr.chars (a ++ b)). rewrite chars_app. apply map_app.
Qed.

Lemma endswith_app (a suf : string) : PyStr.endswith (a ++ suf) suf = true.
Proof.
  unfold PyStr.endswith. apply bool_decide_eq_true.
  rewrite chars_app. now apply suffix_app_r.
Qed.

(** ** workflow_service.py: the pairing step *)

Section Pairing.
Variable env : Env.

Lemma mask_name_is_image (base : string) :
  is_image_name (base ++ ".jpg") /\ is_image_name (base ++ ".png").
Proof.
  unfold is_image_name, PyStr.endswith_any, Workflow.style_exts.
  rewrite !lower_app. simpl existsb.
  change (PyStr.lower ".jpg") with ".jpg".
  change (PyStr.lower ".png") with ".png".
  rewrite !endswith_app. rewrite orb_true_r. simpl. split; exact I.
Qed.

Lemma mask_files_mem (masks : list string) (base : string) :
  (base ++ ".jpg" ∈ filter is_image_name masks <-> base ++ ".jpg" ∈ masks) /\
  (base ++ ".png" ∈ filter is_image_name masks <-> base ++ ".png" ∈ masks).
Proof.
  destruct (mask_name_is_image base) as [Hj Hp].
  rewrite !list_elem_of_filter. tauto.
Qed.

Lemma mask_for_test (masks : list string) (img : string) :
  let mask_files := filter is_image_name masks in
  let mask_jpg := fst (PyStr.splitext img) ++ ".jpg" in
  let mask_png := fst (PyStr.splitext img) ++ ".png" in
  match mask_for masks img with
  | Some m =>
      bool_decide (mask_jpg ∈ mask_files) || bool_decide (mask_png ∈ mask_files) = true
      /\ (if bool_decide (mask_jpg ∈ mask_files) then mask_jpg else mask_png) = m
  | None =>
      bool_decide (mask_jpg ∈ mask_files) || bool_decide (mask_png ∈ mask_files) = false
  end.
Proof.
  intros mask_files mask_jpg mask_png.
  destruct (mask_files_mem masks (fst (PyStr.splitext img))) as [Hj Hp].
  fold mask_jpg mask_png mask_files in Hj, Hp.
  unfold mask_for. fold mask_jpg mask_png.
  destruct (decide (mask_jpg ∈ masks)) as [H1|H1].
  - rewrite (bool_decide_eq_true_2 _ (proj2 Hj H1)). split; reflexivity.
  - rewrite (bool_decide_eq_false_2 _ (fun H => H1 (proj1 Hj H))).
    destruct (decide (mask_png ∈ masks)) as [H2|H2].
    + rewrite (bool_decide_eq_true_2 _ (proj2 Hp H2)). split; reflexivity.
    + rewrite (bool_decide_eq_false_2 _ (fun H => H2 (proj1 Hp H))). reflexivity.
Qed.

Lemma find_pairs_spec (masks inputs : list string) (w : World) :
  Workflow.find_pairs (filter is_image_name masks) inputs w =
  (Ok (omap (fun img => pair img <$> mask_for masks img) inputs),
   {| now := now w; heap := heap w; trace := trace w;
      log := (log w ++ map (pairing_entry masks) inputs)%list;
      files := files w |}).
Proof.
  revert w. induction inputs as [|img rest IH]; intros w.
  - simpl. unfold ret. rewrite app_nil_r. now destruct w.
  - cbn [Workflow.find_pairs map omap list_omap].
    pose proof (mask_for_test masks img) as Ht. cbv zeta in Ht.
    unfold pairing_entry at 1.
    destruct (mask_for masks img) as [m|].
    + destruct Ht as [-> ->]. cbn [fmap option_fmap option_map].
      unfold bind at 1, logm at 1. unfold bind at 1. rewrite IH.
      unfold ret. cbn [now heap trace log files]. rewrite <- app_assoc. reflexivity.
    + rewrite Ht. cbn [fmap option_fmap option_map].
      unfold bind at 1, logm at 1. rewrite IH.
      cbn [now heap trace log files]. rewrite <- app_assoc. reflexivity.
Qed.

Lemma paired_or_skipped (masks inputs : list string) :
  (length (omap (fun img => pair img <$> mask_for masks img) inputs)
   + length (filter (fun img => mask_for masks img = None) inputs))%nat
  = length inputs.
Proof.
  induction inputs as [|img rest IH]; [reflexivity|].
  cbn [omap list_omap]. rewrite filter_cons.
  destruct (mask_for masks img) as [m|]; cbn [fmap option_fmap option_map].
  - rewrite decide_False by discriminate. cbn [length].
    rewrite <- IH. reflexivity.
  - rewrite decide_True by reflexivity. cbn [length].
    rewrite <- IH. rewrite Nat.add_succ_r. reflexivity.
Qed.

End Pairing.

(** C8, amended.  The pairing step pairs an input image with
    [{base}.jpg], else [{base}.png], out of the mask directory, exactly when
    one of the two is there; every other input is skipped with a warning;
    pairs and skipped inputs add up to the inputs.  The batch goes on with
    the pairs found, and aborts only when there is none. *)
Theorem pairing_by_base_name (env : Env) (input_folder mask_folder : string)
    (names masks : list string) (w : World) :
  listdir env input_folder = Some names ->
  listdir env mask_folder = Some masks ->
  let inputs := filter is_image_name names in
  let pairs := omap (fun img => pair img <$> mask_for masks img) inputs in
  let skipped := filter (fun img => mask_for masks img = None) inputs in
  (forall img m, (img, m) ∈ pairs <->
     img ∈ inputs /\
     let base := fst (PyStr.splitext img) in
     (m = base ++ ".jpg" /\ m ∈ masks \/
      m = base ++ ".png" /\ m ∈ masks /\ base ++ ".jpg" ∉ masks)) /\
  (length pairs + length skipped)%nat = length inputs /\
  exists w',
    Workflow.pairing_step env input_folder mask_folder w =
      (match pairs with
       | [] => Raise (BatchError NoMatchingPairs)
       | _ => Ok pairs
       end, w') /\
    log w' = (log w ++ map (pairing_entry masks) inputs)%list /\
    Forall (fun img => (WARNING, NoMaskFound img) ∈ log w') skipped /\
    heap w' = heap w /\ trace w' = trace w /\ files w' = files w.
Proof.
  intros Hin Hmask inputs pairs skipped.
  split; [|split; [apply paired_or_skipped|]].
  - intros img m. unfold pairs. rewrite list_elem_of_omap. split.
    + intros (x & Hx & Hm). unfold mask_for in Hm.
      destruct (decide (fst (PyStr.splitext x) ++ ".jpg" ∈ masks)) as [H1|H1];
        [|destruct (decide (fst (PyStr.splitext x) ++ ".png" ∈ masks)) as [H2|H2]];
        simpl in Hm; try discriminate; injection Hm as <- <-; split; auto.
    + intros (Hx & Hm). exists img. split; [assumption|]. simpl in Hm.
      unfold mask_for.
      destruct Hm as [(-> & H1)|(-> & H2 & H1)].
      * destruct (decide (fst (PyStr.splitext img) ++ ".jpg" ∈ masks)); [reflexivity|tauto].
      * destruct (decide (fst (PyStr.splitext img) ++ ".jpg" ∈ masks)); [tauto|].
        destruct (decide (fst (PyStr.splitext img) ++ ".png" ∈ masks)); [reflexivity|tauto].
  - unfold Workflow.pairing_step, Workflow.list_images. rewrite Hin, Hmask.
    unfold bind at 1, ret at 1. unfold bind at 1, ret at 1. unfold bind at 1.
    pose proof (find_pairs_spec masks inputs w) as Hfp.
    fold pairs in Hfp. unfold inputs, is_image_name in Hfp.
    rewrite Hfp. clear Hfp.
    eexists. split.
    { destruct pairs; reflexivity. }
    simpl. split; [reflexivity|]. split; [|auto].
    apply Forall_forall. intros img Himg. unfold skipped in Himg.
    apply list_elem_of_filter in Himg as [Hnone Himg].
    apply elem_of_app. right. apply list_elem_of_fmap. exists img.
    split; [|assumption]. unfold pairing_entry. now rewrite Hnone.
Qed.

(** ** The object store *)

Section JsonInduction.
Variable P : json -> Prop.
Hypothesis Hnull : P JNull.
Hypothesis Hbool : forall b, P (JBool b).
Hypothesis Hnum : forall z, P (JNum z).
Hypothesis Hstr : forall s, P (JStr s).
Hypothesis Harr : forall xs, Forall P xs -> P (JArr xs).
Hypothesis Hobj : forall items, Forall (fun kv => P (snd kv)) items -> P (JObj items).

Fixpoint json_induction (j : json) : P j :=
  match j with
  | JNull => Hnull
  | JBool b => Hbool b
  | JNum z => Hnum z
  | JStr s => Hstr s
  | JArr xs =>
      Harr xs ((fix go (xs : list json) : Forall P xs :=
                  match xs with
                  | [] => @List.Forall_nil _ P
                  | x :: r => @List.Forall_cons _ P x r (json_induction x) (go r)
                  end) xs)
  | JObj items =>
      Hobj items
        ((fix go (items : list (string * json))
            : Forall (fun kv => P (snd kv)) items :=
            match items with
            | [] => @List.Forall_nil _ _
            | kv :: r => @List.Forall_cons _ _ kv r (json_induction (snd kv)) (go r)
            end) items)
  end.
End JsonInduction.

Lemma loads_arr xs h :
  Obj.loads (JArr xs) h =
  let '(h1, vs) := loads_list xs h in ((h1 ++ [PList vs])%list, PRef (length h1)).
Proof. reflexivity. Qed.

Lemma loads_obj items h :
  Obj.loads (JObj items) h =
  let '(h1, kvs) := loads_items items h in ((h1 ++ [PDict kvs])%list, PRef (length h1)).
Proof. reflexivity. Qed.

Lemma loads_items_list items h :
  loads_items items h =
  (fst (loads_list (map snd items) h),
   zip (map fst items) (snd (loads_list (map snd items) h))).
Proof.
  revert h. induction items as [|[k x] items IH]; intros h; [reflexivity|].
  cbn [loads_items loads_list map fst snd].
  destruct (Obj.loads x h) as [h1 v].
  fold loads_items. fold loads_list. rewrite IH.
  destruct (loads_list (map snd items) h1) as [h2 vs]. reflexivity.
Qed.

(** A tree only depends on the objects of its footprint. *)
Lemma tree_frame h h' :
  (forall j v fp, tree h j v fp ->
     (forall l, l ∈ fp -> h' !! l = h !! l) -> tree h' j v fp) /\
  (forall js vs fp, trees h js vs fp ->
     (forall l, l ∈ fp -> h' !! l = h !! l) -> trees h' js vs fp).
Proof.
  apply tree_trees_ind.
  - constructor.
  - constructor.
  - constructor.
  - constructor.
  - intros l xs pvs fp Hl _ IH Hsame. econstructor.
    + rewrite Hsame; [exact Hl|left].
    + apply IH. intros. apply Hsame. now right.
  - intros l kvs pkvs fp Hl Hk _ IH Hsame. econstructor.
    + rewrite Hsame; [exact Hl|left].
    + exact Hk.
    + apply IH. intros. apply Hsame. now right.
  - constructor.
  - intros j js v vs f fs _ IH1 _ IH2 Hsame. constructor.
    + apply IH1. intros. apply Hsame. apply elem_of_app. auto.
    + apply IH2. intros. apply Hsame. apply elem_of_app. auto.
Qed.

Lemma above_mono n m v : (n <= m)%nat -> above m v -> above n v.
Proof. destruct v; simpl; auto. lia. Qed.

Lemma trees_length h js vs fp : trees h js vs fp -> length js = length vs.
Proof. induction 1; simpl; congruence. Qed.

Lemma loads_list_spec xs :
  Forall (fun x => forall h, fresh_load h x) xs ->
  forall h, exists objs vs fp,
    loads_list xs h = ((h ++ objs)%list, vs) /\
    trees (h ++ objs) xs vs fp /\ NoDup fp /\
    (forall l, l ∈ fp -> (length h <= l < length h + length objs)%nat) /\
    Forall (above (length h)) vs /\
    Forall (fun o => Forall (above (length h)) (ovals o)) objs.
Proof.
  induction 1 as [|x xs Hx _ IH]; intros h.
  - exists [], [], []. rewrite app_nil_r. repeat split.
    + constructor.
    + constructor.
    + inversion H.
    + inversion H.
    + constructor.
    + constructor.
  - destruct (Hx h) as (o1 & v & f1 & E1 & T1 & N1 & B1 & A1 & C1).
    destruct (IH (h ++ o1)%list) as (o2 & vs & f2 & E2 & T2 & N2 & B2 & A2 & C2).
    exists (o1 ++ o2)%list, (v :: vs), (f1 ++ f2)%list.
    rewrite length_app in B2, A2, C2.
    cbn [loads_list]. rewrite E1. fold loads_list. rewrite E2.
    rewrite <- app_assoc. repeat split.
    + rewrite app_assoc. constructor; [|assumption].
      apply (proj1 (tree_frame (h ++ o1) ((h ++ o1) ++ o2)) _ _ _ T1).
      intros l Hl. apply lookup_app_l. rewrite length_app. apply B1 in Hl. lia.
    + apply NoDup_app. repeat split; [assumption| |assumption].
      intros l Hl1 Hl2. apply B1 in Hl1. apply B2 in Hl2. lia.
    + apply elem_of_app in H as [Hl|Hl]; [apply B1 in Hl|apply B2 in Hl]; lia.
    + rewrite length_app.
      apply elem_of_app in H as [Hl|Hl]; [apply B1 in Hl|apply B2 in Hl]; lia.
    + constructor; [assumption|].
      eapply Forall_impl; [exact A2|]. intros y. apply above_mono. lia.
    + apply Forall_app. split; [assumption|].
      eapply Forall_impl; [exact C2|]. intros o Ho.
      eapply Forall_impl; [exact Ho|]. intros y. apply above_mono. lia.
Qed.

(** [json.loads] builds a fresh tree. *)
Lemma loads_spec j : forall h, fresh_load h j.
Proof.
  induction j as [| | | |xs IH|items IH] using json_induction; intros h.
  1-4: eexists [], _, []; rewrite app_nil_r; simpl;
       (split; [reflexivity|]);
       (split; [constructor|]); (split; [constructor|]);
       (split; [intros l Hl; inversion Hl|]); (split; [exact I|constructor]).
  - destruct (loads_list_spec xs IH h) as (objs & vs & fp & E & T & N & B & A & C).
    exists (objs ++ [PList vs])%list, (PRef (length (h ++ objs))),
      (length (h ++ objs) :: fp).
    rewrite loads_arr, E. rewrite <- app_assoc. repeat split.
    + rewrite app_assoc. econstructor.
      * apply list_lookup_middle. reflexivity.
      * apply (proj2 (tree_frame (h ++ objs) ((h ++ objs) ++ [PList vs])) _ _ _ T).
        intros l Hl. apply lookup_app_l. rewrite length_app. apply B in Hl. lia.
    + constructor; [|assumption]. intros Hin. apply B in Hin.
      rewrite length_app in Hin. lia.
    + apply elem_of_cons in H as [->|Hl]; [rewrite length_app|apply B in Hl]; lia.
    + rewrite length_app. simpl.
      apply elem_of_cons in H as [->|Hl]; [rewrite length_app|apply B in Hl]; lia.
    + simpl. rewrite length_app. lia.
    + apply Forall_app. split; [assumption|]. constructor; [exact A|constructor].
  - assert (IH' : Forall (fun x => forall h, fresh_load h x) (map snd items)).
    { apply Forall_fmap. exact IH. }
    destruct (loads_list_spec _ IH' h) as (objs & vs & fp & E & T & N & B & A & C).
    pose proof (trees_length _ _ _ _ T) as Hlen. rewrite length_map in Hlen.
    exists (objs ++ [PDict (zip (map fst items) vs)])%list,
      (PRef (length (h ++ objs))), (length (h ++ objs) :: fp).
    rewrite loads_obj, loads_items_list, E. cbn [fst snd].
    rewrite <- app_assoc. repeat split.
    + rewrite app_assoc. econstructor.
      * apply list_lookup_middle. reflexivity.
      * apply fst_zip. rewrite length_map. lia.
      * rewrite snd_zip by (rewrite length_map; lia).
        apply (proj2 (tree_frame (h ++ objs) ((h ++ objs) ++ [PDict (zip (map fst items) vs)]))
                 _ _ _ T).
        intros l Hl. apply lookup_app_l. rewrite length_app. apply B in Hl. lia.
    + constructor; [|assumption]. intros Hin. apply B in Hin.
      rewrite length_app in Hin. lia.
    + apply elem_of_cons in H as [->|Hl]; [rewrite length_app|apply B in Hl]; lia.
    + rewrite length_app. simpl.
      apply elem_of_cons in H as [->|Hl]; [rewrite length_app|apply B in Hl]; lia.
    + simpl. rewrite length_app. lia.
    + apply Forall_app. split; [assumption|]. constructor; [|constructor].
      simpl. rewrite snd_zip by (rewrite length_map; lia). exact A.
Qed.

(** ** Running computations *)

Lemma bind_inv {A B} (m : M A) (k : A -> M B) w r w' :
  bind m k w = (r, w') ->
  (exists a w1, m w = (Ok a, w1) /\ k a w1 = (r, w')) \/
  (exists e, m w = (Raise e, w') /\ r = Raise e).
Proof.
  unfold bind. destruct (m w) as [[a|e] w1]; intros H.
  - left. eauto.
  - right. injection H as <- <-. eauto.
Qed.

Lemma bind_ok {A B} (m : M A) (k : A -> M B) w b w' :
  bind m k w = (Ok b, w') ->
  exists a w1, m w = (Ok a, w1) /\ k a w1 = (Ok b, w').
Proof.
  intros H. apply bind_inv in H as [H|(e & _ & H)]; [assumption|discriminate].
Qed.

Lemma bind_run {A B} (m : M A) (k : A -> M B) w a w1 :
  m w = (Ok a, w1) -> bind m k w = k a w1.
Proof. unfold bind. now intros ->. Qed.

Lemma bind_run_raise {A B} (m : M A) (k : A -> M B) w e w1 :
  m w = (Raise e, w1) -> bind m k w = (Raise e, w1).
Proof. unfold bind. now intros ->. Qed.

Lemma try_inv {A} (m : M A) (handler : exn -> M A) w r w' :
  try_except m handler w = (r, w') ->
  (exists a, m w = (Ok a, w') /\ r = Ok a) \/
  (exists e w1, m w = (Raise e, w1) /\ handler e w1 = (r, w')).
Proof.
  unfold try_except. destruct (m w) as [[a|e] w1]; intros H.
  - left. injection H as <- <-. eauto.
  - right. eauto.
Qed.

Lemma lift_inv {A} (x : result A) w r w' : lift x w = (r, w') -> r = x /\ w' = w.
Proof. unfold lift. intros H. injection H as <- <-. auto. Qed.

Lemma ret_inv {A} (a : A) w r w' : ret a w = (r, w') -> r = Ok a /\ w' = w.
Proof. unfold ret. intros H. injection H as <- <-. auto. Qed.

Lemma raise_inv {A} (e : exn) w (r : result A) w' :
  raise e w = (r, w') -> r = Raise e /\ w' = w.
Proof. unfold raise. intros H. injection H as <- <-. auto. Qed.

Lemma rbind_ok {A B} (x : result A) (k : A -> result B) b :
  rbind x k = Ok b -> exists a, x = Ok a /\ k a = Ok b.
Proof. destruct x; simpl; [eauto|discriminate]. Qed.

(** ** Footprints *)

Lemma heap_within_refl keep h : heap_within keep h h.
Proof. destruct keep; simpl; auto. Qed.

Lemma heap_within_trans keep h1 h2 h3 :
  heap_within keep h1 h2 -> heap_within keep h2 h3 -> heap_within keep h1 h3.
Proof.
  destruct keep; simpl; [|congruence].
  intros H1 H2 l Hl. rewrite H2, H1; auto.
Qed.

Lemma within_refl fp w : within fp w w.
Proof.
  split; [apply heap_within_refl|].
  repeat split; try (exists []; rewrite app_nil_r; split; [reflexivity|constructor]).
  lia.
Qed.

Lemma within_trans fp w1 w2 w3 :
  within fp w1 w2 -> within fp w2 w3 -> within fp w1 w3.
Proof.
  intros (H1 & (l1 & El1 & Fl1) & (t1 & Et1 & Ft1) & (f1 & Ef1 & Ff1) & N1)
         (H2 & (l2 & El2 & Fl2) & (t2 & Et2 & Ft2) & (f2 & Ef2 & Ff2) & N2).
  split; [eapply heap_within_trans; eassumption|].
  split; [exists (l1 ++ l2)%list; rewrite El2, El1, app_assoc; split;
          [reflexivity|now apply Forall_app]|].
  split; [exists (t1 ++ t2)%list; rewrite Et2, Et1, app_assoc; split;
          [reflexivity|now apply Forall_app]|].
  split; [exists (f1 ++ f2)%list; rewrite Ef2, Ef1, app_assoc; split;
          [reflexivity|now apply Forall_app]|].
  lia.
Qed.

Lemma within_le fp fp' w w' : fp_le fp fp' -> within fp w w' -> within fp' w w'.
Proof.
  intros (Hh & Hl & Hr & Hf)
         (H1 & (l1 & El1 & Fl1) & (t1 & Et1 & Ft1) & (f1 & Ef1 & Ff1) & N1).
  split.
  { destruct Hh as [Hh|Hh]; [|now rewrite <- Hh].
    rewrite Hh in H1. simpl in H1. rewrite H1. apply heap_within_refl. }
  split; [exists l1; split; [assumption|eapply Forall_impl; [exact Fl1|]; intros; now apply Hl]|].
  split; [exists t1; split; [assumption|eapply Forall_impl; [exact Ft1|]; intros; now apply Hr]|].
  split; [exists f1; split; [assumption|eapply Forall_impl; [exact Ff1|]; intros; now apply Hf]|].
  assumption.
Qed.

Lemma pre_heap fp w w' : heap w' = heap w -> pre fp w -> pre fp w'.
Proof. unfold pre. intros ->. auto. Qed.

Lemma pre_le fp fp' w : fp_le fp fp' -> pre fp' w -> pre fp w.
Proof.
  intros ([Hh|Hh] & _); unfold pre; now rewrite Hh.
Qed.

Lemma stays_le {A} fp fp' (m : M A) : stays fp m -> fp_le fp fp' -> stays fp' m.
Proof.
  intros Hm Hle w r w' Hpre H.
  destruct (Hm w r w' (pre_le _ _ _ Hle Hpre) H) as [Hw Hpre'].
  split; [eapply within_le; eassumption|].
  destruct Hle as ([Hh|Hh] & _).
  - destruct Hw as (Hheap & _). rewrite Hh in Hheap. simpl in Hheap.
    eapply pre_heap; [exact Hheap|assumption].
  - unfold pre in *. now rewrite <- Hh.
Qed.

(** A step that leaves the store alone. *)
Lemma step_same_heap fp w w' :
  heap w' = heap w ->
  (exists added, log w' = (log w ++ added)%list /\
                 Forall (fun e => fp_log fp (snd e)) added) ->
  (exists added, trace w' = (trace w ++ added)%list /\ Forall (fp_req fp) added) ->
  (exists added, files w' = (files w ++ added)%list /\
                 Forall (fun f => fp_file fp (fst f)) added) ->
  now w <= now w' ->
  pre fp w -> within fp w w' /\ pre fp w'.
Proof.
  intros Hh Hl Ht Hf Hn Hpre. split; [|eapply pre_heap; eassumption].
  split; [rewrite Hh; apply heap_within_refl|auto].
Qed.

Ltac no_addition := exists []; rewrite app_nil_r; split; [reflexivity|constructor].

Section Stays.
Variable fp : footprint.

Lemma stays_same {A} (m : M A) :
  (forall w, snd (m w) = w) -> stays fp m.
Proof.
  intros Hm w r w' Hpre H. pose proof (Hm w) as E. rewrite H in E. simpl in E.
  subst w'. split; [apply within_refl|assumption].
Qed.

Lemma stays_ret {A} (a : A) : stays fp (ret a).
Proof. now apply stays_same. Qed.

Lemma stays_raise {A} (e : exn) : stays fp (@raise A e).
Proof. now apply stays_same. Qed.

Lemma stays_lift {A} (x : result A) : stays fp (lift x).
Proof. now apply stays_same. Qed.

Lemma stays_time : stays fp time.
Proof. now apply stays_same. Qed.

Lemma stays_get_heap : stays fp get_heap.
Proof. now apply stays_same. Qed.

Lemma stays_serialise v : stays fp (serialise v).
Proof. now apply stays_same. Qed.

Lemma stays_bind_post {A B} (Q : A -> Prop) (m : M A) (k : A -> M B) :
  stays fp m ->
  (forall w a w1, pre fp w -> m w = (Ok a, w1) -> Q a) ->
  (forall a, Q a -> stays fp (k a)) ->
  stays fp (bind m k).
Proof.
  intros Hm HQ Hk w r w' Hpre H.
  apply bind_inv in H as [(a & w1 & E & H)|(e & E & ->)].
  - destruct (Hm _ _ _ Hpre E) as [Hw1 Hpre1].
    destruct (Hk a (HQ _ _ _ Hpre E) _ _ _ Hpre1 H) as [Hw2 Hpre2].
    split; [eapply within_trans; eassumption|assumption].
  - eapply Hm; eassumption.
Qed.

Lemma stays_bind {A B} (m : M A) (k : A -> M B) :
  stays fp m -> (forall a, stays fp (k a)) -> stays fp (bind m k).
Proof.
  intros Hm Hk. apply (stays_bind_post (fun _ => True)); auto.
Qed.

Lemma stays_try {A} (m : M A) (handler : exn -> M A) :
  stays fp m -> (forall e, stays fp (handler e)) -> stays fp (try_except m handler).
Proof.
  intros Hm Hk w r w' Hpre H.
  apply try_inv in H as [(a & E & ->)|(e & w1 & E & H)].
  - eapply Hm; eassumption.
  - destruct (Hm _ _ _ Hpre E) as [Hw1 Hpre1].
    destruct (Hk e _ _ _ Hpre1 H) as [Hw2 Hpre2].
    split; [eapply within_trans; eassumption|assumption].
Qed.

Lemma stays_logm lvl ev : fp_log fp ev -> stays fp (logm lvl ev).
Proof.
  intros Hev w r w' Hpre H. injection H as <- <-.
  apply step_same_heap; simpl; auto; try no_addition; try lia.
  exists [(lvl, ev)]. split; [reflexivity|repeat constructor; exact Hev].
Qed.

Lemma stays_sleep d : stays fp (sleep d).
Proof.
  intros w r w' Hpre H. unfold sleep in H.
  destruct (d <? 0) eqn:E; injection H as <- <-.
  - split; [apply within_refl|assumption].
  - apply Z.ltb_ge in E.
    apply step_same_heap; simpl; auto; try no_addition; lia.
Qed.

Lemma stays_http env rq : fp_req fp rq -> stays fp (http env rq).
Proof.
  intros Hrq w r w' Hpre H. injection H as <- <-.
  apply step_same_heap; simpl; auto; try no_addition; try lia.
  exists [rq]. split; [reflexivity|repeat constructor; exact Hrq].
Qed.

Lemma stays_write_file env path content :
  fp_file fp path -> stays fp (write_file env path content).
Proof.
  intros Hp w r w' Hpre H. unfold write_file in H.
  destruct (can_write env path); injection H as <- <-.
  - apply step_same_heap; simpl; auto; try no_addition; try lia.
    exists [(path, content)]. split; [reflexivity|repeat constructor; exact Hp].
  - split; [apply within_refl|assumption].
Qed.

End Stays.

Lemma alloc_spec j w :
  exists objs v fp,
    alloc j w = (Ok v, {| now := now w; heap := (heap w ++ objs)%list;
                          trace := trace w; log := log w; files := files w |}) /\
    tree (heap w ++ objs) j v fp /\ NoDup fp /\
    (forall l, l ∈ fp -> (length (heap w) <= l < length (heap w) + length objs)%nat) /\
    above (length (heap w)) v /\
    Forall (fun o => Forall (above (length (heap w))) (ovals o)) objs.
Proof.
  destruct (loads_spec j (heap w)) as (objs & v & fp & E & T & N & B & A & C).
  exists objs, v, fp. unfold alloc. rewrite E. auto 10.
Qed.

Lemma closed_above_app n h objs :
  (n <= length h)%nat -> closed_above n h ->
  Forall (fun o => Forall (above (length h)) (ovals o)) objs ->
  closed_above n (h ++ objs).
Proof.
  intros Hn Hc C l o Hl Ho. destruct (decide (l < length h)%nat) as [Hlt|Hge].
  - rewrite lookup_app_l in Ho by assumption. eapply Hc; eassumption.
  - rewrite lookup_app_r in Ho by lia.
    apply list_elem_of_lookup_2 in Ho.
    rewrite Forall_forall in C. specialize (C o Ho).
    eapply Forall_impl; [exact C|]. intros y. apply above_mono. assumption.
Qed.

Lemma stays_alloc fp n j : fp_heap fp = Some n -> stays fp (alloc j).
Proof.
  intros Hh w r w' Hpre H.
  destruct (alloc_spec j w) as (objs & v & f & E & _ & _ & _ & _ & C).
  rewrite E in H. injection H as <- <-.
  unfold pre in *. rewrite Hh in *. destruct Hpre as [Hn Hc]. simpl.
  split.
  - split.
    + rewrite Hh. simpl. intros l Hl. apply lookup_app_l. lia.
    + simpl. repeat split; try no_addition. lia.
  - split; [rewrite length_app; lia|now apply closed_above_app].
Qed.

(** What [alloc] returns does not point below the frame. *)
Lemma alloc_above fp n j w v w1 :
  fp_heap fp = Some n -> pre fp w -> alloc j w = (Ok v, w1) -> above n v.
Proof.
  intros Hh Hpre H. unfold pre in Hpre. rewrite Hh in Hpre. destruct Hpre as [Hn _].
  destruct (alloc_spec j w) as (objs & v' & f & E & _ & _ & _ & A & _).
  rewrite E in H. injection H as <- <-. eapply above_mono; eassumption.
Qed.

(** The same for computations with fuel. *)
Section StaysF.
Variable fp : footprint.

Lemma staysF_total {A} (m : M A) : stays fp m -> staysF fp (total m).
Proof.
  intros Hm w r w' Hpre H. unfold total in H. injection H as H.
  eapply Hm; eassumption.
Qed.

Lemma staysF_bind_post {A B} (Q : A -> Prop) (m : MF A) (k : A -> MF B) :
  staysF fp m ->
  (forall w a w1, pre fp w -> m w = Some (Ok a, w1) -> Q a) ->
  (forall a, Q a -> staysF fp (k a)) ->
  staysF fp (bindF m k).
Proof.
  intros Hm HQ Hk w r w' Hpre H. unfold bindF in H.
  destruct (m w) as [[[a|e] w1]|] eqn:E; [| |discriminate].
  - destruct (Hm _ _ _ Hpre E) as [Hw1 Hpre1].
    destruct (Hk a (HQ _ _ _ Hpre E) _ _ _ Hpre1 H) as [Hw2 Hpre2].
    split; [eapply within_trans; eassumption|assumption].
  - injection H as <- <-. eapply Hm; eassumption.
Qed.

Lemma staysF_bind {A B} (m : MF A) (k : A -> MF B) :
  staysF fp m -> (forall a, staysF fp (k a)) -> staysF fp (bindF m k).
Proof.
  intros Hm Hk. apply (staysF_bind_post (fun _ => True)); auto.
Qed.

Lemma staysF_try {A} (m : MF A) (handler : exn -> MF A) :
  staysF fp m -> (forall e, staysF fp (handler e)) -> staysF fp (try_exceptF m handler).
Proof.
  intros Hm Hk w r w' Hpre H. unfold try_exceptF in H.
  destruct (m w) as [[[a|e] w1]|] eqn:E; [| |discriminate].
  - injection H as <- <-. eapply Hm; eassumption.
  - destruct (Hm _ _ _ Hpre E) as [Hw1 Hpre1].
    destruct (Hk e _ _ _ Hpre1 H) as [Hw2 Hpre2].
    split; [eapply within_trans; eassumption|assumption].
Qed.

Lemma staysF_none {A} : staysF fp (fun _ => @None (result A * World)).
Proof. intros w r w' _ H. discriminate. Qed.

End StaysF.

(** One step of a footprint proof: the shape of the computation decides. *)
Ltac stay_step :=
  match goal with
  | |- stays _ (bind _ _) => apply stays_bind; [|intros ?]
  | |- stays _ (try_except _ _) => apply stays_try; [|intros ?]
  | |- stays _ (ret _) => apply stays_ret
  | |- stays _ (raise _) => apply stays_raise
  | |- stays _ (lift _) => apply stays_lift
  | |- stays _ time => apply stays_time
  | |- stays _ get_heap => apply stays_get_heap
  | |- stays _ (serialise _) => apply stays_serialise
  | |- stays _ (sleep _) => apply stays_sleep
  | |- stays _ (logm _ _) => apply stays_logm; simpl; try exact I
  | |- stays _ (http _ _) => apply stays_http; simpl; try exact I
  | |- stays _ (write_file _ _ _) => apply stays_write_file; simpl; try exact I
  | |- stays _ (alloc _) => eapply stays_alloc; reflexivity
  | |- stays _ (match ?x with _ => _ end) => destruct x eqn:?
  | |- staysF _ (total _) => apply staysF_total
  | |- staysF _ (bindF _ _) => apply staysF_bind; [|intros ?]
  | |- staysF _ (try_exceptF _ _) => apply staysF_try; [|intros ?]
  | |- staysF _ (match ?x with _ => _ end) => destruct x eqn:?
  end.

Ltac stay := repeat stay_step.

(** ** workflow_service.py: uploads and the batch set-up *)

Section Setup.
Variable env : Env.

Lemma upload_loop_stays path make_unique attempts :
  stays (upload_footprint env path)
        (Workflow.upload_loop env path make_unique attempts).
Proof.
  induction attempts as [|attempt rest IH]; simpl; stay; try assumption.
  all: try (destruct (_ <? _)%nat; stay).
  eexists _, _. split; [reflexivity|eassumption].
Qed.

Lemma upload_stays path make_unique :
  stays (upload_footprint env path)
        (Workflow.upload_image_with_retry env path make_unique).
Proof.
  unfold Workflow.upload_image_with_retry.
  destruct (negb _); stay. apply upload_loop_stays.
Qed.

(** The uploader never raises. *)
Lemma upload_loop_ok path make_unique attempts w :
  exists v, fst (Workflow.upload_loop env path make_unique attempts w) = Ok v.
Proof.
  revert w. induction attempts as [|attempt rest IH]; intros w.
  - eexists. reflexivity.
  - cbn [Workflow.upload_loop]. unfold bind at 1, try_except.
    match goal with |- context [match ?m w with _ => _ end] =>
      destruct (m w) as [[o|e] w1] end.
    + destruct o as [v|]; [eexists; reflexivity|apply IH].
    + destruct (attempt <? Workflow.MAX_RETRIES - 1)%nat.
      * cbn. apply IH.
      * cbn. eexists; reflexivity.
Qed.

Lemma upload_ok path make_unique w :
  exists v, fst (Workflow.upload_image_with_retry env path make_unique w) = Ok v.
Proof.
  unfold Workflow.upload_image_with_retry.
  destruct (negb _).
  - eexists. reflexivity.
  - apply upload_loop_ok.
Qed.

Lemma match_styles_stays style_files required matches :
  stays style_footprint (Workflow.match_styles env style_files required matches).
Proof.
  revert matches. induction required as [|s rest IH]; intros matches; simpl; stay.
  all: try (destruct (_ && _); stay); try apply IH.
Qed.

Lemma find_style_file_matches_stays required :
  stays style_footprint (Workflow.find_style_file_matches env required).
Proof.
  unfold Workflow.find_style_file_matches. destruct (negb _); stay.
  apply match_styles_stays.
Qed.
End Setup.

Lemma eqb_str_r (s : json) (name : string) :
  Py.eqb s (JStr name) = true -> s = JStr name.
Proof.
  destruct s; simpl; try discriminate.
  intros H. apply String.eqb_eq in H. now subst.
Qed.

Lemma assoc_get_entry {V} (k : json) (d : list (json * V)) (v : V) :
  Py.assoc_get k d = Some v ->
  exists k', (k', v) ∈ d /\ Py.eqb k k' = true.
Proof.
  induction d as [|[k' v'] d IH]; cbn [Py.assoc_get Py.assoc_set]; [discriminate|].
  destruct (Py.eqb k k') eqn:E.
  - intros H. injection H as <-. exists k'. split; [left|assumption].
  - intros H. destruct (IH H) as (k'' & Hin & Hk). exists k''. split; [now right|assumption].
Qed.

Lemma assoc_set_entries {V} (k : json) (v : V) (d : list (json * V)) (e : json * V) :
  e ∈ Py.assoc_set k v d -> e ∈ d \/ exists k', e = (k', v) /\ (k' = k \/ Py.eqb k k' = true).
Proof.
  induction d as [|[k' v'] d IH]; cbn [Py.assoc_get Py.assoc_set].
  - intros H. apply list_elem_of_singleton in H. right. exists k. auto.
  - destruct (Py.eqb k k') eqn:E.
    + intros H. apply elem_of_cons in H as [->|H].
      * right. exists k'. auto.
      * left. now right.
    + intros H. apply elem_of_cons in H as [->|H].
      * left. left.
      * destruct (IH H) as [Hin|Hnew]; [left; now right|now right].
Qed.

Lemma assoc_get_set_str {V} (name : string) (v : V) (d : list (json * V)) :
  Py.assoc_get (JStr name) (Py.assoc_set (JStr name) v d) = Some v.
Proof.
  induction d as [|[k' v'] d IH]; cbn [Py.assoc_get Py.assoc_set].
  - simpl. now rewrite String.eqb_refl.
  - destruct (Py.eqb (JStr name) k') eqn:E; cbn [Py.assoc_get Py.assoc_set]; rewrite E; [reflexivity|exact IH].
Qed.

Lemma assoc_get_set_keeps {V} (k k' : json) (x : V) (d : list (json * V)) (v : V) :
  Py.assoc_get k d = Some v ->
  exists v', Py.assoc_get k (Py.assoc_set k' x d) = Some v' /\ (v' = v \/ v' = x).
Proof.
  induction d as [|[k0 v0] d IH]; cbn [Py.assoc_get Py.assoc_set]; [discriminate|].
  destruct (Py.eqb k k0) eqn:E.
  - intros H. injection H as <-.
    destruct (Py.eqb k' k0); cbn [Py.assoc_get Py.assoc_set]; rewrite E; eauto.
  - intros H. destruct (IH H) as (v' & Hv' & Hor).
    destruct (Py.eqb k' k0); cbn [Py.assoc_get Py.assoc_set]; rewrite E; eauto.
Qed.

Section SetupResults.
Variable env : Env.

Lemma best_style_file_spec s files bm bs bm' bs' :
  Workflow.best_style_file env s files bm bs = Ok (bm', bs') ->
  (bm' = bm /\ bs' = bs) \/
  (exists f name, bm' = Some f /\ f ∈ files /\ s = JStr name /\
     bs' = Workflow.style_score env name (fst (PyStr.splitext (PyStr.basename f))) /\
     (bs < bs')%nat).
Proof.
  revert bm bs. induction files as [|f rest IH]; intros bm bs; simpl.
  - intros H. injection H as <- <-. auto.
  - destruct s as [| | |name| |]; try discriminate.
    destruct (bs <? _)%nat eqn:E.
    + apply Nat.ltb_lt in E. intros H. apply IH in H as [[-> ->]|(f' & n' & -> & Hin & Hn & -> & Hlt)].
      * right. exists f, name. repeat split; auto. left.
      * right. injection Hn as <-. exists f', name. repeat split; auto; [now right|lia].
    + intros H. apply IH in H as [H|(f' & n' & -> & Hin & Hn & -> & Hlt)]; [auto|].
      right. exists f', n'. repeat split; auto. now right.
Qed.

Lemma good_match_set s f name (matches : list (json * string)) :
  s = JStr name ->
  f ∈ Workflow.style_files_of (walk env Workflow.style_folder) ->
  (0 < Workflow.style_score env name (fst (PyStr.splitext (PyStr.basename f))))%nat ->
  Forall (good_match env) matches ->
  Forall (good_match env) (Py.assoc_set s f matches).
Proof.
  intros -> Hf Hs Hall. apply Forall_forall. intros e He.
  apply assoc_set_entries in He as [He|(k' & -> & Hk)].
  - rewrite Forall_forall in Hall. now apply Hall.
  - exists name. simpl. repeat split; auto.
    destruct Hk as [->|Hk]; [reflexivity|].
    destruct k'; simpl in Hk; try discriminate.
    apply String.eqb_eq in Hk. now subst.
Qed.

Lemma match_styles_result required matches w matches' w' :
  Workflow.match_styles env (Workflow.style_files_of (walk env Workflow.style_folder))
    required matches w = (Ok matches', w') ->
  Forall (good_match env) matches -> Forall (good_match env) matches'.
Proof.
  revert matches w. induction required as [|s rest IH]; intros matches w; simpl.
  - intros H. injection H as <- <-. auto.
  - intros H Hall. apply bind_ok in H as ([bm bs] & w1 & Hb & H).
    apply lift_inv in Hb as [Hb ->]. symmetry in Hb.
    destruct bm as [f|].
    + destruct (negb (f =? "")%string && (0 <? bs)%nat) eqn:E.
      * apply bind_ok in H as (_ & w2 & _ & H). apply IH in H; [assumption|].
        apply andb_prop in E as [_ E]. apply Nat.ltb_lt in E.
        apply best_style_file_spec in Hb as [[Hb _]|(f' & name & Hf & Hin & Hs & -> & _)];
          [discriminate|]. injection Hf as <-.
        eapply good_match_set; eauto.
      * apply bind_ok in H as (_ & w2 & _ & H). eapply IH; eauto.
    + apply bind_ok in H as (_ & w2 & _ & H). eapply IH; eauto.
Qed.

Lemma find_style_file_matches_result required w matches w' :
  Workflow.find_style_file_matches env required w = (Ok matches, w') ->
  Forall (good_match env) matches /\
  (matches <> [] -> path_exists env Workflow.style_folder = true).
Proof.
  unfold Workflow.find_style_file_matches.
  destruct (path_exists env Workflow.style_folder); simpl.
  - intros H. apply match_styles_result in H; auto.
  - intros H. apply bind_ok in H as (_ & w1 & _ & H).
    apply ret_inv in H as [H _]. injection H as ->. split; [constructor|congruence].
Qed.

Lemma missing_styles_nil required (matches : list (json * string)) s :
  Workflow.missing_styles required matches = [] ->
  s ∈ required -> exists p, Py.assoc_get s matches = Some p.
Proof.
  unfold Workflow.missing_styles. intros H Hs.
  destruct (Py.assoc_get s matches) as [p|] eqn:E; [eauto|].
  assert (Hin : s ∈ filter (fun style => Py.assoc_get style matches = None) required).
  { apply list_elem_of_filter. auto. }
  rewrite H in Hin. inversion Hin.
Qed.

Lemma upload_styles_result matches imgs fails w imgs' fails' w' :
  Workflow.upload_styles env matches imgs fails w = (Ok (imgs', fails'), w') ->
  Forall (fun e => exists name, fst e = JStr name) matches ->
  Forall (fun e => Py.truthy (snd e) = true) imgs ->
  Forall (fun e => Py.truthy (snd e) = true) imgs' /\
  (fails' = [] ->
   fails = [] /\
   (forall k, (exists v, Py.assoc_get k imgs = Some v) ->
              exists v, Py.assoc_get k imgs' = Some v) /\
   forall e, e ∈ matches -> exists v, Py.assoc_get (fst e) imgs' = Some v).
Proof.
  revert imgs fails w.
  induction matches as [|[s p] rest IH]; intros imgs fails w; simpl.
  - intros H _ Himgs. injection H as <- <- <-. split; [assumption|].
    intros ->. repeat split; auto. intros e He. inversion He.
  - intros H Hkeys Himgs. apply Forall_cons in Hkeys as [(name & Hname) Hkeys].
    simpl in Hname. subst s.
    apply bind_ok in H as (v & w1 & Hup & H).
    destruct (Py.truthy v) eqn:Ev.
    + apply bind_ok in H as (_ & w2 & _ & H).
      apply IH in H as [Hall Hrest]; [|assumption|].
      2:{ apply Forall_forall. intros e He.
          apply assoc_set_entries in He as [He|(k' & -> & _)]; [|assumption].
          rewrite Forall_forall in Himgs. now apply Himgs. }
      split; [assumption|]. intros Hf. destruct (Hrest Hf) as (-> & Hkeep & Hnew).
      repeat split; auto.
      * intros k (x & Hx).
        destruct (assoc_get_set_keeps k (JStr name) v imgs x Hx) as (x' & Hx' & _).
        apply Hkeep. eauto.
      * intros e He. apply elem_of_cons in He as [->|He]; [|now apply Hnew].
        simpl. apply Hkeep. exists v. apply assoc_get_set_str.
    + apply bind_ok in H as (_ & w2 & _ & H).
      apply IH in H as [Hall Hrest]; [|assumption|assumption].
      split; [assumption|]. intros Hf. destruct (Hrest Hf) as (Hnil & _).
      destruct fails; discriminate.
Qed.

End SetupResults.

Section Prepare.
Variable env : Env.

Lemma upload_styles_stays matches imgs fails :
  Forall (fun e => snd e ∈ Workflow.style_files_of (walk env Workflow.style_folder))
         matches ->
  stays (setup_footprint env) (Workflow.upload_styles env matches imgs fails).
Proof.
  revert imgs fails. induction matches as [|[s p] rest IH]; intros imgs fails Hall; simpl.
  - stay.
  - apply Forall_cons in Hall as [Hp Hall]. simpl in Hp.
    apply stays_bind.
    + eapply stays_le; [apply upload_stays|].
      split; [simpl; auto|]. split; [simpl; auto|]. split; [|simpl; auto].
      intros rq Hrq. exists p. auto.
    + intros v. destruct (Py.truthy v); stay; auto.
Qed.

Lemma prepare_batch_stays prompts :
  stays (setup_footprint env) (Workflow.prepare_batch env prompts).
Proof.
  unfold Workflow.prepare_batch. apply stays_bind.
  { eapply stays_le; [apply upload_stays|].
    split; [simpl; auto|]. split; [simpl; auto|]. split; [|simpl; auto].
    intros rq Hrq. exists Workflow.background_image_path. auto. }
  intros bg. destruct (negb (Py.truthy bg)); [stay|].
  apply stays_bind; [stay|]. intros req. destruct req as [|s req]; [stay|].
  apply (stays_bind_post _ (Forall (good_match env))).
  - eapply stays_le; [apply find_style_file_matches_stays|].
    split; [simpl; auto|]. split; [simpl; auto|]. split; simpl; intros ? [].
  - intros w0 ms w1 _ H. now apply find_style_file_matches_result in H.
  - intros ms Hms. destruct (Workflow.missing_styles _ _); [|stay].
    apply stays_bind; [|intros [imgs fails]; simpl; destruct fails; stay].
    apply upload_styles_stays.
    eapply Forall_impl; [exact Hms|]. intros e (name & _ & Hin & _). exact Hin.
Qed.

(** What a successful set-up has achieved. *)
Lemma prepare_batch_ok prompts w bg imgs w1 :
  Workflow.prepare_batch env prompts w = (Ok (bg, imgs), w1) ->
  fst (Workflow.upload_image_with_retry env Workflow.background_image_path true w)
    = Ok bg /\
  Py.truthy bg = true /\
  exists required,
    Workflow.get_required_style_images env prompts = Ok required /\
    forall s, s ∈ required ->
      has_style_file env s /\
      exists v, Py.assoc_get s imgs = Some v /\ Py.truthy v = true.
Proof.
  unfold Workflow.prepare_batch. intros H.
  apply bind_ok in H as (bg' & w2 & Hbg & H).
  destruct (Py.truthy bg') eqn:Ebg; simpl in H; [|discriminate].
  apply bind_ok in H as (req & w3 & Hreq & H). apply lift_inv in Hreq as [Hreq ->].
  destruct req as [|s0 req]; [discriminate|].
  apply bind_ok in H as (ms & w4 & Hms & H).
  destruct (Workflow.missing_styles (s0 :: req) ms) eqn:Emiss.
  2:{ apply bind_inv in H as [(names & w5 & _ & H)|(e & _ & H)]; discriminate. }
  apply bind_ok in H as ([imgs' fails] & w5 & Hup & H). simpl in H.
  destruct fails as [|f fails].
  2:{ apply bind_inv in H as [(names & w6 & _ & H)|(e & _ & H)]; discriminate. }
  apply ret_inv in H as [H _]. injection H as <- <-.
  apply find_style_file_matches_result in Hms as [Hgood Hexists].
  apply upload_styles_result in Hup as [Htruthy Hfin].
  2:{ eapply Forall_impl; [exact Hgood|]. intros e (name & Hn & _). eauto. }
  2:{ constructor. }
  destruct (Hfin eq_refl) as (_ & _ & Hall).
  split; [now rewrite Hbg|]. split; [assumption|].
  exists (s0 :: req). split; [now symmetry|].
  intros s Hs.
  destruct (missing_styles_nil _ _ s Emiss Hs) as (p & Hp).
  destruct (assoc_get_entry _ _ _ Hp) as (k' & Hin & Hk).
  pose proof Hgood as Hgood'. rewrite Forall_forall in Hgood'.
  destruct (Hgood' _ Hin) as (name & Hname & Hfile & Hscore). simpl in *. subst k'.
  apply eqb_str_r in Hk. subst s. split.
  - split; [apply Hexists; intros ->; inversion Hin|].
    exists name, p. auto.
  - destruct (Hall _ Hin) as (v & Hv). simpl in Hv. exists v. split; [assumption|].
    destruct (assoc_get_entry _ _ _ Hv) as (k'' & Hin'' & _).
    rewrite Forall_forall in Htruthy. apply (Htruthy _ Hin'').
Qed.

End Prepare.

(** C7.  The set-up of a background-replace batch is all or nothing.  When
    it fails the batch raises at once: nothing but uploads of the
    background and of style files was requested, no pair was logged as
    processed in any way, no object and no file was touched.  When it
    succeeds the background upload returned a name, and every required
    style has a local file and an uploaded name. *)
Theorem batch_prerequisites_all_or_nothing (env : Env) (workflow : pval)
    (prompts_data : json) (input_folder mask_folder output_folder : string)
    (w : World) :
  match Workflow.prepare_batch env prompts_data w with
  | (Raise e, _) =>
      exists w' new_log new_trace,
        Workflow.process_images_api env workflow prompts_data
          input_folder mask_folder output_folder w = (Raise e, w') /\
        heap w' = heap w /\ files w' = files w /\
        log w' = (log w ++ new_log)%list /\
        trace w' = (trace w ++ new_trace)%list /\
        Forall (fun e => ~ pair_event (snd e) /\ ~ update_event (snd e) /\
                         ~ submit_event (snd e) /\ ~ download_event (snd e))
               new_log /\
        Forall (fp_req (setup_footprint env)) new_trace
  | (Ok (bg_filename, style_images), _) =>
      fst (Workflow.upload_image_with_retry env Workflow.background_image_path
             true w) = Ok bg_filename /\
      Py.truthy bg_filename = true /\
      exists required,
        Workflow.get_required_style_images env prompts_data = Ok required /\
        forall s, s ∈ required ->
          has_style_file env s /\
          exists v, Py.assoc_get s style_images = Some v /\ Py.truthy v = true
  end.
Proof.
  destruct (Workflow.prepare_batch env prompts_data w) as [[[bg imgs]|e] w1] eqn:E.
  - eapply prepare_batch_ok. exact E.
  - pose proof (prepare_batch_stays env prompts_data w _ _ I E)
      as [(Hh & (l1 & El & Fl) & (t1 & Et & Ft) & (f1 & Ef & Ff) & _) _].
    simpl in Hh.
    exists {| now := now w1; heap := heap w1; trace := trace w1;
              log := (log w1 ++ [(ERROR, BatchAborted e)])%list; files := files w1 |},
      (l1 ++ [(ERROR, BatchAborted e)])%list, t1.
    split.
    { unfold Workflow.process_images_api, try_except.
      rewrite (bind_run_raise _ _ _ _ _ E). reflexivity. }
    simpl. split; [assumption|].
    split. { destruct f1 as [|f f1]; [now rewrite app_nil_r in Ef|].
             apply Forall_cons in Ff as [[] _]. }
    split; [rewrite El; now rewrite app_assoc|]. split; [assumption|].
    split; [|assumption].
    apply Forall_app. split.
    + eapply Forall_impl; [exact Fl|]. intros [lvl ev] Hev. simpl in *.
      destruct ev; simpl in *; tauto.
    + repeat constructor; simpl; tauto.
Qed.

(** ** workflow_service.py: downloading the variants *)

Section Download.
Variable env : Env.

Lemma download_variant_spec output_path idx info w :
  let o := variant_outcome env output_path idx (trace w) info in
  exists t,
    Workflow.download_variant env output_path idx info w =
      (Ok (bool_decide (is_Some o)),
       {| now := t; heap := heap w;
          trace := (trace w ++ option_list (view_request info))%list;
          log := (log w ++ [variant_entry idx o])%list;
          files := (files w ++ option_list o)%list |}) /\
    now w <= t.
Proof.
  unfold variant_outcome, Workflow.download_variant, view_request, fetched.
  destruct info as [| | | | |items];
    try (eexists; split; [cbn; rewrite !app_nil_r; reflexivity|lia]).
  cbn [Py.getitem Py.get].
  destruct (Py.dict_get "filename" items) as [filename|];
    [|eexists; split; [cbn; rewrite !app_nil_r; reflexivity|lia]].
  unfold try_except, bind, lift, http, raise_for_status, write_file, logm, ret, raise.
  cbn [now heap trace log files].
  destruct (engine env (trace w) _) as [|status body content].
  - eexists; split; [cbn; rewrite !app_nil_r; reflexivity|lia].
  - destruct ((400 <=? status) && (status <? 600)).
    + eexists; split; [cbn; rewrite !app_nil_r; reflexivity|lia].
    + destruct (can_write env _).
      * eexists; split; [cbn; reflexivity|lia].
      * eexists; split; [cbn; rewrite !app_nil_r; reflexivity|lia].
Qed.

Lemma saved_cons o os : saved (o :: os) = (option_list o ++ saved os)%list.
Proof. unfold saved. destruct o; reflexivity. Qed.

Lemma download_variants_spec output_path images : forall idx count w,
  let outcomes := variant_outcomes env output_path idx (trace w) images in
  exists w',
    Workflow.download_variants env output_path idx images count w =
      (Ok (count + length (saved outcomes))%nat, w') /\
    heap w' = heap w /\
    trace w' = (trace w ++ omap view_request images)%list /\
    log w' = (log w ++ imap (fun i => variant_entry (idx + i)) outcomes)%list /\
    files w' = (files w ++ saved outcomes)%list /\
    now w <= now w'.
Proof.
  induction images as [|info rest IH]; intros idx count w outcomes.
  - exists w. unfold outcomes. simpl. rewrite !app_nil_r, Nat.add_0_r.
    repeat split; lia.
  - unfold outcomes. cbn [variant_outcomes Workflow.download_variants].
    destruct (download_variant_spec output_path idx info w) as (t & Hstep & Ht).
    cbv zeta in Hstep. rewrite (bind_run _ _ _ _ _ Hstep).
    set (o := variant_outcome env output_path idx (trace w) info) in *.
    match goal with |- context [Workflow.download_variants _ _ _ _ ?c ?w1] =>
      destruct (IH (S idx) c w1) as (w' & Hrun & Hh & Htr & Hl & Hf & Hn) end.
    cbn [now heap trace log files] in *.
    exists w'. rewrite Hrun. rewrite saved_cons.
    split; [|split; [assumption|split; [|split; [|split; [|lia]]]]].
    + f_equal. f_equal. rewrite length_app.
      destruct o as [[p c]|]; cbn; lia.
    + rewrite Htr, <- app_assoc. f_equal. cbn [omap list_omap].
      destruct (view_request info); reflexivity.
    + rewrite Hl, <- app_assoc. cbn [imap app]. rewrite Nat.add_0_r.
      do 2 f_equal. apply imap_ext. intros i x _. simpl. f_equal. lia.
    + rewrite Hf, <- app_assoc. reflexivity.
Qed.
End Download.

(** ** Changing objects above a frame *)

Lemma dict_get_in_values {V} (k : string) (items : list (string * V)) (v : V) :
  Py.dict_get k items = Some v -> v ∈ map snd items.
Proof.
  induction items as [|[k' v'] items IH]; simpl; [discriminate|].
  destruct (String.eqb k k').
  - intros H. injection H as ->. left.
  - intros H. right. auto.
Qed.

Lemma dict_set_values {V} (P : V -> Prop) (k : string) (v : V)
    (items : list (string * V)) :
  P v -> Forall P (map snd items) -> Forall P (map snd (Py.dict_set k v items)).
Proof.
  intros Hv. induction items as [|[k' v'] items IH]; simpl; intros H.
  - repeat constructor. exact Hv.
  - apply Forall_cons in H as [H1 H2].
    destruct (String.eqb k k'); simpl; constructor; auto.
Qed.

Lemma insert_frame n (h : list pobj) m o :
  (n <= m)%nat -> closed_above n h -> Forall (above n) (ovals o) ->
  closed_above n (<[m := o]> h) /\
  forall l, (l < n)%nat -> <[m := o]> h !! l = h !! l.
Proof.
  intros Hm Hc Ho. split.
  - intros l o' Hl Hlook. destruct (decide (l = m)) as [->|Hne].
    + destruct (decide (m < length h)%nat) as [Hlt|Hge].
      * rewrite list_lookup_insert_eq in Hlook by assumption.
        injection Hlook as <-. exact Ho.
      * rewrite list_insert_ge in Hlook by lia. eapply Hc; eassumption.
    + rewrite list_lookup_insert_ne in Hlook by congruence. eapply Hc; eassumption.
  - intros l Hl. apply list_lookup_insert_ne. lia.
Qed.

(** What [c[k]] returns out of a closed region stays in the region. *)
Lemma getitem_above n h c k v :
  closed_above n h -> above n c -> Obj.getitem h c k = Ok v -> above n v.
Proof.
  intros Hc Ha H. destruct c as [| | | |l]; simpl in H; try discriminate.
  destruct (h !! l) as [[items|xs]|] eqn:E; try discriminate.
  destruct (Py.dict_get k items) as [x|] eqn:Ek; [|discriminate].
  injection H as <-. simpl in Ha.
  pose proof (Hc l _ Ha E) as Hall. simpl in Hall.
  rewrite Forall_forall in Hall. apply Hall. eapply dict_get_in_values; eassumption.
Qed.

Lemma get_above n h c k v :
  closed_above n h -> above n c -> Obj.get h c k = Ok v -> above n v.
Proof.
  intros Hc Ha H. destruct c as [| | | |l]; simpl in H; try discriminate.
  destruct (h !! l) as [[items|xs]|] eqn:E; try discriminate.
  injection H as <-.
  destruct (Py.dict_get k items) as [x|] eqn:Ek; [|exact I]. simpl in Ha.
  pose proof (Hc l _ Ha E) as Hall. simpl in Hall.
  rewrite Forall_forall in Hall. apply Hall. eapply dict_get_in_values; eassumption.
Qed.

(** [c[k] = v] inside a closed region keeps the frame. *)
Lemma setitem_frame n h c k v h' :
  (n <= length h)%nat -> closed_above n h -> above n c -> above n v ->
  Obj.setitem h c k v = Ok h' ->
  ((n <= length h')%nat /\ closed_above n h') /\
  forall l, (l < n)%nat -> h' !! l = h !! l.
Proof.
  intros Hn Hc Ha Hv H. destruct c as [| | | |m]; simpl in H; try discriminate.
  destruct (h !! m) as [[items|xs]|] eqn:E; try discriminate.
  injection H as <-. simpl in Ha.
  destruct (insert_frame n h m (PDict (Py.dict_set k v items)) Ha Hc) as [Hc' Hp].
  { simpl. apply dict_set_values; [assumption|]. apply (Hc m _ Ha E). }
  rewrite length_insert. auto.
Qed.

Lemma setdefault_frame n h c k h' v :
  (n <= length h)%nat -> closed_above n h -> above n c ->
  Obj.setdefault_dict h c k = Ok (h', v) ->
  (((n <= length h')%nat /\ closed_above n h') /\
   forall l, (l < n)%nat -> h' !! l = h !! l) /\
  above n v.
Proof.
  intros Hn Hc Ha H. destruct c as [| | | |m]; simpl in H; try discriminate.
  destruct (h !! m) as [[items|xs]|] eqn:E; try discriminate.
  simpl in Ha.
  destruct (Py.dict_get k items) as [x|] eqn:Ek.
  - injection H as <- <-. repeat split; auto.
    pose proof (Hc m _ Ha E) as Hall. simpl in Hall.
    rewrite Forall_forall in Hall. apply Hall. eapply dict_get_in_values; eassumption.
  - injection H as <- <-.
    assert (Hc1 : closed_above n (h ++ [PDict []])).
    { apply closed_above_app; auto. }
    destruct (insert_frame n (h ++ [PDict []]) m
                (PDict (Py.dict_set k (PRef (length h)) items)) Ha Hc1) as [Hc' Hp].
    { simpl. apply dict_set_values; [simpl; lia|]. apply (Hc m _ Ha E). }
    rewrite length_insert, length_app. simpl.
    repeat split; auto; try lia.
    intros l Hl. rewrite Hp by assumption. apply lookup_app_l. lia.
Qed.

Section Mutator.
Variable n : nat.

Lemma assign_stays fp uw node_id key value :
  fp_heap fp = Some n -> above n uw ->
  stays fp (Workflow.assign uw node_id key value).
Proof.
  intros Hfp Huw. unfold Workflow.assign.
  apply (stays_bind_post fp (above n)).
  { eapply stays_alloc; eassumption. }
  { intros w v w1 Hpre H. eapply alloc_above; eassumption. }
  intros v Hv w r w' Hpre H.
  unfold pre in *. rewrite Hfp in *. destruct Hpre as [Hn Hc].
  unfold bind, get_heap, lift, put_heap in H.
  destruct (Obj.getitem (heap w) uw node_id) as [node|e] eqn:E1;
    [|injection H as <- <-; split; [apply within_refl|auto]].
  destruct (Obj.getitem (heap w) node "inputs") as [inputs|e] eqn:E2;
    [|injection H as <- <-; split; [apply within_refl|auto]].
  destruct (Obj.setitem (heap w) inputs key v) as [h'|e] eqn:E3;
    [|injection H as <- <-; split; [apply within_refl|auto]].
  injection H as <- <-.
  pose proof (getitem_above _ _ _ _ _ Hc Huw E1) as Hnode.
  pose proof (getitem_above _ _ _ _ _ Hc Hnode E2) as Hinputs.
  destruct (setitem_frame _ _ _ _ _ _ Hn Hc Hinputs Hv E3) as [Hpre' Hp].
  split; [|exact Hpre'].
  split; [rewrite Hfp; exact Hp|]. simpl.
  repeat split; try no_addition. lia.
Qed.

Lemma assign_if_present_stays uw node_id key value :
  above n uw ->
  stays (update_footprint n) (Workflow.assign_if_present uw node_id key value).
Proof.
  intros Huw. unfold Workflow.assign_if_present. stay.
  now apply assign_stays.
Qed.

Lemma assign_prompt_stays uw prompt_data :
  above n uw ->
  stays (update_footprint n) (Workflow.assign_prompt uw prompt_data).
Proof.
  intros Huw. unfold Workflow.assign_prompt. stay.
  now apply assign_stays.
Qed.

Lemma update_workflow_stays workflow a b c d prompt_data :
  stays (update_footprint n) (Workflow.update_workflow workflow a b c d prompt_data).
Proof.
  unfold Workflow.update_workflow. apply stays_try; [|intros e; stay].
  apply stays_bind; [stay|]. intros copy.
  apply (stays_bind_post _ (above n)).
  { stay. }
  { intros w v w1 Hpre H. eapply (alloc_above (update_footprint n)); eauto. }
  intros uw Huw.
  repeat (apply stays_bind; [now apply assign_if_present_stays|intros _]).
  apply stays_bind; [now apply assign_prompt_stays|intros _]. stay.
Qed.

End Mutator.

(** ** Serialising *)

Lemma dumps_fuel_stable fuel : forall h h' v j fuel',
  Obj.dumps_fuel fuel h v = Some j ->
  (forall l, (l < length h)%nat -> h' !! l = h !! l) ->
  (fuel <= fuel')%nat ->
  Obj.dumps_fuel fuel' h' v = Some j.
Proof.
  induction fuel as [|fuel IH]; intros h h' v j fuel' H Hsame Hle.
  - destruct v; simpl in *; try discriminate; destruct fuel'; assumption.
  - destruct v as [| | | |l]; try (destruct fuel'; exact H).
    destruct fuel' as [|fuel']; [lia|]. simpl in *.
    destruct (h !! l) as [o|] eqn:E; [|discriminate].
    rewrite Hsame by (eapply lookup_lt_Some; eassumption). rewrite E.
    destruct o as [items|xs].
    + apply fmap_Some in H as (ks & Hm & ->).
      apply fmap_Some. exists ks. split; [|reflexivity].
      apply mapM_Some in Hm. apply mapM_Some.
      eapply Forall2_impl; [exact Hm|]. intros [k x] [k' y] Hxy. simpl in *.
      apply fmap_Some in Hxy as (y' & Hy & Heq). apply fmap_Some.
      exists y'. split; [|assumption]. apply (IH h h' _ _ fuel' Hy Hsame). lia.
    + apply fmap_Some in H as (ks & Hm & ->).
      apply fmap_Some. exists ks. split; [|reflexivity].
      apply mapM_Some in Hm. apply mapM_Some.
      eapply Forall2_impl; [exact Hm|]. intros x y Hxy.
      apply (IH h h' _ _ fuel' Hxy Hsame). lia.
Qed.

(** A document that could be serialised before can be serialised after,
    as long as the objects that were there are left alone. *)
Lemma dumps_stable h h' v j :
  Obj.dumps h v = Ok j ->
  (length h <= length h')%nat ->
  (forall l, (l < length h)%nat -> h' !! l = h !! l) ->
  Obj.dumps h' v = Ok j.
Proof.
  unfold Obj.dumps. intros H Hlen Hsame.
  destruct (Obj.dumps_fuel (S (length h)) h v) as [j'|] eqn:E; [|discriminate].
  injection H as ->.
  rewrite (dumps_fuel_stable _ _ h' _ _ (S (length h')) E Hsame); [reflexivity|lia].
Qed.

Lemma mapM_items (f : pval -> option json) pkvs kvs :
  map fst pkvs = map fst kvs ->
  mapM f (map snd pkvs) = Some (map snd kvs) ->
  mapM (fun kv : string * pval => pair (fst kv) <$> f (snd kv)) pkvs = Some kvs.
Proof.
  intros Hk Hv. apply mapM_Some. apply mapM_Some in Hv.
  revert kvs Hk Hv. induction pkvs as [|[k v] pkvs IH]; intros [|[k' j] kvs] Hk Hv;
    simpl in *; try discriminate; [constructor|].
  injection Hk as -> Hk. apply Forall2_cons in Hv as [Hv1 Hv2].
  constructor; [simpl; now rewrite Hv1|auto].
Qed.

Lemma tree_dumps_fuel h :
  (forall j v fp, tree h j v fp ->
     forall fuel, (length fp <= fuel)%nat -> Obj.dumps_fuel fuel h v = Some j) /\
  (forall js vs fp, trees h js vs fp ->
     forall fuel, (length fp <= fuel)%nat ->
       mapM (Obj.dumps_fuel fuel h) vs = Some js).
Proof.
  apply tree_trees_ind.
  - intros [|f] _; reflexivity.
  - intros b [|f] _; reflexivity.
  - intros z [|f] _; reflexivity.
  - intros s [|f] _; reflexivity.
  - intros l xs pvs fp Hl _ IH [|fuel] Hf; simpl in Hf; [lia|].
    simpl. rewrite Hl. rewrite IH by lia. reflexivity.
  - intros l kvs pkvs fp Hl Hk _ IH [|fuel] Hf; simpl in Hf; [lia|].
    simpl. rewrite Hl. rewrite (mapM_items _ pkvs kvs Hk); [reflexivity|].
    apply IH. lia.
  - intros fuel _. reflexivity.
  - intros j js v vs f fs _ IH1 _ IH2 fuel Hf. rewrite length_app in Hf.
    apply mapM_Some. constructor.
    + apply IH1. lia.
    + apply mapM_Some. apply IH2. lia.
Qed.

Lemma tree_footprint_bound h :
  (forall j v fp, tree h j v fp -> forall l, l ∈ fp -> (l < length h)%nat) /\
  (forall js vs fp, trees h js vs fp -> forall l, l ∈ fp -> (l < length h)%nat).
Proof.
  apply tree_trees_ind; try (intros; match goal with H : _ ∈ [] |- _ => inversion H end).
  - intros l xs pvs fp Hl _ IH x Hx. apply elem_of_cons in Hx as [->|Hx]; [|auto].
    eapply lookup_lt_Some; eassumption.
  - intros l kvs pkvs fp Hl _ _ IH x Hx. apply elem_of_cons in Hx as [->|Hx]; [|auto].
    eapply lookup_lt_Some; eassumption.
  - intros j js v vs f fs _ IH1 _ IH2 x Hx. apply elem_of_app in Hx as [Hx|Hx]; auto.
Qed.

(** A tree without sharing serialises to its document. *)
Lemma tree_dumps h j v fp : tree h j v fp -> NoDup fp -> Obj.dumps h v = Ok j.
Proof.
  intros T N. unfold Obj.dumps.
  rewrite (proj1 (tree_dumps_fuel h) _ _ _ T); [reflexivity|].
  assert (Hsub : fp ⊆+ seq 0 (length h)).
  { apply NoDup_submseteq; [assumption|]. intros x Hx. apply elem_of_seq.
    pose proof (proj1 (tree_footprint_bound h) _ _ _ T x Hx). lia. }
  apply submseteq_length in Hsub. rewrite length_seq in Hsub. lia.
Qed.

(** ** mask_service.py: what a job leaves untouched *)

Section MaskFrame.
Variable env : Env.
Variable cfg : Mask.Config.
Variable n : nat.

Lemma upload_attempts_stays stamped content name attempts :
  stays (frame_footprint n) (Mask.upload_attempts env cfg stamped content name attempts).
Proof.
  induction attempts as [|attempt rest IH]; simpl; stay; try assumption.
  all: destruct (_ <? _); stay.
Qed.

Lemma _upload_to_comfy_stays img_bytes name :
  stays (frame_footprint n) (Mask._upload_to_comfy env cfg img_bytes name).
Proof. unfold Mask._upload_to_comfy. stay. apply upload_attempts_stays. Qed.

Lemma _queue_prompt_stays graph :
  stays (frame_footprint n) (Mask._queue_prompt env graph).
Proof. unfold Mask._queue_prompt. stay. Qed.

Lemma poll_loop_stays fuel : forall pid deadline count,
  staysF (frame_footprint n) (Mask.poll_loop env cfg fuel pid deadline count).
Proof.
  induction fuel as [|fuel IH]; intros pid deadline count; simpl.
  - apply staysF_none.
  - stay. all: apply IH.
Qed.

Lemma _poll_history_stays fuel pid :
  staysF (frame_footprint n) (Mask._poll_history env cfg fuel pid).
Proof. unfold Mask._poll_history. stay. apply poll_loop_stays. Qed.

Lemma _fetch_first_image_stays history pid :
  stays (frame_footprint n) (Mask._fetch_first_image env cfg history pid).
Proof. unfold Mask._fetch_first_image. stay. Qed.

Lemma set_input_image_stays graph comfy_name :
  above n graph ->
  stays (frame_footprint n) (Mask.set_input_image cfg graph comfy_name).
Proof.
  intros Hg w r w' Hpre H. unfold pre in Hpre. simpl in Hpre. destruct Hpre as [Hn Hc].
  assert (Hsame : forall w1, heap w1 = heap w ->
            log w1 = log w \/ (exists e, log w1 = (log w ++ [e])%list) ->
            trace w1 = trace w -> files w1 = files w -> now w1 = now w ->
            within (frame_footprint n) w w1 /\ pre (frame_footprint n) w1).
  { intros w1 Hh Hl Ht Hf Hnow. apply step_same_heap; auto.
    - destruct Hl as [Hl|[e Hl]]; [exists []|exists [e]]; rewrite Hl;
        [now rewrite app_nil_r|]; repeat constructor.
    - exists []. rewrite app_nil_r. auto.
    - exists []. rewrite app_nil_r. auto.
    - lia.
    - split; assumption. }
  unfold Mask.set_input_image, bind, get_heap, lift in H.
  destruct (Obj.get (heap w) graph (Mask.INPUT_NODE_ID cfg)) as [first|e] eqn:E1;
    [|injection H as <- <-; apply Hsame; auto].
  pose proof (get_above _ _ _ _ _ Hc Hg E1) as Hfirst.
  destruct (Obj.truthy (heap w) first) eqn:Et.
  - unfold ret at 1 in H. rewrite Et in H. simpl in H.
    destruct (Obj.setdefault_dict (heap w) first "inputs") as [[h1 inputs]|e] eqn:E2;
      [|injection H as <- <-; apply Hsame; auto].
    simpl in H.
    destruct (setdefault_frame _ _ _ _ _ _ Hn Hc Hfirst E2) as [[[Hn1 Hc1] Hp1] Hin].
    destruct (Obj.setitem h1 inputs "image" (PStr comfy_name)) as [h2|e] eqn:E3;
      [|injection H as <- <-; apply Hsame; auto].
    unfold put_heap in H. injection H as <- <-.
    destruct (setitem_frame n h1 inputs "image" (PStr comfy_name) h2 Hn1 Hc1 Hin I E3)
      as [Hpre2 Hp2].
    split; [|exact Hpre2].
    split; [simpl; intros l Hl; rewrite Hp2, Hp1; auto|]. simpl.
    repeat split; try no_addition. lia.
  - destruct (Mask.INPUT_NODE_ID_is_int cfg).
    + unfold ret at 1 in H. simpl in H. unfold logm, raise in H.
      injection H as <- <-. apply Hsame; simpl; eauto.
    + unfold raise in H. injection H as <- <-. apply Hsame; auto.
Qed.

Lemma _process_single_image_stays fuel img_bytes name graph :
  above n graph ->
  staysF (frame_footprint n)
    (Mask._process_single_image env cfg fuel img_bytes name graph).
Proof.
  intros Hg. unfold Mask._process_single_image. stay.
  - apply _upload_to_comfy_stays.
  - now apply set_input_image_stays.
  - apply _queue_prompt_stays.
  - apply _poll_history_stays.
  - apply _fetch_first_image_stays.
Qed.

Lemma process_zip_images_stays fuel graph images : forall i,
  staysF (frame_footprint n) (Mask.process_zip_images env cfg fuel graph i images).
Proof.
  induction images as [|[filename image_bytes] rest IH]; intros i; simpl; [stay|].
  apply staysF_bind; [stay|intros _].
  apply staysF_bind; [|intros result; stay; apply IH].
  apply staysF_try; [|intros e; stay].
  apply (staysF_bind_post _ (above n)).
  - stay.
  - intros w v w1 Hpre H. unfold total in H. injection H as H.
    apply bind_ok in H as (g & w2 & Hs & H).
    unfold serialise in Hs. injection Hs as _ <-.
    eapply (alloc_above (frame_footprint n)); eauto.
  - intros copy Hcopy. stay. now apply _process_single_image_stays.
Qed.

End MaskFrame.

Lemma pre_fresh_frame (w : World) : pre (frame_footprint (length (heap w))) w.
Proof.
  split; [simpl; lia|]. intros l o Hl Ho.
  apply lookup_lt_Some in Ho. simpl in Hl. lia.
Qed.

Lemma kept_prefix fp n w w' v :
  fp_heap fp = Some n -> n = length (heap w) ->
  within fp w w' /\ pre fp w' ->
  (forall l, (l < length (heap w))%nat -> heap w' !! l = heap w !! l) /\
  (forall j, Obj.dumps (heap w) v = Ok j -> Obj.dumps (heap w') v = Ok j).
Proof.
  intros Hfp -> [(Hh & _) Hpre]. unfold pre in Hpre. rewrite Hfp in *. simpl in Hh.
  split; [exact Hh|]. intros j Hj. eapply dumps_stable; eauto. tauto.
Qed.

(** C3, amended.  [update_workflow] stamps a deep copy: the objects that
    existed before the call are all left as they were, and the template still
    serialises to the same document.  On the masking path every image of an
    archive is stamped on a copy made for it, which leaves the loaded graph as
    it was, whereas the stamping step itself writes into the graph it is
    given: the [inputs] object of the input node is changed in place. *)
Theorem mutation_on_copies :
  (forall workflow input_filename mask_filename bg_filename style_filename
          prompt_data w,
     let w' := snd (Workflow.update_workflow workflow input_filename mask_filename
                      bg_filename style_filename prompt_data w) in
     (forall l, (l < length (heap w))%nat -> heap w' !! l = heap w !! l) /\
     (forall j, Obj.dumps (heap w) workflow = Ok j ->
                Obj.dumps (heap w') workflow = Ok j)) /\
  (forall env cfg fuel graph i images w r w',
     Mask.process_zip_images env cfg fuel graph i images w = Some (r, w') ->
     (forall l, (l < length (heap w))%nat -> heap w' !! l = heap w !! l) /\
     (forall j, Obj.dumps (heap w) graph = Ok j ->
                Obj.dumps (heap w') graph = Ok j)) /\
  (forall cfg comfy_name w g top nl nitems m items,
     heap w !! g = Some (PDict top) ->
     Py.dict_get (Mask.INPUT_NODE_ID cfg) top = Some (PRef nl) ->
     heap w !! nl = Some (PDict nitems) ->
     Py.dict_get "inputs" nitems = Some (PRef m) ->
     heap w !! m = Some (PDict items) ->
     Mask.set_input_image cfg (PRef g) comfy_name w =
       (Ok tt,
        {| now := now w;
           heap := <[m := PDict (Py.dict_set "image" (PStr comfy_name) items)]> (heap w);
           trace := trace w; log := log w; files := files w |})).
Proof.
  split; [|split].
  - intros workflow a b c d prompt_data w w'.
    destruct (Workflow.update_workflow workflow a b c d prompt_data w) as [r w1] eqn:E.
    apply (kept_prefix (update_footprint (length (heap w))) (length (heap w)));
      [reflexivity|reflexivity|].
    eapply (update_workflow_stays (length (heap w))); [|exact E].
    apply pre_fresh_frame.
  - intros env cfg fuel graph i images w r w' E.
    apply (kept_prefix (frame_footprint (length (heap w))) (length (heap w)));
      [reflexivity|reflexivity|].
    eapply (process_zip_images_stays env cfg (length (heap w))); [|exact E].
    apply pre_fresh_frame.
  - intros cfg comfy_name w g top nl nitems m items Hg Hnode Hnl Hin Hm.
    assert (Ht : Obj.truthy (heap w) (PRef nl) = true).
    { unfold Obj.truthy. rewrite Hnl. destruct nitems; [discriminate|reflexivity]. }
    unfold Mask.set_input_image, bind, get_heap, lift.
    unfold Obj.get. rewrite Hg, Hnode, Ht. unfold ret at 1. rewrite Ht.
    cbn [negb]. unfold Obj.setdefault_dict. rewrite Hnl, Hin.
    cbn [fst snd]. unfold Obj.setitem. rewrite Hm. reflexivity.
Qed.

(** ** Polling until the deadline *)

Section MaskPolling.
Variable env : Env.
Variable cfg : Mask.Config.
Variable prompt_id : json.
Hypothesis interval_pos : 0 < Mask.POLL_INTERVAL_S cfg.
Hypothesis not_yet :
  forall tr, mask_not_yet prompt_id (engine env tr (GetHistory prompt_id)).

Lemma not_yet_not_ready hist :
  Py.truthy hist = false \/ Py.contains hist prompt_id = Ok false ->
  Mask.history_ready cfg prompt_id hist = Ok false.
Proof.
  unfold Mask.history_ready. intros [H|H].
  - now rewrite H.
  - destruct (Py.truthy hist); [|reflexivity]. simpl. now rewrite H.
Qed.

Lemma poll_loop_times_out fuel : forall w count deadline,
  (Z.to_nat (deadline - now w) < fuel)%nat ->
  exists w' k,
    Mask.poll_loop env cfg fuel prompt_id deadline count w =
      Some (Raise (HTTPException 504), w') /\
    deadline <= now w' /\
    trace w' = (trace w ++ replicate k (GetHistory prompt_id))%list /\
    (now w < deadline -> (0 < k)%nat) /\
    heap w' = heap w /\ files w' = files w /\
    last_event (log w') = Some (TimedOut (count + k)).
Proof.
  induction fuel as [|fuel IH]; intros w count deadline Hfuel; [lia|].
  cbn [Mask.poll_loop]. unfold bindF at 1, total at 1, time at 1.
  destruct (now w <? deadline) eqn:Enow.
  - apply Z.ltb_lt in Enow.
    unfold bindF at 1, total at 1, http at 1.
    pose proof (not_yet (trace w)) as Hr.
    set (w1 := {| now := now w + Z.of_N (latency env (trace w) (GetHistory prompt_id));
                  heap := heap w; trace := (trace w ++ [GetHistory prompt_id])%list;
                  log := log w; files := files w |}).
    assert (Hstep : exists l1,
      bindF (total
        match engine env (trace w) (GetHistory prompt_id) with
        | NoResponse => raise RequestException
        | Response status_code body _ =>
            if status_code =? 200 then
              match body with
              | None => raise RequestException
              | Some hist =>
                  ready <- lift (Mask.history_ready cfg prompt_id hist) ;;
                  if ready
                  then logm INFO (ResultsReceived (S count)) ;;; ret (Some hist)
                  else ret None
              end
            else
              logm WARNING (PollReturnedStatus (S count) status_code) ;;; ret None
        end)
        (fun found =>
           match found with
           | Some hist => total (ret hist)
           | None =>
               bindF (total (sleep (Mask.POLL_INTERVAL_S cfg))) (fun _ =>
                 Mask.poll_loop env cfg fuel prompt_id deadline (S count))
           end) w1 =
      Mask.poll_loop env cfg fuel prompt_id deadline (S count)
        {| now := now w1 + Mask.POLL_INTERVAL_S cfg; heap := heap w;
           trace := trace w1; log := l1; files := files w |}).
    { destruct (engine env (trace w) (GetHistory prompt_id)) as [|st body c];
        [contradiction|].
      unfold bindF at 1, total at 1.
      destruct (st =? 200) eqn:Est.
      - apply Z.eqb_eq in Est. destruct Hr as [Hr|(hist & -> & Hr)]; [contradiction|].
        unfold bind, lift. rewrite (not_yet_not_ready hist Hr). unfold ret.
        unfold bindF, total, sleep.
        destruct (Mask.POLL_INTERVAL_S cfg <? 0) eqn:Ei; [apply Z.ltb_lt in Ei; lia|].
        exists (log w). reflexivity.
      - unfold bind, logm, ret. unfold bindF, total, sleep. simpl.
        destruct (Mask.POLL_INTERVAL_S cfg <? 0) eqn:Ei; [apply Z.ltb_lt in Ei; lia|].
        eexists. reflexivity. }
    destruct Hstep as (l1 & ->).
    match goal with |- context [Mask.poll_loop _ _ _ _ _ _ ?w2] =>
      destruct (IH w2 (S count) deadline) as (w' & k & Hrun & Hd & Ht & _ & Hh & Hf & Hl)
    end.
    { simpl. lia. }
    exists w', (S k). rewrite Hrun. simpl in *.
    repeat split; auto; try lia.
    + rewrite Ht, <- app_assoc. reflexivity.
    + rewrite Hl. do 2 f_equal. lia.
  - apply Z.ltb_ge in Enow.
    exists {| now := now w; heap := heap w; trace := trace w;
              log := (log w ++ [(ERROR, TimedOut count)])%list; files := files w |}, O.
    simpl. rewrite app_nil_r, Nat.add_0_r. repeat split; auto; try lia.
    unfold last_event. rewrite last_snoc. reflexivity.
Qed.

End MaskPolling.

Section WorkflowPolling.
Variable env : Env.
Variable prompt_id : json.
Hypothesis not_yet :
  forall tr, workflow_not_yet prompt_id (engine env tr (GetHistory prompt_id)).

Lemma wait_for_history_times_out start attempts : forall w,
  exists w' k,
    Workflow.wait_for_history env prompt_id start attempts w = (Ok None, w') /\
    trace w' = (trace w ++ replicate k (GetHistory prompt_id))%list /\
    (k <= length attempts)%nat /\
    (attempts <> [] -> (0 < k)%nat) /\
    heap w' = heap w /\ files w' = files w /\
    (Workflow.POLLING_TIMEOUT <= now w' - start \/
     now w + Workflow.POLLING_INTERVAL * Z.of_nat (length attempts) <= now w') /\
    (last_event (log w') = Some (PollingTimeout prompt_id) \/
     last_event (log w') = Some (NoCompletionStatus prompt_id)).
Proof.
  induction attempts as [|attempt rest IH]; intros w.
  - exists {| now := now w; heap := heap w; trace := trace w;
              log := (log w ++ [(ERROR, NoCompletionStatus prompt_id)])%list;
              files := files w |}, O.
    simpl. rewrite app_nil_r. repeat split; auto; try lia; try congruence.
    right. unfold last_event. rewrite last_snoc. reflexivity.
  - cbn [Workflow.wait_for_history].
    set (w1now := now w + Z.of_N (latency env (trace w) (GetHistory prompt_id))).
    assert (Hstep : exists l1,
      try_except
        (r <- http env (GetHistory prompt_id) ;;
         match r with
         | NoResponse => raise RequestException
         | Response status_code body _ =>
             lift (raise_for_status status_code) ;;;
             match body with
             | None => raise RequestException
             | Some history =>
                 present <- lift (Py.contains history prompt_id) ;;
                 if present
                 then logm INFO (PromptCompleted prompt_id) ;;; ret (Some history)
                 else ret None
             end
         end)
        (fun e =>
           match e with
           | RequestException =>
               logm WARNING (HistoryFailed (S attempt)) ;;; ret None
           | _ => raise e
           end) w =
      (Ok None, {| now := w1now; heap := heap w;
                   trace := (trace w ++ [GetHistory prompt_id])%list;
                   log := l1; files := files w |}) /\
      (l1 = log w \/ exists e, l1 = (log w ++ [e])%list)).
    { pose proof (not_yet (trace w)) as Hr.
      unfold try_except, bind at 1, http at 1.
      destruct (engine env (trace w) (GetHistory prompt_id)) as [|st body c].
      - eexists. split; [reflexivity|]. right. eexists. reflexivity.
      - unfold bind at 1, lift at 1, raise_for_status.
        destruct ((400 <=? st) && (st <? 600)) eqn:Est.
        + eexists. split; [reflexivity|]. right. eexists. reflexivity.
        + destruct body as [history|].
          * destruct Hr as [Hr|[Hr|(h & Hb & Hr)]]; [lia|discriminate|].
            injection Hb as <-. unfold bind, lift. rewrite Hr.
            eexists. split; [reflexivity|]. now left.
          * eexists. split; [reflexivity|]. right. eexists. reflexivity. }
    destruct Hstep as (l1 & Hstep & Hl1). rewrite (bind_run _ _ _ _ _ Hstep).
    unfold bind at 1, time at 1. cbn [now].
    destruct (Workflow.POLLING_TIMEOUT <=? w1now - start) eqn:Et.
    + apply Z.leb_le in Et.
      exists {| now := w1now; heap := heap w;
                trace := (trace w ++ [GetHistory prompt_id])%list;
                log := (l1 ++ [(ERROR, PollingTimeout prompt_id)])%list;
                files := files w |}, 1%nat.
      simpl. repeat split; auto; try lia.
      left. unfold last_event. rewrite last_snoc. reflexivity.
    + unfold bind at 1, sleep at 1.
      change (Workflow.POLLING_INTERVAL <? 0) with false. cbn [now heap trace log files].
      match goal with |- context [Workflow.wait_for_history _ _ _ _ ?w2] =>
        destruct (IH w2) as (w' & k & Hrun & Ht & Hk & _ & Hh & Hf & Hn & Hl) end.
      exists w', (S k). rewrite Hrun. simpl in *.
      repeat split; auto; try lia.
      all: try (rewrite Ht, <- app_assoc; reflexivity).
      all: try (destruct Hn as [Hn|Hn]; [now left|right]; unfold w1now in *; lia).
Qed.

Lemma download_times_out output_path w :
  exists w' k,
    Workflow.download_processed_image env prompt_id output_path w = (Ok false, w') /\
    now w + Workflow.POLLING_TIMEOUT <= now w' /\
    trace w' = (trace w ++ replicate k (GetHistory prompt_id))%list /\
    (0 < k <= Workflow.max_attempts)%nat /\
    heap w' = heap w /\ files w' = files w /\
    (last_event (log w') = Some (PollingTimeout prompt_id) \/
     last_event (log w') = Some (NoCompletionStatus prompt_id)).
Proof.
  destruct (wait_for_history_times_out (now w) (seq 0 Workflow.max_attempts) w)
    as (w' & k & Hrun & Ht & Hk & Hpos & Hh & Hf & Hn & Hl).
  exists w', k. unfold Workflow.download_processed_image, try_except.
  unfold bind at 1, time at 1. rewrite (bind_run _ _ _ _ _ Hrun).
  unfold ret. rewrite length_seq in *.
  change (Z.of_nat Workflow.max_attempts) with 100 in Hn.
  assert (Hk0 : (0 < k)%nat) by (apply Hpos; discriminate).
  repeat split; auto.
  unfold Workflow.POLLING_TIMEOUT, Workflow.POLLING_INTERVAL in *. lia.
Qed.

End WorkflowPolling.

(** C4.  A poller whose every poll is answered "not yet" (an error status, or
    a history that lacks the job id) keeps polling, and fails only once the
    configured timeout has elapsed: the masking poller with the 504
    "timed out" error, the compositing poller by returning [False] after
    logging the timeout. *)
Theorem polling_exhausts_timeout (env : Env) (prompt_id : json) :
  (forall cfg w,
     0 < Mask.POLL_INTERVAL_S cfg ->
     (forall tr, mask_not_yet prompt_id (engine env tr (GetHistory prompt_id))) ->
     forall fuel, (Z.to_nat (Mask.POLL_TIMEOUT_S cfg) < fuel)%nat ->
     exists w' k,
       Mask._poll_history env cfg fuel prompt_id w =
         Some (Raise (HTTPException 504), w') /\
       now w + Mask.POLL_TIMEOUT_S cfg <= now w' /\
       trace w' = (trace w ++ replicate k (GetHistory prompt_id))%list /\
       (0 < Mask.POLL_TIMEOUT_S cfg -> (0 < k)%nat) /\
       last_event (log w') = Some (TimedOut k)) /\
  (forall output_path w,
     (forall tr, workflow_not_yet prompt_id (engine env tr (GetHistory prompt_id))) ->
     exists w' k,
       Workflow.download_processed_image env prompt_id output_path w = (Ok false, w') /\
       now w + Workflow.POLLING_TIMEOUT <= now w' /\
       trace w' = (trace w ++ replicate k (GetHistory prompt_id))%list /\
       (0 < k <= Workflow.max_attempts)%nat /\
       (last_event (log w') = Some (PollingTimeout prompt_id) \/
        last_event (log w') = Some (NoCompletionStatus prompt_id))).
Proof.
  split.
  - intros cfg w Hint Hny fuel Hfuel.
    destruct (poll_loop_times_out env cfg prompt_id Hint Hny fuel w 0%nat
                (now w + Mask.POLL_TIMEOUT_S cfg))
      as (w' & k & Hrun & Hd & Ht & Hk & _ & _ & Hl).
    { replace (now w + Mask.POLL_TIMEOUT_S cfg - now w) with (Mask.POLL_TIMEOUT_S cfg)
        by lia. exact Hfuel. }
    exists w', k. unfold Mask._poll_history, bindF, total, time.
    rewrite Hrun. repeat split; auto. intros Hpos. apply Hk. lia.
  - intros output_path w Hny.
    destruct (download_times_out env prompt_id Hny output_path w)
      as (w' & k & Hrun & Hn & Ht & Hk & _ & _ & Hl).
    exists w', k. auto.
Qed.

(** ** Resolving the output node *)

Section Resolve.
Variable cfg : Mask.Config.

Lemma first_with_images_found before id v after node0 :
  Forall (fun kv => node_without_images (snd kv)) before ->
  node_with_images v ->
  Mask.first_with_images (before ++ (id, v) :: after) node0 = Ok v.
Proof.
  intros Hb (o & imgs & -> & Hi & Ht).
  induction Hb as [|[k x] before Hx _ IH]; simpl.
  - rewrite Hi, Ht. reflexivity.
  - destruct Hx as (ox & Hxe & Hx). simpl in Hxe. subst x. simpl.
    destruct (Py.dict_get "images" ox) as [y|]; [rewrite Hx|]; exact IH.
Qed.

(** What the search returns: the first node with images, or the node it
    started with. *)
Lemma first_with_images_inv items node0 node :
  Mask.first_with_images items node0 = Ok node ->
  (exists id, first_node_with_images items id node) \/ node = node0.
Proof.
  induction items as [|[k x] items IH]; simpl.
  - intros H. injection H as <-. now right.
  - intros H. apply rbind_ok in H as (imgs & Hg & H).
    destruct x as [| | | | |ox]; try discriminate. simpl in Hg. injection Hg as <-.
    destruct (Py.dict_get "images" ox) as [y|] eqn:Ey.
    + destruct (Py.truthy y) eqn:Ety.
      * injection H as <-. left. exists k, [], items. split; [reflexivity|].
        split; [constructor|]. exists ox, y. auto.
      * destruct (IH H) as [(id & b & a & -> & Hb & Hn)| -> ]; [left|now right].
        exists id, ((k, JObj ox) :: b), a. split; [reflexivity|]. split; [|assumption].
        constructor; [|assumption]. exists ox. simpl. now rewrite Ey.
    + simpl in H.
      destruct (IH H) as [(id & b & a & -> & Hb & Hn)| -> ]; [left|now right].
      exists id, ((k, JObj ox) :: b), a. split; [reflexivity|]. split; [|assumption].
      constructor; [|assumption]. exists ox. simpl. now rewrite Ey.
Qed.

Lemma resolve_node_chosen outs node :
  chosen_node cfg outs node -> Mask.resolve_node cfg (JObj outs) = Ok node.
Proof.
  unfold Mask.resolve_node, chosen_node, designated_absent. simpl.
  intros [[Hd Ht]|[Hd (id & b & a & -> & Hb & Hn)]].
  - rewrite Hd, Ht. reflexivity.
  - destruct (Py.dict_get _ _) as [d|]; [rewrite Hd|]; simpl;
      now apply first_with_images_found.
Qed.

Lemma resolve_node_inv outputs node :
  Mask.resolve_node cfg outputs = Ok node -> Py.truthy node = true ->
  exists outs, outputs = JObj outs /\ chosen_node cfg outs node.
Proof.
  unfold Mask.resolve_node. intros H Ht.
  destruct outputs as [| | | | |outs]; try discriminate. exists outs. split; [reflexivity|].
  simpl in H. unfold chosen_node, designated_absent.
  destruct (Py.dict_get (Mask.OUTPUT_NODE_ID cfg) outs) as [d|] eqn:Ed.
  - destruct (Py.truthy d) eqn:Etd.
    + injection H as <-. left. auto.
    + simpl in H. apply first_with_images_inv in H as [H| ->]; [right; auto|congruence].
  - simpl in H. apply first_with_images_inv in H as [H| ->]; [right; auto|discriminate].
Qed.

End Resolve.

Section ResolveWorkflow.
Variable env : Env.

Lemma fallback_node_cons k o rest :
  Workflow.fallback_node ((k, JObj o) :: rest) =
  match Py.dict_get "images" o with
  | Some imgs => if Py.truthy imgs then Ok (Some (k, JObj o))
                 else Workflow.fallback_node rest
  | None => Workflow.fallback_node rest
  end.
Proof.
  cbn [Workflow.fallback_node Py.contains Py.getitem rbind].
  destruct (Py.dict_get "images" o); reflexivity.
Qed.

Lemma fallback_node_found before id v after :
  Forall (fun kv => node_without_images (snd kv)) before ->
  node_with_images v ->
  Workflow.fallback_node (before ++ (id, v) :: after) = Ok (Some (id, v)).
Proof.
  intros Hb (o & imgs & -> & Hi & Ht).
  induction Hb as [|[k x] before Hx _ IH]; cbn [app].
  - rewrite fallback_node_cons, Hi, Ht. reflexivity.
  - destruct Hx as (ox & Hxe & Hx). cbn [snd] in Hxe. subst x.
    rewrite fallback_node_cons.
    destruct (Py.dict_get "images" ox) as [y|]; [rewrite Hx|]; exact IH.
Qed.

Lemma fallback_node_none outs :
  Forall (fun kv => node_without_images (snd kv)) outs ->
  Workflow.fallback_node outs = Ok None.
Proof.
  induction 1 as [|[k x] outs Hx _ IH]; [reflexivity|].
  destruct Hx as (ox & Hxe & Hx). cbn [snd] in Hxe. subst x.
  rewrite fallback_node_cons.
  destruct (Py.dict_get "images" ox) as [y|]; [rewrite Hx|]; exact IH.
Qed.

Lemma lacks_images_designated outs :
  designated_lacking "15" outs ->
  Workflow.lacks_images
    (match Py.dict_get "15" outs with Some v => v | None => JObj [] end) = Ok true.
Proof.
  unfold designated_lacking, Workflow.lacks_images.
  destruct (Py.dict_get "15" outs) as [d|]; [|reflexivity].
  intros [Ht|(o & -> & Ho)].
  - now rewrite Ht.
  - destruct o as [|kv o]; [reflexivity|]. cbn [Py.truthy negb Py.contains].
    rewrite Ho. reflexivity.
Qed.

Lemma lacks_images_with v : node_with_images v -> Workflow.lacks_images v = Ok false.
Proof.
  intros (o & imgs & -> & Hi & Ht). unfold Workflow.lacks_images.
  destruct o as [|kv o]; [discriminate|]. cbn [Py.truthy negb Py.contains].
  rewrite Hi. reflexivity.
Qed.

Lemma resolve_preview_fallback prompt_id history entry outs id v w :
  Py.getitem history prompt_id = Ok entry ->
  Py.get entry "outputs" (JObj []) = Ok (JObj outs) ->
  designated_lacking "15" outs ->
  first_node_with_images outs id v ->
  Workflow.resolve_preview_node prompt_id history w =
    (Ok (Some v),
     {| now := now w; heap := heap w; trace := trace w;
        log := (log w ++ [(ERROR, NoImagesInNode15 prompt_id);
                          (WARNING, UsingFallbackNode id)])%list;
        files := files w |}).
Proof.
  intros He Ho Hd (b & a & -> & Hb & Hn).
  unfold Workflow.resolve_preview_node, bind, lift, logm, ret.
  rewrite He, Ho. cbn [Py.get Py.items].
  rewrite (lacks_images_designated _ Hd).
  rewrite (fallback_node_found _ _ _ _ Hb Hn).
  cbn [now heap trace log files]. rewrite (lacks_images_with _ Hn).
  rewrite <- app_assoc. reflexivity.
Qed.

End ResolveWorkflow.

(** C5 (amended). In a completed job history whose designated output node is
    absent from the outputs or is an empty descriptor (for the batch path
    also: has no [images] key at all), while some node has a non-empty
    [images], the resolver of either path settles on the first such node, in
    the order of the outputs; the batch path logs the fallback. *)
Theorem fallback_to_first_node_with_images (cfg : Mask.Config)
    (prompt_id history entry : json) (outs : list (string * json))
    (id : string) (v : json) :
  Py.getitem history prompt_id = Ok entry ->
  Py.get entry "outputs" (JObj []) = Ok (JObj outs) ->
  first_node_with_images outs id v ->
  (designated_absent (Mask.OUTPUT_NODE_ID cfg) outs ->
     Mask.resolve_node cfg (JObj outs) = Ok v) /\
  (designated_lacking "15" outs ->
     forall w, exists w',
       Workflow.resolve_preview_node prompt_id history w = (Ok (Some v), w') /\
       (WARNING, UsingFallbackNode id) ∈ log w' /\
       trace w' = trace w /\ files w' = files w).
Proof.
  intros He Ho Hf. split.
  - intros Hd. apply resolve_node_chosen. right. split; [assumption|]. now exists id.
  - intros Hd w. eexists. split; [exact (resolve_preview_fallback _ _ _ _ _ _ w He Ho Hd Hf)|].
    cbn [log trace files]. split; [|split; reflexivity].
    rewrite elem_of_app. right. apply list_elem_of_In. simpl. auto.
Qed.

(** ** When a poller takes a job for complete *)

Section Completion.
Variable cfg : Mask.Config.

Lemma get_images_with node imgs :
  Py.get node "images" JNull = Ok imgs -> Py.truthy imgs = true ->
  node_with_images node.
Proof.
  destruct node as [| | | | |o]; try discriminate. cbn [Py.get].
  intros H Ht. injection H as <-.
  destruct (Py.dict_get "images" o) as [x|] eqn:E; [|discriminate].
  now exists o, x.
Qed.

Lemma with_images_truthy node :
  node_with_images node ->
  Py.truthy node = true /\
  exists imgs, Py.get node "images" JNull = Ok imgs /\ Py.truthy imgs = true.
Proof.
  intros (o & imgs & -> & Hi & Ht). split.
  - destruct o; [discriminate|reflexivity].
  - exists imgs. cbn [Py.get]. now rewrite Hi.
Qed.

Lemma history_ready_job p hist :
  Mask.history_ready cfg (JStr p) hist = Ok true <-> job_ready cfg p hist.
Proof.
  unfold Mask.history_ready. split.
  - destruct (Py.truthy hist) eqn:Eh; [|discriminate]. cbn [negb].
    intros H. apply rbind_ok in H as (present & Hc & H).
    destruct present; [|discriminate]. cbn [negb] in H.
    apply rbind_ok in H as (entry & He & H).
    apply rbind_ok in H as (outputs & Ho & H).
    apply rbind_ok in H as (node & Hn & H).
    destruct (Py.truthy node) eqn:Etn; [|discriminate]. cbn [negb] in H.
    apply rbind_ok in H as (imgs & Hi & H). injection H as Hti.
    destruct (resolve_node_inv cfg _ _ Hn Etn) as (outs & -> & Hch).
    destruct hist as [| | |s|xs|items]; try discriminate.
    exists items, entry, outs, node. split; [reflexivity|].
    cbn [Py.getitem] in He.
    destruct (Py.dict_get p items) as [e|]; [|discriminate]. injection He as ->.
    repeat split; try assumption. eapply get_images_with; eassumption.
  - intros (items & entry & outs & node & -> & He & Ho & Hch & Hw).
    destruct (with_images_truthy _ Hw) as (Htn & imgs & Hi & Hti).
    assert (Hti' : Py.truthy (JObj items) = true).
    { destruct items; [discriminate|reflexivity]. }
    rewrite Hti'. cbn [negb Py.contains Py.getitem]. rewrite He. cbn [rbind negb].
    rewrite Ho. cbn [rbind]. rewrite (resolve_node_chosen cfg _ _ Hch). cbn [rbind].
    rewrite Htn. cbn [negb]. rewrite Hi. cbn [rbind]. now rewrite Hti.
Qed.

End Completion.

Section MaskCompletion.
Variable env : Env.
Variable cfg : Mask.Config.

(** The masking poller hands back a history only on a poll that found the
    job ready. *)
Lemma poll_loop_sound p fuel : forall deadline count w hist w',
  Mask.poll_loop env cfg fuel (JStr p) deadline count w = Some (Ok hist, w') ->
  job_ready cfg p hist /\
  exists tr c, engine env tr (GetHistory (JStr p)) = Response 200 (Some hist) c.
Proof.
  induction fuel as [|fuel IH]; intros deadline count w hist w'; [discriminate|].
  cbn [Mask.poll_loop]. unfold bindF at 1, total at 1, time at 1.
  destruct (now w <? deadline); [|discriminate].
  unfold bindF at 1, total at 1, http at 1.
  destruct (engine env (trace w) (GetHistory (JStr p))) as [|st body c] eqn:Er.
  { discriminate. }
  unfold bindF at 1, total at 1.
  destruct (st =? 200) eqn:Est.
  - apply Z.eqb_eq in Est. subst st.
    destruct body as [h|]; [|discriminate].
    unfold bind at 1, lift at 1.
    destruct (Mask.history_ready cfg (JStr p) h) as [[|]|e] eqn:Ehr; [| |discriminate].
    + unfold bind, logm, ret, total. intros H. injection H as <- _.
      split; [now apply history_ready_job|]. eauto.
    + unfold ret at 1. unfold bindF at 1, total at 1, sleep at 1.
      destruct (Mask.POLL_INTERVAL_S cfg <? 0); [discriminate|apply IH].
  - unfold bind at 1, logm at 1, ret at 1.
    unfold bindF at 1, total at 1, sleep at 1.
    destruct (Mask.POLL_INTERVAL_S cfg <? 0); [discriminate|apply IH].
Qed.

(** A poll before the deadline that finds the job ready returns at once. *)
Lemma poll_loop_ready p fuel deadline count w hist c :
  now w < deadline ->
  engine env (trace w) (GetHistory (JStr p)) = Response 200 (Some hist) c ->
  job_ready cfg p hist ->
  exists w', Mask.poll_loop env cfg (S fuel) (JStr p) deadline count w =
               Some (Ok hist, w') /\
             trace w' = (trace w ++ [GetHistory (JStr p)])%list /\
             last_event (log w') = Some (ResultsReceived (S count)).
Proof.
  intros Hnow Er Hready. apply history_ready_job in Hready.
  cbn [Mask.poll_loop]. unfold bindF at 1, total at 1, time at 1.
  apply Z.ltb_lt in Hnow. rewrite Hnow.
  unfold bindF at 1, total at 1, http at 1. rewrite Er.
  unfold bindF at 1, total at 1. cbn [Z.eqb Pos.eqb].
  unfold bind at 1, lift at 1. rewrite Hready.
  unfold bind, logm, ret, total. eexists. split; [reflexivity|].
  cbn [trace log]. split; [reflexivity|].
  unfold last_event. rewrite last_snoc. reflexivity.
Qed.

(** The compositing poller stops on the first answer whose history has the
    job id as a key, whatever its outputs. *)
Lemma wait_for_history_present prompt_id start attempt rest w st history c :
  engine env (trace w) (GetHistory prompt_id) = Response st (Some history) c ->
  ~ (400 <= st < 600) ->
  Py.contains history prompt_id = Ok true ->
  exists w', Workflow.wait_for_history env prompt_id start (attempt :: rest) w =
               (Ok (Some history), w') /\
             trace w' = (trace w ++ [GetHistory prompt_id])%list /\
             last_event (log w') = Some (PromptCompleted prompt_id).
Proof.
  intros Er Hst Hc. cbn [Workflow.wait_for_history].
  unfold bind at 1, try_except at 1, bind at 1, http at 1. rewrite Er.
  unfold bind at 1, lift at 1, raise_for_status.
  destruct ((400 <=? st) && (st <? 600)) eqn:E.
  { apply andb_true_iff in E as [E1 E2]. apply Z.leb_le in E1. apply Z.ltb_lt in E2. lia. }
  unfold bind at 1, lift at 1. rewrite Hc.
  unfold bind, logm, ret. eexists. split; [reflexivity|].
  cbn [trace log]. split; [reflexivity|].
  unfold last_event. rewrite last_snoc. reflexivity.
Qed.

Lemma wait_for_history_sound prompt_id start attempts : forall w history w',
  Workflow.wait_for_history env prompt_id start attempts w = (Ok (Some history), w') ->
  Py.contains history prompt_id = Ok true /\
  exists tr st c, engine env tr (GetHistory prompt_id) = Response st (Some history) c.
Proof.
  induction attempts as [|attempt rest IH]; intros w history w'.
  { cbn [Workflow.wait_for_history]. unfold bind, logm, ret. discriminate. }
  cbn [Workflow.wait_for_history].
  unfold bind at 1, try_except at 1, bind at 1, http at 1.
  destruct (engine env (trace w) (GetHistory prompt_id)) as [|st body c] eqn:Er.
  - unfold raise at 1. unfold bind at 1, logm at 1. unfold ret at 1.
    unfold bind at 1, time at 1. cbn [now].
    match goal with |- context [if ?b then _ else _] => destruct b end.
    + unfold bind, logm, ret. discriminate.
    + unfold bind at 1, sleep at 1. apply IH.
  - unfold bind at 1, lift at 1, raise_for_status.
    destruct ((400 <=? st) && (st <? 600)).
    + unfold bind at 1, logm at 1. unfold ret at 1.
      unfold bind at 1, time at 1. cbn [now].
      match goal with |- context [if ?b then _ else _] => destruct b end.
      * unfold bind, logm, ret. discriminate.
      * unfold bind at 1, sleep at 1. apply IH.
    + destruct body as [h|].
      * unfold bind at 1, lift at 1.
        destruct (Py.contains h prompt_id) as [[|]|e] eqn:Ec.
        -- unfold bind, logm, ret. intros H. injection H as <- _. split; eauto.
        -- unfold ret at 1. unfold bind at 1, time at 1. cbn [now].
           match goal with |- context [if ?b then _ else _] => destruct b end.
           ++ unfold bind, logm, ret. discriminate.
           ++ unfold bind at 1, sleep at 1. apply IH.
        -- destruct e; try discriminate.
           unfold bind at 1, logm at 1. unfold ret at 1.
           unfold bind at 1, time at 1. cbn [now].
           match goal with |- context [if ?b then _ else _] => destruct b end.
           ++ unfold bind, logm, ret. discriminate.
           ++ unfold bind at 1, sleep at 1. apply IH.
      * unfold raise at 1. unfold bind at 1, logm at 1. unfold ret at 1.
        unfold bind at 1, time at 1. cbn [now].
        match goal with |- context [if ?b then _ else _] => destruct b end.
        -- unfold bind, logm, ret. discriminate.
        -- unfold bind at 1, sleep at 1. apply IH.
Qed.

End MaskCompletion.


(** C1 (amended). The masking poller takes a job for complete if and only if
    the job id is a key of the history answer and the chosen output node (the
    designated one or, when that is absent or empty, the first node with
    images) has a non-empty [images]; it never returns on the mere presence
    of the key.  The compositing poller takes a job for complete as soon as
    the job id is a key of the history answer, whatever the outputs hold. *)
Theorem completion_criterion (env : Env) :
  (forall cfg p,
     (forall fuel deadline count w hist w',
        Mask.poll_loop env cfg fuel (JStr p) deadline count w = Some (Ok hist, w') ->
        job_ready cfg p hist) /\
     (forall fuel deadline count w hist c,
        now w < deadline ->
        engine env (trace w) (GetHistory (JStr p)) = Response 200 (Some hist) c ->
        (job_ready cfg p hist <->
         exists w', Mask.poll_loop env cfg (S fuel) (JStr p) deadline count w =
                      Some (Ok hist, w') /\
                    trace w' = (trace w ++ [GetHistory (JStr p)])%list))) /\
  (forall prompt_id start,
     (forall attempts w history w',
        Workflow.wait_for_history env prompt_id start attempts w =
          (Ok (Some history), w') ->
        Py.contains history prompt_id = Ok true) /\
     (forall attempt rest w st history c,
        engine env (trace w) (GetHistory prompt_id) = Response st (Some history) c ->
        ~ (400 <= st < 600) ->
        (Py.contains history prompt_id = Ok true <->
         exists w', Workflow.wait_for_history env prompt_id start (attempt :: rest) w =
                      (Ok (Some history), w') /\
                    trace w' = (trace w ++ [GetHistory prompt_id])%list /\
                    last_event (log w') = Some (PromptCompleted prompt_id)))).
Proof.
  split.
  - intros cfg p. split.
    + intros fuel deadline count w hist w' H.
      exact (proj1 (poll_loop_sound env cfg p fuel deadline count w hist w' H)).
    + intros fuel deadline count w hist c Hnow Er. split.
      * intros Hr.
        destruct (poll_loop_ready env cfg p fuel deadline count w hist c Hnow Er Hr)
          as (w' & H & Ht & _).
        eauto.
      * intros (w' & H & _).
        exact (proj1 (poll_loop_sound env cfg p _ deadline count w hist w' H)).
  - intros prompt_id start. split.
    + intros attempts w history w' H.
      exact (proj1 (wait_for_history_sound env prompt_id start attempts w history w' H)).
    + intros attempt rest w st history c Er Hst. split.
      * intros Hc.
        exact (wait_for_history_present env prompt_id start attempt rest w st history c
                 Er Hst Hc).
      * intros (w' & H & _).
        exact (proj1 (wait_for_history_sound env prompt_id start _ w history w' H)).
Qed.

(** * Further properties of the code *)

(** ** The masking uploader *)

Section MaskUpload.
Variable env : Env.
Variable cfg : Mask.Config.

Lemma refused_upto_shift tr rq k :
  accepted env tr rq = false ->
  refused_upto env (tr ++ [rq])%list rq k ->
  refused_upto env tr rq (S k).
Proof.
  intros H0 H i Hi. destruct i as [|i].
  - simpl. now rewrite app_nil_r.
  - specialize (H i ltac:(lia)). rewrite <- app_assoc in H. exact H.
Qed.

Lemma upload_attempts_spec stamped content name attempts : forall w,
  let rq := PostUpload stamped content in
  exists r k w',
    Mask.upload_attempts env cfg stamped content name attempts w = (r, w') /\
    trace w' = (trace w ++ replicate k rq)%list /\
    (k <= length attempts)%nat /\
    heap w' = heap w /\ files w' = files w /\
    ((exists j, k = S j /\ r = Ok stamped /\
                refused_upto env (trace w) rq j /\
                accepted env (trace w ++ replicate j rq)%list rq = true) \/
     (k = length attempts /\ r = Raise (HTTPException 502) /\
      refused_upto env (trace w) rq k)).
Proof.
  induction attempts as [|attempt rest IH]; intros w rq.
  - exists (Raise (HTTPException 502)), 0%nat. eexists. split; [reflexivity|].
    cbn. rewrite app_nil_r. repeat split; [lia|]. right. repeat split.
    intros i Hi. lia.
  - cbn [Mask.upload_attempts].
    unfold bind at 1, try_except at 1, bind at 1, http at 1. fold rq.
    pose proof (eq_refl (accepted env (trace w) rq)) as Ha.
    unfold accepted at 1 in Ha.
    set (w1 := {| now := now w + Z.of_N (latency env (trace w) rq);
                  heap := heap w; trace := (trace w ++ [rq])%list;
                  log := log w; files := files w |}).
    assert (Hfail : forall wl,
      trace wl = trace w1 -> heap wl = heap w -> files wl = files w ->
      accepted env (trace w) rq = false ->
      exists r k w',
        Mask.upload_attempts env cfg stamped content name rest wl = (r, w') /\
        trace w' = (trace w ++ replicate k rq)%list /\
        (k <= length (attempt :: rest))%nat /\
        heap w' = heap w /\ files w' = files w /\
        ((exists j, k = S j /\ r = Ok stamped /\
                    refused_upto env (trace w) rq j /\
                    accepted env (trace w ++ replicate j rq)%list rq = true) \/
         (k = length (attempt :: rest) /\ r = Raise (HTTPException 502) /\
          refused_upto env (trace w) rq k))).
    { intros wl Htl Hhl Hfl Hacc.
      destruct (IH wl) as (r & k & w' & Hrun & Ht & Hk & Hh & Hf & Hcase).
      exists r, (S k), w'. split; [exact Hrun|].
      rewrite Ht, Hh, Hf, Htl. cbn [trace w1]. rewrite <- app_assoc.
      split; [reflexivity|]. split; [simpl; lia|].
      split; [assumption|]. split; [assumption|].
      rewrite Htl in Hcase. cbn [trace w1] in Hcase.
      destruct Hcase as [(j & -> & -> & Href & Hj)|(-> & -> & Href)].
      - left. exists (S j). repeat split.
        + now apply refused_upto_shift.
        + rewrite <- app_assoc in Hj. exact Hj.
      - right. repeat split. now apply refused_upto_shift. }
    destruct (engine env (trace w) rq) as [|st body c].
    + unfold raise at 1. unfold bind at 1, logm at 1.
      destruct (Z.of_nat attempt <? Mask.MAX_RETRIES cfg - 1).
      * unfold bind at 1, sleep at 1. cbn [Z.ltb Z.compare]. unfold ret at 1.
        apply Hfail; auto.
      * unfold bind at 1, ret at 1. unfold ret at 1. apply Hfail; auto.
    + unfold bind at 1, lift at 1, raise_for_status.
      destruct ((400 <=? st) && (st <? 600)).
      * unfold bind at 1, logm at 1.
        destruct (Z.of_nat attempt <? Mask.MAX_RETRIES cfg - 1).
        -- unfold bind at 1, sleep at 1. cbn [Z.ltb Z.compare]. unfold ret at 1.
           apply Hfail; auto.
        -- unfold bind at 1, ret at 1. unfold ret at 1. apply Hfail; auto.
      * unfold ret. exists (Ok stamped), 1%nat, w1. split; [reflexivity|].
        split; [reflexivity|]. split; [simpl; lia|].
        split; [reflexivity|]. split; [reflexivity|].
        left. exists 0%nat. repeat split.
        -- intros i Hi. lia.
        -- simpl. rewrite app_nil_r. symmetry. exact Ha.
Qed.

End MaskUpload.

(** X1. [_upload_to_comfy] sends the image under the stamped name
    [{ms}_{original_name}] at most [MAX_RETRIES] times, all the requests
    being the same one.  It returns the stamped name at the first sending
    the engine takes, and raises HTTP 502 after [MAX_RETRIES] refused
    sendings; it writes no file and changes no object. *)
Theorem upload_to_comfy_retries (env : Env) (cfg : Mask.Config)
    (img_bytes original_name : string) (w : World) :
  let stamped := pretty (now w) ++ "_" ++ original_name in
  let rq := PostUpload stamped img_bytes in
  exists r k w',
    Mask._upload_to_comfy env cfg img_bytes original_name w = (r, w') /\
    trace w' = (trace w ++ replicate k rq)%list /\
    (k <= Z.to_nat (Mask.MAX_RETRIES cfg))%nat /\
    heap w' = heap w /\ files w' = files w /\
    ((exists j, k = S j /\ r = Ok stamped /\
                refused_upto env (trace w) rq j /\
                accepted env (trace w ++ replicate j rq)%list rq = true) \/
     (k = Z.to_nat (Mask.MAX_RETRIES cfg) /\ r = Raise (HTTPException 502) /\
      refused_upto env (trace w) rq k)).
Proof.
  intros stamped rq. unfold Mask._upload_to_comfy, bind at 1, time at 1.
  fold stamped.
  destruct (upload_attempts_spec env cfg stamped img_bytes original_name
              (seq 0 (Z.to_nat (Mask.MAX_RETRIES cfg))) w)
    as (r & k & w' & Hrun & Ht & Hk & Hh & Hf & Hcase).
  rewrite length_seq in Hcase, Hk.
  exists r, k, w'. repeat split; assumption.
Qed.

(** ** Archives of the masking service *)

Lemma chars_of_chars l : PyStr.chars (PyStr.of_chars l) = l.
Proof. apply list_ascii_of_string_of_list_ascii. Qed.

Lemma chars_nil s : PyStr.chars s = [] -> s = "".
Proof. intros H. now apply chars_inj. Qed.

Lemma is_dir_empty : Mask.is_dir "" = Raise IndexError.
Proof. reflexivity. Qed.

Lemma is_dir_spec filename :
  filename <> "" -> Mask.is_dir filename = Ok (PyStr.endswith filename "/").
Proof.
  intros Hne. unfold Mask.is_dir, PyStr.endswith.
  destruct (rev (PyStr.chars filename)) as [|c l] eqn:E.
  - apply (f_equal (@rev ascii)) in E. rewrite rev_involutive in E. cbn in E.
    now apply chars_nil in E.
  - apply (f_equal (@rev ascii)) in E. rewrite rev_involutive in E. cbn in E.
    rewrite E. f_equal. apply bool_decide_ext. split.
    + intros ->. now exists (rev l).
    + intros [k Hk]. change (PyStr.chars "/") with [PyStr.slash] in Hk.
      now apply app_inj_tail in Hk as [_ ->].
Qed.

Lemma before_nul_no_zero l : Ascii.zero ∉ before_nul l.
Proof.
  induction l as [|c rest IH]; cbn [before_nul]; [apply not_elem_of_nil|].
  destruct (decide (c = Ascii.zero)); [apply not_elem_of_nil|].
  intros H. apply elem_of_cons in H as [H|H]; [congruence|auto].
Qed.



Lemma zipinfo_name_no_zero s : Ascii.zero ∉ PyStr.chars (zipinfo_name s).
Proof. unfold zipinfo_name. rewrite chars_of_chars. apply before_nul_no_zero. Qed.


Lemma extract_entries_spec zip_file entries : forall w,
  exists w',
    Mask.extract_entries zip_file entries w =
      (if bool_decide ("" ∈ ze_filename <$> entries) then Raise IndexError
       else Ok (omap (zip_image zip_file) entries), w') /\
    trace w' = trace w /\ heap w' = heap w /\ files w' = files w /\ now w' = now w.
Proof.
  induction entries as [|e rest IH]; intros w.
  - exists w. repeat split.
  - cbn [Mask.extract_entries omap list_omap fmap list_fmap]. unfold zip_image at 1.
    cbn zeta. unfold bind at 1, lift at 1.
    destruct (decide (ze_filename e = "")) as [He|He].
    { rewrite He, is_dir_empty. exists w.
      rewrite bool_decide_true by left. repeat split. }
    rewrite (is_dir_spec _ He).
    assert (Hmem : bool_decide ("" ∈ ze_filename e :: (ze_filename <$> rest))
                   = bool_decide ("" ∈ ze_filename <$> rest)).
    { apply bool_decide_ext. rewrite elem_of_cons. split; [|auto].
      intros [H|H]; [congruence|assumption]. }
    rewrite Hmem.
    destruct (PyStr.endswith (ze_filename e) "/"); [apply IH|].
    destruct (PyStr.endswith_any _ _); [|apply IH].
    destruct (Mask.zip_read zip_file (ze_filename e)) as [image_bytes|];
      cbn [fmap option_fmap option_map].
    + destruct (IH w) as (w' & Hrun & H).
      exists w'. unfold bind. rewrite Hrun.
      destruct (bool_decide _); (split; [reflexivity|exact H]).
    + unfold bind at 1, logm at 1.
      match goal with |- context [Mask.extract_entries zip_file rest ?w1] =>
        destruct (IH w1) as (w' & Hrun & Ht & Hh & Hf & Hn) end.
      exists w'. split; [exact Hrun|]. cbn in *. auto.
Qed.

Lemma zip_image_name zip_file e p : zip_image zip_file e = Some p ->
  fst p = ze_filename e /\ PyStr.endswith (fst p) "/" = false /\
  PyStr.endswith_any (PyStr.lower (fst p)) Mask.image_exts = true /\
  Mask.zip_read zip_file (fst p) = Some (snd p).
Proof.
  unfold zip_image. cbn zeta.
  destruct (PyStr.endswith (ze_filename e) "/") eqn:Ed; [discriminate|].
  destruct (PyStr.endswith_any _ _) eqn:E; [|discriminate].
  destruct (Mask.zip_read zip_file (ze_filename e)) eqn:Er; [|discriminate].
  intros H. injection H as <-. auto.
Qed.

(** A name of an image taken from an archive is not empty, names no
    directory and holds no null byte. *)
Lemma zip_image_sound zip_file e p : zip_image zip_file e = Some p ->
  fst p <> "" /\ PyStr.endswith (fst p) "/" = false /\
  (Ascii.zero ∉ PyStr.chars (fst p)).
Proof.
  intros H. apply zip_image_name in H as (Hn & Hd & Hx & _).
  split; [|split; [assumption|]].
  - intros Hp. rewrite Hp in Hx. discriminate.
  - rewrite Hn. apply zipinfo_name_no_zero.
Qed.

Lemma zip_images_names zip_file entries :
  sublist (fst <$> omap (zip_image zip_file) entries) (ze_filename <$> entries).
Proof.
  induction entries as [|e rest IH]; cbn [omap list_omap]; [constructor|].
  destruct (zip_image zip_file e) as [p|] eqn:E.
  - cbn. apply zip_image_name in E as (-> & _). now constructor.
  - cbn. now constructor.
Qed.

(** What a run of the extraction comes to. *)
Lemma extract_images_run env zip_bytes w :
  exists w',
    Mask._extract_images_from_zip env zip_bytes w =
      (match unzip env zip_bytes with
       | None => Raise (HTTPException 400)
       | Some entries =>
           if bool_decide ("" ∈ ze_filename <$> entries)
           then Raise (HTTPException 400)
           else match omap (zip_image entries) entries with
                | [] => Raise (HTTPException 400)
                | images => Ok images
                end
       end, w') /\
    trace w' = trace w /\ heap w' = heap w /\ files w' = files w.
Proof.
  unfold Mask._extract_images_from_zip.
  destruct (unzip env zip_bytes) as [entries|].
  - destruct (extract_entries_spec entries entries w) as (w1 & Hrun & Ht & Hh & Hf & _).
    unfold bind at 1, try_except. rewrite Hrun.
    destruct (bool_decide _).
    + unfold bind, logm, raise. eexists. split; [reflexivity|]. cbn. auto.
    + destruct (omap (zip_image entries) entries) as [|p rest].
      * unfold bind, logm, raise. eexists. split; [reflexivity|]. cbn. auto.
      * unfold ret. exists w1. auto.
  - unfold bind, logm, raise. eexists. split; [reflexivity|]. cbn. auto.
Qed.

Lemma extract_images_result env zip_bytes w r w' :
  Mask._extract_images_from_zip env zip_bytes w = (r, w') ->
  match r with
  | Ok images =>
      images <> [] /\
      exists entries, unzip env zip_bytes = Some entries /\
                      images = omap (zip_image entries) entries
  | Raise e => e = HTTPException 400
  end.
Proof.
  destruct (extract_images_run env zip_bytes w) as (w1 & -> & _).
  intros H. injection H as <- _.
  destruct (unzip env zip_bytes) as [entries|]; [|reflexivity].
  destruct (bool_decide _); [reflexivity|].
  destruct (omap (zip_image entries) entries) as [|p rest] eqn:E; [reflexivity|].
  split; [discriminate|]. exists entries. auto.
Qed.

(** X2. [_extract_images_from_zip] goes through the entries in archive order
    and takes those that name no directory and whose lower-cased name ends
    with one of the six image extensions, each with the bytes the archive
    reads under its name: those of the last entry so named, so that entries
    of one name come out with the same bytes; an entry whose bytes cannot be
    read is left out.  It raises HTTP 400 when the archive cannot be opened,
    when an entry has an empty name, and when no image is left, so a
    returned list is never empty.  It makes no request and writes no
    file. *)
Theorem extract_images_from_zip_spec (env : Env) (zip_bytes : string) (w : World) :
  exists w',
    Mask._extract_images_from_zip env zip_bytes w =
      (match unzip env zip_bytes with
       | None => Raise (HTTPException 400)
       | Some entries =>
           if bool_decide ("" ∈ ze_filename <$> entries)
           then Raise (HTTPException 400)
           else match omap (zip_image entries) entries with
                | [] => Raise (HTTPException 400)
                | images => Ok images
                end
       end, w') /\
    trace w' = trace w /\ heap w' = heap w /\ files w' = files w /\
    forall images,
      fst (Mask._extract_images_from_zip env zip_bytes w) = Ok images ->
      images <> [] /\
      Forall (fun p =>
                PyStr.endswith_any (PyStr.lower (fst p)) Mask.image_exts = true /\
                fst p <> "" /\ PyStr.endswith (fst p) "/" = false /\
                (Ascii.zero ∉ PyStr.chars (fst p))) images /\
      (forall n b b', (n, b) ∈ images -> (n, b') ∈ images -> b = b') /\
      exists entries,
        unzip env zip_bytes = Some entries /\
        sublist (fst <$> images) (ze_filename <$> entries) /\
        Forall (fun p => exists e, e ∈ entries /\ ze_filename e = fst p /\
                                   ze_data e = Some (snd p)) images.
Proof.
  destruct (extract_images_run env zip_bytes w) as (w' & Hrun & Ht & Hh & Hf).
  exists w'. split; [exact Hrun|]. split; [assumption|]. split; [assumption|].
  split; [assumption|].
  intros images H. destruct (Mask._extract_images_from_zip env zip_bytes w) as [r w1] eqn:E.
  cbn in H. subst r. apply extract_images_result in E as (Hne & entries & Hun & ->).
  split; [assumption|]. split; [|split].
  - apply Forall_forall. intros p Hp. apply list_elem_of_omap in Hp as (e & _ & He).
    destruct (zip_image_sound _ _ _ He) as (H1 & H2 & H3).
    apply zip_image_name in He as (_ & _ & Hx & _). auto.
  - intros n b b' Hb Hb'.
    apply list_elem_of_omap in Hb as (e & _ & He).
    apply list_elem_of_omap in Hb' as (e' & _ & He').
    apply zip_image_name in He as (_ & _ & _ & He).
    apply zip_image_name in He' as (_ & _ & _ & He'). cbn in He, He'. congruence.
  - exists entries. split; [assumption|]. split; [apply zip_images_names|].
    apply Forall_forall. intros p Hp. apply list_elem_of_omap in Hp as (e0 & _ & He).
    apply zip_image_name in He as (_ & _ & _ & He). unfold Mask.zip_read in He.
    destruct (last (filter (fun e => ze_filename e = fst p) entries)) as [e|] eqn:El;
      [|discriminate].
    cbn in He. apply last_Some in El as (l' & El).
    assert (Hin : e ∈ filter (fun e => ze_filename e = fst p) entries).
    { rewrite El. apply elem_of_app. right. left. }
    apply list_elem_of_filter in Hin as (Hname & Hin). exists e. auto.
Qed.














(** ** The masking batch over an archive *)

Lemma bindF_ok {A B} (m : MF A) (k : A -> MF B) w b w' :
  bindF m k w = Some (Ok b, w') ->
  exists a w1, m w = Some (Ok a, w1) /\ k a w1 = Some (Ok b, w').
Proof.
  unfold bindF. destruct (m w) as [[[a|e] w1]|]; intros H; try discriminate. eauto.
Qed.


Section ZipBatch.
Variable env : Env.
Variable cfg : Mask.Config.

(** A processed image keeps the name it came with. *)
Lemma _process_single_image_name fuel img_bytes original_name graph w n out w' :
  Mask._process_single_image env cfg fuel img_bytes original_name graph w =
    Some (Ok (n, out), w') ->
  n = original_name.
Proof.
  unfold Mask._process_single_image. intros H.
  apply bindF_ok in H as (comfy_name & w1 & _ & H).
  apply bindF_ok in H as (u & w2 & _ & H).
  apply bindF_ok in H as (pid & w3 & _ & H).
  apply bindF_ok in H as (history & w4 & _ & H).
  apply bindF_ok in H as (out_bytes & w5 & _ & H).
  unfold total, ret in H. now injection H as <- _ _.
Qed.



End ZipBatch.


(** ** The uploader of the compositing service *)

Section WorkflowUpload.
Variable env : Env.

Lemma upload_outcome_later path w w1 hreqs v reqs w' :
  trace w1 = (trace w ++ hreqs)%list -> Forall (upload_of env path) hreqs ->
  heap w1 = heap w -> files w1 = files w ->
  upload_outcome env path w1 v reqs w' ->
  upload_outcome env path w v (hreqs ++ reqs)%list w'.
Proof.
  intros Ht Hu Hh Hf (Ht' & Hu' & Hh' & Hf' & Hv).
  split; [rewrite Ht', Ht; now rewrite app_assoc|].
  split; [now apply Forall_app|].
  split; [congruence|]. split; [congruence|].
  destruct Hv as [->|(before & rq & st & body & c & -> & He & Ha & Hg)]; [now left|].
  right. exists (hreqs ++ before)%list, rq, st, body, c.
  rewrite Ht, <- !app_assoc in *. auto.
Qed.

Lemma upload_loop_spec path make_unique attempts : forall w,
  exists v reqs w',
    Workflow.upload_loop env path make_unique attempts w = (Ok v, w') /\
    (length reqs <= length attempts)%nat /\
    upload_outcome env path w v reqs w'.
Proof.
  induction attempts as [|attempt rest IH]; intros w.
  - exists JNull, [], w. split; [reflexivity|]. split; [reflexivity|].
    unfold upload_outcome. rewrite app_nil_r. repeat split; auto.
  - cbn [Workflow.upload_loop]. unfold bind at 1, try_except at 1.
    match goal with |- context [match ?m w with _ => _ end] =>
      assert (Hm : forall r w1, m w = (r, w1) ->
        exists hreqs,
          trace w1 = (trace w ++ hreqs)%list /\ (length hreqs <= 1)%nat /\
          Forall (upload_of env path) hreqs /\
          heap w1 = heap w /\ files w1 = files w /\
          forall o, r = Ok o ->
            exists v, o = Some v /\ upload_outcome env path w v hreqs w1);
      [|destruct (m w) as [[o|e] w1] eqn:Em] end.
    { intros r w1. destruct (read_file env path) as [content|] eqn:Erf.
      - unfold bind at 1, time at 1. unfold bind at 1, http at 1.
        match goal with |- context [engine env (trace w) ?rq0] => set (rq := rq0) end.
        assert (Hup : upload_of env path rq) by (eexists _, _; split; [reflexivity|exact Erf]).
        pose proof (eq_refl (accepted env (trace w) rq)) as Ha. unfold accepted at 1 in Ha.
        destruct (engine env (trace w) rq) as [|st body c] eqn:Er.
        + unfold raise. intros H. injection H as <- <-. exists [rq]. cbn.
          repeat split; auto. intros o Ho. discriminate.
        + unfold bind at 1, lift at 1, raise_for_status.
          destruct ((400 <=? st) && (st <? 600)).
          * intros H. injection H as <- <-. exists [rq]. cbn.
            repeat split; auto. intros o Ho. discriminate.
          * destruct body as [result|].
            -- unfold bind at 1, lift at 1.
               destruct (Py.get result "name" (JStr (PyStr.basename path))) as [v|e] eqn:Eg.
               ++ unfold bind, logm, ret. intros H. injection H as <- <-. exists [rq]. cbn.
                  repeat split; auto. intros o Ho. injection Ho as <-.
                  exists v. split; [reflexivity|]. unfold upload_outcome. cbn.
                  repeat split; auto. right. exists [], rq, st, result, c.
                  rewrite app_nil_r. auto.
               ++ intros H. injection H as <- <-. exists [rq]. cbn.
                  repeat split; auto. intros o Ho. discriminate.
            -- unfold raise. intros H. injection H as <- <-. exists [rq]. cbn.
               repeat split; auto. intros o Ho. discriminate.
      - unfold raise. intros H. injection H as <- <-. exists []. cbn.
        rewrite app_nil_r. repeat split; auto. intros o Ho. discriminate. }
    + destruct (Hm _ _ eq_refl) as (hreqs & Ht & Hl & Hu & Hh & Hf & Ho).
      destruct (Ho o eq_refl) as (v & -> & Hout).
      exists v, hreqs, w1. unfold ret. split; [reflexivity|].
      split; [simpl; lia|]. exact Hout.
    + destruct (Hm _ _ eq_refl) as (hreqs & Ht & Hl & Hu & Hh & Hf & _).
      unfold bind at 1, logm at 1.
      destruct (attempt <? Workflow.MAX_RETRIES - 1)%nat.
      * unfold bind at 1, sleep at 1. cbn [Z.ltb Z.compare Workflow.RETRY_DELAY].
        unfold ret at 1.
        match goal with |- context [Workflow.upload_loop _ _ _ rest ?wl] =>
          destruct (IH wl) as (v & reqs & w' & Hrun & Hlen & Hout) end.
        exists v, (hreqs ++ reqs)%list, w'. split; [exact Hrun|].
        split; [rewrite length_app; simpl; lia|].
        eapply upload_outcome_later; [| | | |exact Hout]; cbn; auto.
      * unfold bind, logm, ret. eexists JNull, hreqs, _. split; [reflexivity|].
        split; [simpl; lia|]. unfold upload_outcome. cbn. repeat split; auto.
Qed.

End WorkflowUpload.

(** X5. [upload_image_with_retry] never raises.  For a path that does not
    exist it returns [None] without any request; otherwise it posts the file
    at most [MAX_RETRIES] = 3 times, writes no file and changes no object,
    and a value other than [None] is the [name] of the JSON answer to its
    last request (the base name of the path when the answer has no [name]),
    an answer without error status. *)
Theorem upload_image_with_retry_spec (env : Env) (image_path : string)
    (make_unique : bool) (w : World) :
  exists v reqs w',
    Workflow.upload_image_with_retry env image_path make_unique w = (Ok v, w') /\
    (length reqs <= Workflow.MAX_RETRIES)%nat /\
    upload_outcome env image_path w v reqs w' /\
    (path_exists env image_path = false -> v = JNull /\ reqs = []).
Proof.
  unfold Workflow.upload_image_with_retry.
  destruct (path_exists env image_path).
  - cbn [negb].
    destruct (upload_loop_spec env image_path make_unique (seq 0 Workflow.MAX_RETRIES) w)
      as (v & reqs & w' & Hrun & Hlen & Hout).
    rewrite length_seq in Hlen. exists v, reqs, w'.
    split; [assumption|]. split; [assumption|]. split; [assumption|]. discriminate.
  - cbn [negb]. unfold bind, logm, ret. eexists JNull, [], _.
    split; [reflexivity|]. split; [simpl; lia|]. split; [|auto].
    unfold upload_outcome. cbn. rewrite app_nil_r. repeat split; auto.
Qed.

(** ** The style names a batch needs *)

Lemma eqb_refl_hashable x : Py.hashable x = true -> Py.eqb x x = true.
Proof.
  destruct x as [|b|z|s| |]; simpl; try discriminate; intros _.
  - reflexivity.
  - now destruct b.
  - apply Z.eqb_refl.
  - apply String.eqb_refl.
Qed.

Lemma eqb_sym_hashable a b :
  Py.hashable a = true -> Py.hashable b = true -> Py.eqb a b = Py.eqb b a.
Proof.
  destruct a as [|x|x|x| |], b as [|y|y|y| |]; simpl; try discriminate; intros _ _;
    try reflexivity.
  - now destruct x, y.
  - apply Z.eqb_sym.
  - apply String.eqb_sym.
Qed.

Lemma existsb_eqb x (s : list json) :
  existsb (Py.eqb x) s = true <-> exists y, y ∈ s /\ Py.eqb x y = true.
Proof.
  rewrite existsb_exists. split; intros (y & Hy & H); exists y; split; auto;
    now apply list_elem_of_In.
Qed.

Lemma set_add_distinct x s :
  Py.hashable x = true -> Forall (fun y => Py.hashable y = true) s ->
  distinct_values s ->
  distinct_values (Py.set_add x s) /\
  Forall (fun y => Py.hashable y = true) (Py.set_add x s).
Proof.
  intros Hx Hs [Hnd Heq]. unfold Py.set_add.
  destruct (existsb (Py.eqb x) s) eqn:E; [repeat split; assumption|].
  assert (Hno : forall y, y ∈ s -> Py.eqb x y = false).
  { intros y Hy. destruct (Py.eqb x y) eqn:Ey; [|reflexivity].
    assert (existsb (Py.eqb x) s = true) by (apply existsb_eqb; eauto). congruence. }
  split; [split|].
  - apply NoDup_app. split; [assumption|]. split; [|apply NoDup_singleton].
    intros y Hy Hyx. apply list_elem_of_singleton in Hyx as ->.
    specialize (Hno _ Hy). rewrite eqb_refl_hashable in Hno by assumption. discriminate.
  - intros a b Ha Hb Hab.
    apply elem_of_app in Ha as [Ha|Ha], Hb as [Hb|Hb].
    + now apply Heq.
    + apply list_elem_of_singleton in Hb as ->.
      rewrite Forall_forall in Hs. pose proof (Hs _ Ha) as Hha.
      rewrite (eqb_sym_hashable a x Hha Hx), (Hno _ Ha) in Hab. discriminate.
    + apply list_elem_of_singleton in Ha as ->. rewrite Hno in Hab by assumption.
      discriminate.
    + apply list_elem_of_singleton in Ha as ->.
      apply list_elem_of_singleton in Hb as ->. reflexivity.
  - apply Forall_app. split; [assumption|]. now constructor.
Qed.

Lemma set_add_mem x s y : y ∈ Py.set_add x s <-> y ∈ s \/ (y = x /\ existsb (Py.eqb x) s = false).
Proof.
  unfold Py.set_add. destruct (existsb (Py.eqb x) s).
  - split; [auto|]. intros [H|[_ H]]; [assumption|discriminate].
  - rewrite elem_of_app, list_elem_of_singleton. split.
    + intros [H|H]; auto.
    + intros [H|[H _]]; auto.
Qed.

Lemma collect_styles_spec products : forall acc out,
  Workflow.collect_styles products acc = Ok out ->
  Forall (fun y => Py.hashable y = true) acc -> distinct_values acc ->
  distinct_values out /\
  (forall s, s ∈ out -> s ∈ acc \/ style_request products s) /\
  (forall s, s ∈ acc -> s ∈ out) /\
  (forall s, style_request products s -> exists s', s' ∈ out /\ Py.eqb s s' = true).
Proof.
  induction products as [|product rest IH]; intros acc out; cbn [Workflow.collect_styles].
  - intros H Hh Hd. injection H as <-. repeat split; try apply Hd; auto.
    intros s (p & Hp & _). inversion Hp.
  - assert (Hskip : forall P : Prop,
      (forall s, style_request (product :: rest) s -> style_request rest s \/ P) ->
      Workflow.collect_styles rest acc = Ok out ->
      (P -> False) ->
      Forall (fun y => Py.hashable y = true) acc -> distinct_values acc ->
      distinct_values out /\
      (forall s, s ∈ out -> s ∈ acc \/ style_request (product :: rest) s) /\
      (forall s, s ∈ acc -> s ∈ out) /\
      (forall s, style_request (product :: rest) s ->
                 exists s', s' ∈ out /\ Py.eqb s s' = true)).
    { intros P HP H HnP Hh Hd.
      destruct (IH _ _ H Hh Hd) as (Hdo & Hfrom & Hkeep & Hall).
      split; [assumption|]. split; [|split; [assumption|]].
      - intros s Hs. destruct (Hfrom s Hs) as [?|(p & Hp & Hr)]; [now left|].
        right. exists p. split; [now right|assumption].
      - intros s Hs. destruct (HP s Hs) as [Hr|HPs]; [now apply Hall|now destruct HnP]. }
    destruct (Py.is_dict product) eqn:Edict.
    + intros H. apply rbind_ok in H as (style & Hget & H).
      destruct (Py.truthy style) eqn:Et.
      * destruct (Py.hashable style) eqn:Ehash; [|discriminate].
        intros Hh Hd.
        destruct (set_add_distinct style acc Ehash Hh Hd) as [Hd' Hh'].
        destruct (IH _ _ H Hh' Hd') as (Hdo & Hfrom & Hkeep & Hall).
        split; [assumption|]. split; [|split].
        -- intros s Hs. destruct (Hfrom s Hs) as [Hin|(p & Hp & Hr)].
           ++ apply set_add_mem in Hin as [Hin|[-> _]]; [now left|].
              right. exists product. split; [left|auto].
           ++ right. exists p. split; [now right|assumption].
        -- intros s Hs. apply Hkeep. apply set_add_mem. now left.
        -- intros s (p & Hp & Hpd & Hpg & Hpt).
           apply elem_of_cons in Hp as [->|Hp].
           ++ rewrite Hget in Hpg. injection Hpg as <-.
              destruct (existsb (Py.eqb style) acc) eqn:Eex.
              ** apply existsb_eqb in Eex as (y & Hy & Hsy).
                 exists y. split; [|assumption]. apply Hkeep, set_add_mem. now left.
              ** exists style. split; [|now apply eqb_refl_hashable].
                 apply Hkeep, set_add_mem. right. auto.
           ++ apply Hall. exists p. auto.
      * apply (Hskip (Py.truthy style = true)); [|assumption|congruence].
        intros s (p & Hp & Hpd & Hpg & Hpt).
        apply elem_of_cons in Hp as [->|Hp].
        -- right. rewrite Hget in Hpg. now injection Hpg as <-.
        -- left. exists p. auto.
    + intros H. apply (Hskip False); [|assumption|tauto].
      intros s (p & Hp & Hpd & Hpg & Hpt).
      apply elem_of_cons in Hp as [->|Hp]; [congruence|].
      left. exists p. auto.
Qed.

(** X6. [get_required_style_images] returns the non-empty [style_image]
    values of the dict products of [prompts_data], each once: the list holds
    no value twice (also up to [==]), every element is asked for by some
    product, and every style asked for is in the list.  For an empty
    [prompts_data] the list is empty. *)
Theorem required_styles_unique (env : Env) (prompts_data : json) (styles : list json) :
  Workflow.get_required_style_images env prompts_data = Ok styles ->
  (Py.truthy prompts_data = false -> styles = []) /\
  distinct_values styles /\
  forall products, Py.values prompts_data = Ok products ->
    (forall s, s ∈ styles -> style_request products s) /\
    (forall s, style_request products s ->
               exists s', s' ∈ styles /\ Py.eqb s s' = true).
Proof.
  unfold Workflow.get_required_style_images.
  destruct (Py.truthy prompts_data) eqn:Et; cbn [negb].
  - intros H. apply rbind_ok in H as (products & Hv & H).
    apply rbind_ok in H as (collected & Hc & H). injection H as <-.
    destruct (collect_styles_spec products [] collected Hc) as ([Hnd Heq] & Hfrom & _ & Hall).
    { constructor. }
    { split; [constructor|]. intros a b Ha. inversion Ha. }
    assert (Hperm : Workflow.list_of_set env collected ≡ₚ collected).
    { unfold Workflow.list_of_set. apply merge_sort_Permutation. }
    split; [discriminate|]. split; [split|].
    + now rewrite Hperm.
    + intros a b Ha Hb. rewrite Hperm in Ha, Hb. now apply Heq.
    + intros products' Hv'. rewrite Hv in Hv'. injection Hv' as <-. split.
      * intros s Hs. rewrite Hperm in Hs. destruct (Hfrom s Hs) as [Hin|?]; [inversion Hin|assumption].
      * intros s Hs. destruct (Hall s Hs) as (s' & Hs' & He). exists s'.
        rewrite Hperm. auto.
  - intros H. injection H as <-. split; [reflexivity|]. split.
    + split; [constructor|]. intros a b Ha. inversion Ha.
    + intros products Hv. split.
      * intros s Hs. inversion Hs.
      * intros s (p & Hp & _). exfalso.
        destruct prompts_data as [| | | | |items]; try discriminate.
        destruct items; [|discriminate]. injection Hv as <-. inversion Hp.
Qed.

(** ** Matching style names with files *)

Section BestMatches.
Variable env : Env.

Lemma style_score_exact a b :
  (10 <= Workflow.style_score env a b)%nat <->
  String.eqb (str_lower env a) (str_lower env b) = true.
Proof.
  unfold Workflow.style_score.
  destruct (String.eqb (str_lower env a) (str_lower env b));
    destruct (PyStr.contains _ _), (PyStr.contains _ _); split; intros H;
    try reflexivity; try discriminate; lia.
Qed.

Lemma best_style_file_searched name files : forall done bm bs bm' bs',
  Workflow.best_style_file env (JStr name) files bm bs = Ok (bm', bs') ->
  searched env name done bm bs -> searched env name (done ++ files) bm' bs'.
Proof.
  induction files as [|f rest IH]; intros done bm bs bm' bs'; cbn [Workflow.best_style_file].
  - intros H. injection H as <- <-. now rewrite app_nil_r.
  - fold (file_score env name f). intros H Hs.
    replace (done ++ f :: rest)%list with ((done ++ [f]) ++ rest)%list
      by now rewrite <- app_assoc.
    destruct (bs <? file_score env name f)%nat eqn:E.
    + apply Nat.ltb_lt in E. apply (IH _ _ _ _ _ H). cbn. split; [reflexivity|].
      exists done, []. split; [reflexivity|]. split; [lia|]. split; [|constructor].
      destruct bm as [f0|]; cbn in Hs.
      * destruct Hs as (-> & before & after & -> & Hpos & Hb & Ha).
        apply Forall_app. split; [|constructor].
        -- eapply Forall_impl; [exact Hb|]. cbn. intros. lia.
        -- lia.
        -- eapply Forall_impl; [exact Ha|]. cbn. intros. lia.
      * destruct Hs as (-> & Hz). eapply Forall_impl; [exact Hz|]. cbn. intros. lia.
    + apply Nat.ltb_ge in E. apply (IH _ _ _ _ _ H).
      destruct bm as [f0|]; cbn in Hs |- *.
      * destruct Hs as (-> & before & after & -> & Hpos & Hb & Ha).
        split; [reflexivity|]. exists before, (after ++ [f])%list.
        split; [now rewrite <- app_assoc|]. split; [assumption|]. split; [assumption|].
        apply Forall_app. split; [assumption|]. constructor; [assumption|constructor].
      * destruct Hs as (-> & Hz). split; [reflexivity|].
        apply Forall_app. split; [assumption|]. constructor; [lia|constructor].
Qed.

Lemma best_match_set s f name (matches : list (json * string)) :
  s = JStr name ->
  best_file env (Workflow.style_files_of (walk env Workflow.style_folder)) name f ->
  Forall (best_match env) matches ->
  Forall (best_match env) (Py.assoc_set s f matches).
Proof.
  intros -> Hf Hall. apply Forall_forall. intros e He.
  apply assoc_set_entries in He as [He|(k' & -> & Hk)].
  - rewrite Forall_forall in Hall. now apply Hall.
  - exists name. cbn. split; [|assumption].
    destruct Hk as [->|Hk]; [reflexivity|].
    destruct k'; cbn in Hk; try discriminate.
    apply String.eqb_eq in Hk. now subst.
Qed.

Lemma match_styles_best required : forall matches w matches' w',
  Workflow.match_styles env (Workflow.style_files_of (walk env Workflow.style_folder))
    required matches w = (Ok matches', w') ->
  Forall (best_match env) matches -> Forall (best_match env) matches'.
Proof.
  induction required as [|s rest IH]; intros matches w matches' w'; cbn [Workflow.match_styles].
  - intros H. injection H as <- <-. auto.
  - intros H Hall. apply bind_ok in H as ([bm bs] & w1 & Hb & H).
    apply lift_inv in Hb as [Hb ->]. symmetry in Hb.
    destruct bm as [f|].
    + destruct (negb (f =? "")%string && (0 <? bs)%nat) eqn:E.
      * apply bind_ok in H as (_ & w2 & _ & H). apply IH in H; [assumption|].
        destruct s as [| | |name| |];
          try (destruct (Workflow.style_files_of (walk env Workflow.style_folder));
               discriminate).
        apply (best_style_file_searched name _ []) in Hb; [|cbn; auto].
        cbn in Hb. destruct Hb as (_ & Hb). now apply (best_match_set _ _ name).
      * apply bind_ok in H as (_ & w2 & _ & H). now apply IH in H.
    + apply bind_ok in H as (_ & w2 & _ & H). now apply IH in H.
Qed.

End BestMatches.

(** X7. Every entry of the table [find_style_file_matches] returns pairs a
    style name with a file found under the style folder whose score for it
    is above zero and the highest of all the files, the first such file in
    the order of the walk.  So when some file is named exactly like the
    style, apart from what [str.lower] folds, the file picked is named
    exactly like it too. *)
Theorem style_match_is_best (env : Env) (required_styles : list json) (w : World)
    (matches : list (json * string)) (w' : World) :
  Workflow.find_style_file_matches env required_styles w = (Ok matches, w') ->
  Forall (best_match env) matches /\
  forall name f g,
    (JStr name, f) ∈ matches ->
    g ∈ Workflow.style_files_of (walk env Workflow.style_folder) ->
    str_lower env name = str_lower env (fst (PyStr.splitext (PyStr.basename g))) ->
    str_lower env name = str_lower env (fst (PyStr.splitext (PyStr.basename f))).
Proof.
  intros H.
  assert (Hall : Forall (best_match env) matches).
  { revert H. unfold Workflow.find_style_file_matches.
    destruct (path_exists env Workflow.style_folder); cbn [negb].
    - intros H. apply match_styles_best in H; auto.
    - intros H. apply bind_ok in H as (_ & w1 & _ & H).
      apply ret_inv in H as [H _]. injection H as ->. constructor. }
  split; [assumption|].
  intros name f g Hin Hg Heq.
  rewrite Forall_forall in Hall. destruct (Hall _ Hin) as (name' & Hn & Hbest).
  cbn in Hn, Hbest. injection Hn as <-.
  destruct Hbest as (before & after & Hfiles & Hpos & Hb & Ha).
  assert (Hge : (file_score env name g <= file_score env name f)%nat).
  { rewrite Hfiles in Hg. apply elem_of_app in Hg as [Hg|Hg].
    - rewrite Forall_forall in Hb. specialize (Hb _ Hg). lia.
    - apply elem_of_cons in Hg as [->|Hg]; [lia|].
      rewrite Forall_forall in Ha. now apply Ha. }
  assert (H10 : (10 <= file_score env name g)%nat).
  { apply style_score_exact. rewrite Heq. apply String.eqb_refl. }
  apply String.eqb_eq. apply style_score_exact. unfold file_score in *. lia.
Qed.
(** ** Submitting a job graph *)

(** X8. [submit_workflow_to_comfyui] never raises, writes no file and
    changes no object.  It sends at most one request, the graph as it
    serialises at that moment, and returns something other than [None] only
    when the engine answered that request without error status and with a
    JSON object whose [prompt_id] is the non-empty value returned. *)
Theorem submit_workflow_spec (env : Env) (workflow : pval) (w : World) :
  exists v w',
    Workflow.submit_workflow_to_comfyui env workflow w = (Ok v, w') /\
    heap w' = heap w /\ files w' = files w /\
    (trace w' = trace w \/
     exists g, Obj.dumps (heap w) workflow = Ok g /\
               trace w' = (trace w ++ [PostPrompt g])%list) /\
    (v <> JNull ->
     exists g st body c,
       Obj.dumps (heap w) workflow = Ok g /\
       engine env (trace w) (PostPrompt g) = Response st (Some body) c /\
       accepted env (trace w) (PostPrompt g) = true /\
       Py.get body "prompt_id" JNull = Ok v /\ Py.truthy v = true).
Proof.
  unfold Workflow.submit_workflow_to_comfyui, try_except.
  unfold bind at 1, get_heap at 1. unfold bind at 1, lift at 1.
  destruct (Workflow.has_len (heap w) workflow) as [[]|e].
  2:{ unfold bind, logm, ret. eexists _, _. split; [reflexivity|]. cbn.
      repeat split; auto. congruence. }
  unfold bind at 1, serialise at 1.
  destruct (Obj.dumps (heap w) workflow) as [g|e] eqn:Eg.
  2:{ unfold bind, logm, ret. eexists _, _. split; [reflexivity|]. cbn.
      repeat split; auto. congruence. }
  unfold bind at 1, http at 1.
  pose proof (eq_refl (accepted env (trace w) (PostPrompt g))) as Ha.
  unfold accepted at 1 in Ha.
  destruct (engine env (trace w) (PostPrompt g)) as [|st body c] eqn:Er.
  { unfold raise, bind, logm, ret. eexists _, _. split; [reflexivity|]. cbn.
    repeat split; eauto. congruence. }
  unfold bind at 1, lift at 1, raise_for_status.
  destruct ((400 <=? st) && (st <? 600)).
  { unfold bind, logm, ret. eexists _, _. split; [reflexivity|]. cbn.
    repeat split; eauto. congruence. }
  destruct body as [result|].
  2:{ unfold raise, bind, logm, ret. eexists _, _. split; [reflexivity|]. cbn.
      repeat split; eauto. congruence. }
  unfold bind at 1, lift at 1.
  destruct (Py.get result "prompt_id" JNull) as [pid|e] eqn:Ep.
  2:{ unfold bind, logm, ret. eexists _, _. split; [reflexivity|]. cbn.
      repeat split; eauto. congruence. }
  destruct (Py.truthy pid) eqn:Et.
  - unfold ret. eexists _, _. split; [reflexivity|]. cbn.
    repeat split; eauto. intros _. exists g, st, result, c. auto.
  - unfold bind, logm, ret. eexists _, _. split; [reflexivity|]. cbn.
    repeat split; eauto. congruence.
Qed.

(** ** The counters of a renaming run *)

Section RenameCounters.
Import Rename.
Variable has_valid_face : string -> option bool.
Variable copy2 : string -> string -> bool.
Variable relpath : string -> string.
Variable failure : string -> string.
Variable output_dir : string.

Lemma accounted_initial : accounted relpath failure [] initial.
Proof.
  repeat split; cbn; auto. exists [], []. repeat split; constructor.
Qed.

Lemma accounted_step done st img :
  accounted relpath failure done st ->
  accounted relpath failure (done ++ [img])
            (process_one has_valid_face copy2 relpath failure output_dir st img).
Proof.
  intros (Htot & Hsum & Hlen & Hren & Hall & processed & failed &
          Hsp & Hsf & Hperm & Hdet & Herrs).
  unfold process_one.
  assert (Herr : forall st',
    processed_count st' = processed_count st ->
    renamed_count st' = renamed_count st -> skipped_count st' = skipped_count st ->
    errors st' = (errors st ++ [error_msg failure img])%list ->
    processing_details st' = processing_details st ->
    accounted relpath failure (done ++ [img]) st').
  { intros st' H1 H2 H3 H4 H5. unfold accounted.
    rewrite H1, H2, H3, H4, H5, !length_app. cbn.
    repeat split; try assumption; try lia.
    exists processed, (failed ++ [img])%list.
    split; [now apply sublist_inserts_r|].
    split; [now apply sublist_app|].
    split; [now rewrite app_assoc, Hperm|].
    split; [assumption|]. rewrite map_app, Herrs. reflexivity. }
  destruct (has_valid_face img) as [has_face|]; [|now apply Herr].
  assert (Hok : forall new_filename names calls,
    accounted relpath failure (done ++ [img])
      {| processed_count := S (processed_count st);
         renamed_count := if negb has_face then S (renamed_count st) else renamed_count st;
         skipped_count := if negb has_face then skipped_count st else S (skipped_count st);
         errors := errors st;
         processing_details :=
           (processing_details st
              ++ [Detail (relpath img) new_filename (negb has_face) has_face])%list;
         existing_names := names;
         copy_calls := calls |}).
  { intros new_filename names calls. unfold accounted. cbn.
    rewrite !length_app, filter_app, length_app, map_app. cbn.
    split; [lia|]. split; [destruct has_face; cbn; lia|]. split; [lia|].
    split.
    { destruct has_face; cbn;
        match goal with |- context [decide ?P] => destruct (decide P) as [Hd|Hd] end;
        cbn in *; try tauto; lia. }
    split; [apply Forall_app; split; [assumption|repeat constructor]|].
    exists (processed ++ [img])%list, failed.
    split; [now apply sublist_app|].
    split; [now apply sublist_inserts_r|].
    split.
    { etransitivity; [|apply Permutation_app_tail; exact Hperm].
      rewrite <- !app_assoc. apply Permutation_app_head. apply Permutation_app_comm. }
    split; [|assumption]. rewrite map_app, Hdet. reflexivity. }
  destruct has_face.
  - cbn [negb] in *. destruct (copy2 img _); [apply Hok|now apply Herr].
  - destruct (next_closeup_name_total (existing_names st)
                (snd (PyStr.splitext (PyStr.basename img)))) as (n & ->).
    cbn [negb] in *. destruct (copy2 img _); [apply Hok|now apply Herr].
Qed.

Lemma accounted_run files : forall done st,
  accounted relpath failure done st ->
  accounted relpath failure (done ++ files)
            (process_from has_valid_face copy2 relpath failure output_dir st files).
Proof.
  induction files as [|img rest IH]; intros done st H; cbn.
  - now rewrite app_nil_r.
  - replace (done ++ img :: rest)%list with ((done ++ [img]) ++ rest)%list
      by now rewrite <- app_assoc.
    apply IH. now apply accounted_step.
Qed.

End RenameCounters.

(** X9. In the report of [process_images] every image found under the input
    directory is counted exactly once, as processed or as an error:
    [processed_images] plus the number of errors is [total_images],
    [processed_images] is [renamed_images] plus [skipped_images] and the
    length of [processing_details], and an entry is renamed exactly when no
    face was detected.  The images found split into those processed and
    those that failed, each kept in the order they were found: the details
    list the paths of the former relative to the input directory, and the
    errors are the messages [Error processing <path>: <reason>] of the
    latter. *)
Theorem rename_report_accounts (has_valid_face : string -> option bool)
    (copy2 : string -> string -> bool) (relpath failure : string -> string)
    (output_dir : string) (walk : list (string * list string)) :
  accounted relpath failure (Rename.collect_images walk)
            (Rename.process_images has_valid_face copy2 relpath failure output_dir walk).
Proof.
  unfold Rename.process_images.
  apply (accounted_run has_valid_face copy2 relpath failure output_dir _ []
           Rename.initial).
  apply accounted_initial.
Qed.

(** ** The address of the engine *)

Lemma lstrip_slash_head l x rest :
  PyStr.lstrip_slash l = x :: rest -> x <> PyStr.slash.
Proof.
  induction l as [|y l IH]; cbn; [discriminate|].
  destruct (decide (y = PyStr.slash)); [exact IH|].
  intros H. injection H as <- _. assumption.
Qed.

Lemma rstrip_slash_end l before : PyStr.rstrip_slash l <> (before ++ [PyStr.slash])%list.
Proof.
  unfold PyStr.rstrip_slash. intros H. apply (f_equal (@rev ascii)) in H.
  rewrite rev_involutive, rev_app_distr in H. cbn in H.
  now apply lstrip_slash_head in H.
Qed.

Lemma rstrip_slash_snoc l :
  PyStr.rstrip_slash (l ++ [PyStr.slash]) = PyStr.rstrip_slash l.
Proof.
  unfold PyStr.rstrip_slash. rewrite rev_app_distr. cbn.
  destruct (decide (PyStr.slash = PyStr.slash)); [reflexivity|congruence].
Qed.

Lemma lstrip_slash_idem l : PyStr.lstrip_slash (PyStr.lstrip_slash l) = PyStr.lstrip_slash l.
Proof.
  induction l as [|y l IH]; cbn; [reflexivity|].
  destruct (decide (y = PyStr.slash)) as [->|Hy]; [exact IH|].
  cbn. destruct (decide (y = PyStr.slash)); [contradiction|reflexivity].
Qed.

Lemma rstrip_slash_idem l :
  PyStr.rstrip_slash (PyStr.rstrip_slash l) = PyStr.rstrip_slash l.
Proof.
  unfold PyStr.rstrip_slash. now rewrite rev_involutive, lstrip_slash_idem.
Qed.

Lemma chars_normalized url :
  PyStr.chars (PyStr.of_chars (PyStr.rstrip_slash (PyStr.chars url)) ++ "/") =
  (PyStr.rstrip_slash (PyStr.chars url) ++ [PyStr.slash])%list.
Proof. rewrite chars_app, chars_of_chars. reflexivity. Qed.

Lemma blank_nil_eqb url : PyStr.blank url = false -> String.eqb url "" = false.
Proof.
  intros H. destruct (String.eqb url "") eqn:E; [|reflexivity].
  apply String.eqb_eq in E. subst. discriminate.
Qed.

Lemma is_space2_slash a : PyStr.is_space2 a PyStr.slash = false.
Proof. unfold PyStr.is_space2. apply andb_false_r. Qed.

Lemma is_space3_slash a b : PyStr.is_space3 a b PyStr.slash = false.
Proof.
  unfold PyStr.is_space3.
  change (nat_of_ascii PyStr.slash) with 47%nat.
  change (47 =? 128)%nat with false. change (47 =? 159)%nat with false.
  change (47 =? 168)%nat with false. change (47 =? 169)%nat with false.
  change (47 =? 175)%nat with false. change (128 <=? 47)%nat with false.
  cbn [andb orb]. now rewrite !andb_false_r.
Qed.

Lemma blank_chars_slash l : PyStr.blank_chars (l ++ [PyStr.slash]) = false.
Proof.
  remember (length l) as n eqn:Hn. revert l Hn.
  induction n as [n IH] using lt_wf_ind. intros l Hn.
  assert (Hrec : forall k, (length k < n)%nat ->
            PyStr.blank_chars (k ++ [PyStr.slash]) = false).
  { intros k Hk. now apply (IH (length k) Hk k). }
  subst n. clear IH.
  destruct l as [|a [|b [|c rest]]]; cbn [app PyStr.blank_chars].
  - reflexivity.
  - destruct (PyStr.is_space1 a); [reflexivity|].
    now rewrite is_space2_slash.
  - destruct (PyStr.is_space1 a).
    { apply (Hrec [b]). cbn. lia. }
    destruct (PyStr.is_space2 a b); [reflexivity|].
    now rewrite is_space3_slash.
  - destruct (PyStr.is_space1 a).
    { apply (Hrec (b :: c :: rest)). cbn. lia. }
    destruct (PyStr.is_space2 a b).
    { apply (Hrec (c :: rest)). cbn. lia. }
    rewrite (Hrec rest); [apply andb_false_r|cbn; lia].
Qed.

Lemma blank_normalized url :
  PyStr.blank (PyStr.of_chars (PyStr.rstrip_slash (PyStr.chars url)) ++ "/") = false.
Proof. unfold PyStr.blank. rewrite chars_normalized. apply blank_chars_slash. Qed.

Lemma first_url_spec urls url :
  Mask.first_url urls = Some url <->
  exists before after,
    urls = (before ++ Some url :: after)%list /\ PyStr.blank url = false /\
    Forall (fun u => match u with
                     | Some x => PyStr.blank x = true
                     | None => True
                     end) before.
Proof.
  induction urls as [|[x|] rest IH]; cbn [Mask.first_url].
  - split; [discriminate|]. intros (b & a & H & _). now destruct b.
  - destruct (PyStr.blank x) eqn:Eb.
    + rewrite andb_false_r. rewrite IH. split.
      * intros (b & a & -> & Hu & Hb). exists (Some x :: b), a. repeat split; auto.
      * intros (b & a & H & Hu & Hb). destruct b as [|y b]; cbn in H; simplify_eq;
          [congruence|].
        apply Forall_cons in Hb as [_ Hb]. eauto.
    + rewrite (blank_nil_eqb _ Eb). cbn. split.
      * intros H. simplify_eq. exists [], rest. repeat split; auto.
      * intros (b & a & H & Hu & Hb). destruct b as [|y b]; cbn in H; simplify_eq.
        -- reflexivity.
        -- apply Forall_cons in Hb as [Hy _]. congruence.
  - rewrite IH. split.
    + intros (b & a & -> & Hu & Hb). exists (None :: b), a. repeat split; auto.
    + intros (b & a & H & Hu & Hb). destruct b as [|y b]; cbn in H; simplify_eq.
      apply Forall_cons in Hb as [_ Hb]. eauto.
Qed.

Lemma first_url_none urls :
  Mask.first_url urls = None <->
  Forall (fun u => match u with
                   | Some x => PyStr.blank x = true
                   | None => True
                   end) urls.
Proof.
  induction urls as [|[x|] rest IH]; cbn [Mask.first_url].
  - split; auto.
  - destruct (PyStr.blank x) eqn:Eb.
    + rewrite andb_false_r, IH. split; [now constructor|].
      intros H. now apply Forall_cons in H as [_ H].
    + rewrite (blank_nil_eqb _ Eb). cbn. split; [discriminate|].
      intros H. apply Forall_cons in H as [H _]. congruence.
  - rewrite IH. split; [now constructor|].
    intros H. now apply Forall_cons in H as [_ H].
Qed.

(** X10. [_pick_comfy_url] answers with the first of the form field, the
    header and the query parameter that is given and not blank, its trailing
    slashes replaced by a single one: the answer ends with one slash and not
    with two, and is left as it is when it is passed in again.  It raises
    HTTP 400 exactly when every candidate is missing or blank. *)
Theorem pick_comfy_url_spec (form_url header_url query_url : option string) :
  (forall r, Mask._pick_comfy_url form_url header_url query_url = Ok r ->
     (exists before url after,
        [form_url; header_url; query_url] = (before ++ Some url :: after)%list /\
        PyStr.blank url = false /\
        Forall (fun u => match u with
                         | Some x => PyStr.blank x = true
                         | None => True
                         end) before /\
        r = PyStr.of_chars (PyStr.rstrip_slash (PyStr.chars url)) ++ "/") /\
     PyStr.endswith r "/" = true /\ PyStr.endswith r "//" = false /\
     forall h q, Mask._pick_comfy_url (Some r) h q = Ok r) /\
  (Mask._pick_comfy_url form_url header_url query_url = Raise (HTTPException 400) <->
   Forall (fun u => match u with
                    | Some x => PyStr.blank x = true
                    | None => True
                    end) [form_url; header_url; query_url]).
Proof.
  unfold Mask._pick_comfy_url at 1 3. split.
  - intros r. destruct (Mask.first_url _) as [url|] eqn:E; [|discriminate].
    intros H. injection H as <-.
    apply first_url_spec in E as (before & after & Hl & Hb & Hall).
    split; [exists before, url, after; auto|].
    split; [apply endswith_app|]. split.
    + unfold PyStr.endswith. apply bool_decide_eq_false. intros [k Hk].
      rewrite chars_normalized in Hk.
      change (PyStr.chars "//") with ([PyStr.slash] ++ [PyStr.slash])%list in Hk.
      rewrite app_assoc in Hk. apply app_inj_tail in Hk as [Hk _].
      now apply rstrip_slash_end in Hk.
    + intros h q. unfold Mask._pick_comfy_url. cbn [Mask.first_url].
      rewrite blank_normalized, (blank_nil_eqb _ (blank_normalized url)). cbn.
      rewrite chars_normalized, rstrip_slash_snoc, rstrip_slash_idem. reflexivity.
  - rewrite <- first_url_none.
    destruct (Mask.first_url _); split; intros H; try discriminate; reflexivity.
Qed.

(** ** Backgrounds and genders *)


Lemma of_chars_app l k : PyStr.of_chars (l ++ k) = PyStr.of_chars l ++ PyStr.of_chars k.
Proof.
  apply chars_inj. now rewrite chars_app, !chars_of_chars.
Qed.








(** ** Finding the prompt of a background *)

Lemma first_key_spec test keys k :
  PromptMap.first_key test keys = Some k <-> first_passing test keys k.
Proof.
  unfold first_passing.
  induction keys as [|x rest IH]; cbn [PromptMap.first_key].
  - split; [discriminate|]. intros (b & a & H & _). now destruct b.
  - destruct (test x) eqn:E.
    + split.
      * intros H. simplify_eq. exists [], rest. repeat split; auto.
      * intros (b & a & H & Ht & Hb). destruct b as [|y b]; cbn in H; simplify_eq;
          [reflexivity|].
        apply Forall_cons in Hb as [Hy _]. congruence.
    + rewrite IH. split.
      * intros (b & a & -> & Ht & Hb). exists (x :: b), a. repeat split; auto.
      * intros (b & a & H & Ht & Hb). destruct b as [|y b]; cbn in H; simplify_eq;
          [congruence|].
        apply Forall_cons in Hb as [_ Hb]. eauto.
Qed.

Lemma first_key_none test keys :
  PromptMap.first_key test keys = None <-> Forall (fun x => test x = false) keys.
Proof.
  induction keys as [|x rest IH]; cbn [PromptMap.first_key].
  - split; auto.
  - destruct (test x) eqn:E.
    + split; [discriminate|]. intros H. apply Forall_cons in H as [H _]. congruence.
    + rewrite IH. split; [now constructor|]. intros H. now apply Forall_cons in H as [_ H].
Qed.

Lemma first_key_ext test test' keys :
  (forall k, test k = test' k) ->
  PromptMap.first_key test keys = PromptMap.first_key test' keys.
Proof.
  intros H. induction keys as [|x rest IH]; cbn [PromptMap.first_key]; [reflexivity|].
  now rewrite H, IH.
Qed.

Lemma dict_get_key {V} (k : string) (items : list (string * V)) :
  k ∈ map fst items -> exists v, Py.dict_get k items = Some v.
Proof.
  induction items as [|[k' v'] items IH]; cbn; intros H; [inversion H|].
  destruct (String.eqb k k') eqn:E; [eauto|].
  apply elem_of_cons in H as [->|H]; [|auto].
  rewrite String.eqb_refl in E. discriminate.
Qed.

Lemma dict_get_in {V} (k : string) (items : list (string * V)) v :
  Py.dict_get k items = Some v -> k ∈ map fst items.
Proof.
  induction items as [|[k' v'] items IH]; cbn; [discriminate|].
  destruct (String.eqb k k') eqn:E.
  - apply String.eqb_eq in E. subst. intros _. left.
  - intros H. right. auto.
Qed.

(** The three rules of [find_matching_prompt], one after the other. *)
Lemma find_matching_prompt_rules env background_name prompt_library :
  PromptMap.find_matching_prompt env background_name prompt_library =
  let keys := map fst prompt_library in
  let entry k := match Py.dict_get k prompt_library with
                 | Some v => Some (v, k)
                 | None => None
                 end in
  match Py.dict_get background_name prompt_library with
  | Some v => Some (v, background_name)
  | None =>
      match PromptMap.first_key (cut_match env background_name) keys with
      | Some k => entry k
      | None =>
          match PromptMap.first_key (part_match env background_name) keys with
          | Some k => entry k
          | None => None
          end
      end
  end.
Proof.
  unfold PromptMap.find_matching_prompt. cbn zeta.
  destruct (Py.dict_get background_name prompt_library); [reflexivity|].
  unfold cut_match. destruct (PyStr.endswith background_name "_women"); cbn [andb].
  - reflexivity.
  - replace (PromptMap.first_key (fun _ => false) (map fst prompt_library))
      with (@None string); [reflexivity|].
    symmetry. apply first_key_none. apply Forall_forall. auto.
Qed.

(** X12. [find_matching_prompt] answers with a key of the library and the
    prompt filed under it, and its three rules apply in this order.  A
    background that is itself a key gets its own prompt.  Otherwise, for a
    background ending in [_women], the first key that is, apart from what
    [str.lower] folds, the background cut by seven characters.  If there is
    none, the first key that contains the background or is contained in it,
    apart from what [str.lower] folds.  It answers [None] exactly when no
    rule applies to any key. *)
Theorem find_matching_prompt_spec (env : Env) (background_name : string)
    (prompt_library : list (string * json)) :
  let keys := map fst prompt_library in
  let found := PromptMap.find_matching_prompt env background_name prompt_library in
  (forall v k, found = Some (v, k) ->
     k ∈ keys /\ Py.dict_get k prompt_library = Some v) /\
  (forall v, Py.dict_get background_name prompt_library = Some v ->
     found = Some (v, background_name)) /\
  (forall k, background_name ∉ keys ->
     first_passing (cut_match env background_name) keys k ->
     exists v, found = Some (v, k) /\ Py.dict_get k prompt_library = Some v) /\
  (forall k, background_name ∉ keys ->
     Forall (fun x => cut_match env background_name x = false) keys ->
     first_passing (part_match env background_name) keys k ->
     exists v, found = Some (v, k) /\ Py.dict_get k prompt_library = Some v) /\
  (found = None <->
   ((background_name ∉ keys) /\
    Forall (fun x => cut_match env background_name x = false) keys /\
    Forall (fun x => part_match env background_name x = false) keys)).
Proof.
  intros keys found.
  assert (Hfound := find_matching_prompt_rules env background_name prompt_library).
  cbn zeta in Hfound. fold keys found in Hfound.
  assert (Hentry : forall k, k ∈ keys ->
            exists v, Py.dict_get k prompt_library = Some v /\
                      match Py.dict_get k prompt_library with
                      | Some v => Some (v, k)
                      | None => None
                      end = Some (v, k)).
  { intros k Hk. destruct (dict_get_key k prompt_library Hk) as (v & Hv).
    exists v. now rewrite Hv. }
  assert (Hpass : forall test k, first_passing test keys k -> k ∈ keys).
  { intros test k (b & a & -> & _). apply elem_of_app. right. left. }
  destruct (Py.dict_get background_name prompt_library) as [v0|] eqn:E0.
  { pose proof (dict_get_in _ _ _ E0) as Hin. fold keys in Hin.
    split; [|split; [|split; [|split]]].
    - intros v k H. rewrite Hfound in H. injection H as <- <-. auto.
    - intros v H. injection H as <-. exact Hfound.
    - intros k Hout. contradiction.
    - intros k Hout. contradiction.
    - rewrite Hfound. split; [discriminate|]. intros (Hout & _). contradiction. }
  assert (Hout : background_name ∉ keys).
  { intros Hin. destruct (dict_get_key _ prompt_library Hin) as (v & Hv). congruence. }
  destruct (PromptMap.first_key (cut_match env background_name) keys) as [k1|] eqn:E1.
  { apply first_key_spec in E1. pose proof (Hpass _ _ E1) as Hk1.
    destruct (Hentry k1 Hk1) as (v1 & Hv1 & He1). rewrite He1 in Hfound.
    split; [|split; [|split; [|split]]].
    - intros v k H. rewrite Hfound in H. injection H as <- <-. auto.
    - discriminate.
    - intros k _ Hk. apply first_key_spec in E1, Hk.
      rewrite E1 in Hk. injection Hk as <-. eauto.
    - intros k _ Hnone _. apply first_key_none in Hnone.
      apply first_key_spec in E1. congruence.
    - rewrite Hfound. split; [discriminate|]. intros (_ & Hnone & _).
      apply first_key_none in Hnone. apply first_key_spec in E1. congruence. }
  destruct (PromptMap.first_key (part_match env background_name) keys) as [k2|] eqn:E2.
  { apply first_key_spec in E2. pose proof (Hpass _ _ E2) as Hk2.
    destruct (Hentry k2 Hk2) as (v2 & Hv2 & He2). rewrite He2 in Hfound.
    split; [|split; [|split; [|split]]].
    - intros v k H. rewrite Hfound in H. injection H as <- <-. auto.
    - discriminate.
    - intros k _ Hk. apply first_key_spec in Hk. congruence.
    - intros k _ _ Hk. apply first_key_spec in E2, Hk.
      rewrite E2 in Hk. injection Hk as <-. eauto.
    - rewrite Hfound. split; [discriminate|]. intros (_ & _ & Hnone).
      apply first_key_none in Hnone. apply first_key_spec in E2. congruence. }
  split; [|split; [|split; [|split]]].
  - intros v k H. rewrite Hfound in H. discriminate.
  - discriminate.
  - intros k _ Hk. apply first_key_spec in Hk. congruence.
  - intros k _ _ Hk. apply first_key_spec in Hk. congruence.
  - split; [|intros _; exact Hfound]. intros _.
    apply first_key_none in E1, E2. auto.
Qed.

(** ** Retrying a call *)

Lemma api_call_loop_spec {A} (func : nat -> result A) (max_retries : Z) len :
  forall start,
  (0 < len -> Z.of_nat (start + len) = max_retries)%nat ->
  (forall j, (j < start)%nat -> exists e, func j = Raise e) ->
  match PromptMap.api_call_loop func max_retries (seq start len) with
  | Ok (Some a) =>
      exists i, (start <= i < start + len)%nat /\ func i = Ok a /\
                forall j, (j < i)%nat -> exists e, func j = Raise e
  | Ok None => len = 0%nat
  | Raise e =>
      func (start + len - 1)%nat = Raise e /\
      forall j, (j < start + len)%nat -> exists e', func j = Raise e'
  end.
Proof.
  induction len as [|len IH]; intros start Hmax Hbefore; cbn [seq PromptMap.api_call_loop].
  - reflexivity.
  - destruct (func start) as [a|e] eqn:Ef.
    + exists start. split; [lia|]. auto.
    + assert (Hb' : forall j, (j < S start)%nat -> exists e', func j = Raise e').
      { intros j Hj. destruct (decide (j = start)) as [->|]; [eauto|]. apply Hbefore. lia. }
      destruct (Z.of_nat start =? max_retries - 1) eqn:E.
      * apply Z.eqb_eq in E. specialize (Hmax ltac:(lia)).
        assert (len = 0)%nat as -> by lia.
        replace (start + 1 - 1)%nat with start by lia. split; [assumption|].
        intros j Hj. apply Hb'. lia.
      * apply Z.eqb_neq in E. specialize (Hmax ltac:(lia)).
        assert (0 < len)%nat by lia.
        specialize (IH (S start) ltac:(intros _; lia) Hb').
        destruct (PromptMap.api_call_loop func max_retries (seq (S start) len))
          as [[a|]|e'].
        -- destruct IH as (i & Hi & Hfi & Hj). exists i. split; [lia|]. auto.
        -- lia.
        -- replace (start + S len - 1)%nat with (S start + len - 1)%nat by lia.
           replace (start + S len)%nat with (S start + len)%nat by lia. exact IH.
Qed.

(** X13. [api_call_with_retry] calls [func] until a call succeeds and
    answers with its result, the earlier calls having all failed; it makes
    at most [max_retries] calls, and when they all fail it raises the
    exception of the last one.  With [max_retries] at zero or below it makes
    no call and answers [None]. *)
Theorem api_call_with_retry_spec {A} (func : nat -> result A) (max_retries : Z) :
  match PromptMap.api_call_with_retry func max_retries with
  | Ok (Some a) =>
      exists i, Z.of_nat i < max_retries /\ func i = Ok a /\
                forall j, (j < i)%nat -> exists e, func j = Raise e
  | Ok None => max_retries <= 0
  | Raise e =>
      0 < max_retries /\ func (Z.to_nat (max_retries - 1)) = Raise e /\
      forall j, Z.of_nat j < max_retries -> exists e', func j = Raise e'
  end.
Proof.
  unfold PromptMap.api_call_with_retry.
  pose proof (api_call_loop_spec func max_retries (Z.to_nat max_retries) 0) as H.
  cbn [Nat.add] in H.
  specialize (H ltac:(lia) ltac:(intros j Hj; lia)).
  destruct (PromptMap.api_call_loop func max_retries (seq 0 (Z.to_nat max_retries)))
    as [[a|]|e] eqn:El.
  - destruct H as (i & Hi & Hf & Hj). exists i. split; [lia|]. auto.
  - lia.
  - destruct H as [Hl Hall].
    assert (0 < max_retries).
    { destruct (decide (0 < max_retries)); [assumption|]. exfalso.
      replace (Z.to_nat max_retries) with 0%nat in El by lia. discriminate El. }
    split; [assumption|]. split.
    + rewrite <- Hl. f_equal. lia.
    + intros j Hj. apply Hall. lia.
Qed.

(** ** The prompts file *)

Lemma dict_get_set {V} (k k' : string) (v : V) (d : list (string * V)) :
  Py.dict_get k (Py.dict_set k' v d) =
  if String.eqb k k' then Some v else Py.dict_get k d.
Proof.
  induction d as [|[k0 v0] d IH]; cbn [Py.dict_set Py.dict_get].
  - reflexivity.
  - destruct (String.eqb k' k0) eqn:E0; cbn [Py.dict_get].
    + apply String.eqb_eq in E0. subst k0. destruct (String.eqb k k'); reflexivity.
    + rewrite IH. destruct (String.eqb k k0) eqn:E1; [|reflexivity].
      apply String.eqb_eq in E1. subst k0.
      rewrite String.eqb_sym in E0. now rewrite E0.
Qed.

Lemma dict_get_app {V} (k : string) (a b : list (string * V)) :
  Py.dict_get k (a ++ b) =
  match Py.dict_get k a with Some v => Some v | None => Py.dict_get k b end.
Proof.
  induction a as [|[k0 v0] a IH]; cbn; [reflexivity|].
  destruct (String.eqb k k0); [reflexivity|exact IH].
Qed.

Lemma dict_update_get k fields : forall d,
  Py.dict_get k (Routes.dict_update d fields) =
  match Py.dict_get k (rev fields) with
  | Some v => Some v
  | None => Py.dict_get k d
  end.
Proof.
  unfold Routes.dict_update.
  induction fields as [|[k0 v0] fields IH]; intros d; cbn [fold_left rev]; [reflexivity|].
  rewrite IH, dict_get_app. cbn [fst snd Py.dict_get].
  destruct (Py.dict_get k (rev fields)); [reflexivity|].
  rewrite dict_get_set. destruct (String.eqb k k0); reflexivity.
Qed.

Lemma merge_items_update items : forall d,
  Routes.merge_items items d = Routes.dict_update d (flat_map fields_of items).
Proof.
  unfold Routes.merge_items, Routes.dict_update.
  induction items as [|item items IH]; intros d; cbn [fold_left flat_map]; [reflexivity|].
  rewrite fold_left_app, IH. destruct item; reflexivity.
Qed.

(** X14. Before the batch the route turns a non-empty list of prompts into
    one dict: looking a key up in it gives the value of the last field of
    that key in the list, read item after item, items that are not dicts
    being passed over.  A dict, an empty list and a string are handed on as
    they are, and a number, a boolean or null raise [TypeError]. *)
Theorem convert_prompts_spec (prompts_data : json) :
  match prompts_data with
  | JArr (item :: items) =>
      exists d, Routes.convert_prompts prompts_data = Ok (JObj d) /\
        forall k, Py.dict_get k d
                  = Py.dict_get k (rev (flat_map fields_of (item :: items)))
  | JArr [] | JObj _ | JStr _ => Routes.convert_prompts prompts_data = Ok prompts_data
  | JNull | JBool _ | JNum _ => Routes.convert_prompts prompts_data = Raise TypeError
  end.
Proof.
  destruct prompts_data as [| | | |[|item items]|]; try reflexivity.
  unfold Routes.convert_prompts. cbn [Py.len rbind].
  eexists. split; [reflexivity|]. intros k.
  rewrite merge_items_update, dict_update_get. cbn [flat_map].
  destruct (Py.dict_get k (rev (fields_of item ++ flat_map fields_of items)));
    reflexivity.
Qed.

(** ** The properties at work on the scripted engine *)


(** Witness of X6: the two styles of the sample prompts, each once. *)
Lemma required_styles_unique_witness :
  Workflow.get_required_style_images Sample.env Sample.prompts
    = Ok [JStr "urban street"; JStr "beach"] /\
  distinct_values [JStr "urban street"; JStr "beach"].
Proof.
  assert (H : Workflow.get_required_style_images Sample.env Sample.prompts
              = Ok [JStr "urban street"; JStr "beach"]) by (vm_compute; reflexivity).
  split; [exact H|].
  exact (proj1 (proj2 (required_styles_unique Sample.env Sample.prompts _ H))).
Defined.

(** Witness of X7: the file named like the style is picked, not the file
    before it whose name only contains the style. *)
Lemma style_match_is_best_witness :
  fst (Workflow.find_style_file_matches Sample.env
         [JStr "urban street"; JStr "beach"] Sample.world)
    = Ok [(JStr "urban street", "styles/Urban Street.png");
          (JStr "beach", "styles/beach.jpg")] /\
  Forall (best_match Sample.env)
         [(JStr "urban street", "styles/Urban Street.png");
          (JStr "beach", "styles/beach.jpg")].
Proof.
  destruct (Workflow.find_style_file_matches Sample.env
              [JStr "urban street"; JStr "beach"] Sample.world) as [r w'] eqn:E.
  assert (Hr : r = Ok [(JStr "urban street", "styles/Urban Street.png");
                       (JStr "beach", "styles/beach.jpg")]).
  { apply (f_equal fst) in E. vm_compute in E. now rewrite <- E. }
  subst r. split; [reflexivity|].
  exact (proj1 (style_match_is_best Sample.env _ Sample.world _ w' E)).
Defined.

(** ** The counters of a batch *)

Section BatchCounters.
Variable env : Env.


End BatchCounters.


(** ** The answer of the masking route *)

Lemma replace_chars_absent old new l :
  PyStr.infix_chars old l = false -> PyStr.replace_chars old new 0 l = l.
Proof.
  induction l as [|c rest IH]; cbn [PyStr.replace_chars PyStr.infix_chars]; [reflexivity|].
  intros H. apply orb_false_iff in H as [H1 H2]. rewrite H1. f_equal. auto.
Qed.

Lemma replace_absent s old new :
  PyStr.contains s old = false -> PyStr.replace s old new = s.
Proof.
  unfold PyStr.contains, PyStr.replace. intros H.
  rewrite replace_chars_absent by assumption.
  unfold PyStr.of_chars, PyStr.chars. apply string_of_list_ascii_of_string.
Qed.

Section MaskReply.
Variable env : Env.
Variable cfg : Mask.Config.

(** The first component of what [process_image] returns. *)
Lemma process_image_name fuel file_bytes original_name w n p w' :
  Mask.process_image env cfg fuel file_bytes original_name w = Some (Ok (n, p), w') ->
  n = if Mask._is_zip_file original_name then "zip" else original_name.
Proof.
  unfold Mask.process_image.
  destruct (load_json env (Mask.WORKFLOW_JSON cfg)) as [template|].
  2:{ unfold total, bind, logm, raise. discriminate. }
  intros H. apply bindF_ok in H as (graph & w1 & _ & H).
  destruct (Mask._is_zip_file original_name).
  - apply bindF_ok in H as (images & w2 & _ & H).
    apply bindF_ok in H as (processed & w3 & _ & H).
    destruct processed.
    + unfold total, bind, logm, raise in H. discriminate.
    + apply bindF_ok in H as (zip_bytes & w4 & _ & H).
      unfold total, ret in H. now injection H as <- _ _.
  - apply bindF_ok in H as ([n0 out] & w2 & Hp & H).
    unfold total, ret in H. injection H as <- _ _.
    now apply _process_single_image_name in Hp.
Qed.

End MaskReply.

(** X16. When the masking route answers, the answer is declared an archive
    exactly when the upload was taken for an archive or is named [zip]; any
    other answer is an octet stream under the name of the upload.  An
    archive goes out under the name of the upload with every [.zip] in it
    replaced by [_processed.zip], so under the very name of the upload when
    that holds no lower-case [.zip]. *)
Theorem mask_reply_kind (env : Env) (cfg : Mask.Config) (fuel : nat)
    (filename : option string) (file_bytes : string)
    (comfy_url x_comfy_url comfy_url_query : option string)
    (w : World) (r : MaskRoute.reply) (w' : World) :
  MaskRoute.mask env cfg fuel filename file_bytes comfy_url x_comfy_url
    comfy_url_query w = Some (Ok r, w') ->
  let name := MaskRoute.effective_name filename in
  (MaskRoute.media_type r = "application/zip" <->
   Mask._is_zip_file name = true \/ name = "zip") /\
  (MaskRoute.media_type r <> "application/zip" ->
   MaskRoute.media_type r = "application/octet-stream" /\
   MaskRoute.attachment r = name) /\
  (MaskRoute.media_type r = "application/zip" ->
   MaskRoute.attachment r = PyStr.replace name ".zip" "_processed.zip" /\
   (PyStr.contains name ".zip" = false -> MaskRoute.attachment r = name)).
Proof.
  intros H name. unfold MaskRoute.mask in H. fold name in H.
  apply bindF_ok in H as (url & w1 & _ & H).
  apply bindF_ok in H as ([n p] & w2 & Hp & H).
  unfold total, ret in H. injection H as <- _.
  apply process_image_name in Hp. unfold MaskRoute.respond. cbn [fst snd].
  destruct (String.eqb n "zip") eqn:En; cbn [MaskRoute.media_type MaskRoute.attachment].
  - apply String.eqb_eq in En. split; [|split].
    + split; [|reflexivity]. intros _.
      destruct (Mask._is_zip_file name); [now left|right; congruence].
    + intros Hne. now destruct Hne.
    + intros _. split; [reflexivity|]. apply replace_absent.
  - apply String.eqb_neq in En. split; [|split].
    + split; [discriminate|].
      intros [Hz| ->]; [rewrite Hz in Hp; congruence|].
      destruct (Mask._is_zip_file "zip"); congruence.
    + intros _. split; [reflexivity|].
      destruct (Mask._is_zip_file name); congruence.
    + discriminate.
Qed.

(** Witness of X16: an upload in capitals is taken for an archive and
    answered under its own name. *)
Lemma mask_reply_kind_witness :
  exists r w',
    MaskRoute.mask Sample.env Sample.cfg 5 (Some "Shots.ZIP") "zipped"
      None (Some "http://engine:8188//") None Sample.world = Some (Ok r, w') /\
    MaskRoute.media_type r = "application/zip" /\
    MaskRoute.attachment r = "Shots.ZIP".
Proof.
  destruct (MaskRoute.mask Sample.env Sample.cfg 5 (Some "Shots.ZIP") "zipped"
              None (Some "http://engine:8188//") None Sample.world)
    as [[[r|e] w']|] eqn:E.
  - pose proof (mask_reply_kind _ _ _ _ _ _ _ _ _ _ _ E) as (Hkind & _ & Hzip).
    exists r, w'. split; [reflexivity|].
    assert (Hm : MaskRoute.media_type r = "application/zip").
    { apply Hkind. left. vm_compute. reflexivity. }
    split; [exact Hm|]. apply (proj2 (Hzip Hm)). vm_compute. reflexivity.
  - vm_compute in E. discriminate E.
  - vm_compute in E. discriminate E.
Defined.
